(** * Compound cloud simulation (microbe_stage/compound_cloud_system.cpp)

    A shallow embedding of the numerical core of the compound cloud system:
    the accessors [takeCompound] and [amountAvailable] of
    [CompoundCloudComponent], and the velocity field generator, the
    diffusion sweep, the advection step, the window rebasing and the copy
    of the density into the texture buffer of [CompoundCloudSystem].

    - C++ [float] is IEEE 754 binary32, modelled by the Standard Library's
      [spec_float] with 24 bits of precision and its correctly rounded
      operations; every [float] expression is evaluated in binary32.
      [double] only occurs in the clamp tests of [advect] ([dx < 0.5],
      [dx > width - 1.5]) and is the same type at 53 bits.
    - C++ [int] is modelled in [Z]; [/] on [int] is [Z.quot].  Signed
      overflow is undefined behaviour in C++ and is given no meaning here.
    - [std::vector<std::vector<float>>] is a list of columns indexed [x][y].
      Indexing outside a vector and converting a float that does not fit an
      [int] are undefined in C++: the model returns [None] there, so every
      operation lives in the option monad, and "defined" means that no such
      access or conversion happens.
    - The rendering side of [Run] (materials, scene nodes, shader
      parameters) is left out; it does not touch the grids.  Of the texture
      upload only the loop that writes the alpha bytes is modelled, on a
      byte array that stands for the locked pixel buffer. *)

From Stdlib Require Import ZArith QArith Qround Qpower Lia Lqa.
From Stdlib Require Import Floats.SpecFloat.
From stdpp Require Import base option list strings.

Open Scope Z_scope.

(** ** Binary32 and binary64 arithmetic *)

#[warning="-notation-for-abbreviation"]
Notation float := spec_float (only parsing).

Definition prec32 : Z := 24.
Definition emax32 : Z := 128.
Definition prec64 : Z := 53.
Definition emax64 : Z := 1024.

Definition fadd : float -> float -> float := SFadd prec32 emax32.
Definition fsub : float -> float -> float := SFsub prec32 emax32.
Definition fmul : float -> float -> float := SFmul prec32 emax32.
Definition fdiv : float -> float -> float := SFdiv prec32 emax32.

(** [float(n)] / implicit int-to-float conversion: round to nearest even. *)
Definition of_int (n : Z) : float := binary_normalize prec32 emax32 n 0 false.

(** [double(n)] and double subtraction, used by [width - 1.5]. *)
Definition double_of_int (n : Z) : spec_float :=
  binary_normalize prec64 emax64 n 0 false.
Definition dsub : spec_float -> spec_float -> spec_float := SFsub prec64 emax64.

(** The exact rational value of a finite float ([0] for the other classes,
    which the comparison below treats separately). *)
Definition F2Q (x : spec_float) : Q :=
  match x with
  | S754_finite s m e =>
      ((if s then -1 else 1) * inject_Z (Zpos m) * 2 ^ e)%Q
  | _ => 0%Q
  end.

Definition is_nan (x : spec_float) : bool :=
  match x with S754_nan => true | _ => false end.

Definition is_finite (x : spec_float) : bool :=
  match x with S754_zero _ | S754_finite _ _ _ => true | _ => false end.

(** IEEE comparison: NaN is unordered, infinities are extremal, and finite
    numbers compare by their exact values.  Comparing by value makes the
    definition independent of the format, so it also covers the comparisons
    the source performs after promoting a [float] to [double] (the promotion
    is exact).  On valid numbers of one format it is the Standard Library's
    [SFcompare] (lemma [Fcompare_SFcompare] below). *)
Definition Fcompare (a b : spec_float) : option comparison :=
  match a, b with
  | S754_nan, _ | _, S754_nan => None
  | S754_infinity s1, S754_infinity s2 =>
      Some (match s1, s2 with
            | true, false => Lt
            | false, true => Gt
            | _, _ => Eq
            end)
  | S754_infinity s, _ => Some (if s then Lt else Gt)
  | _, S754_infinity s => Some (if s then Gt else Lt)
  | _, _ => Some (F2Q a ?= F2Q b)%Q
  end.

Definition flt (a b : spec_float) : bool :=
  match Fcompare a b with Some Lt => true | _ => false end.
Definition fgt (a b : spec_float) : bool :=
  match Fcompare a b with Some Gt => true | _ => false end.
Definition fle (a b : spec_float) : bool :=
  match Fcompare a b with Some (Lt | Eq) => true | _ => false end.

(** [static_cast<int>(x)]: truncation toward zero; undefined ([None]) for
    NaN, infinities and values outside the range of a 32-bit [int]. *)
Definition Qtrunc (q : Q) : Z :=
  if Qle_bool 0 q then Qfloor q else Qceiling q.

Definition INT_MIN : Z := - 2 ^ 31.
Definition INT_MAX : Z := 2 ^ 31 - 1.

Definition to_int (x : float) : option Z :=
  if is_finite x then
    let n := Qtrunc (F2Q x) in
    if (INT_MIN <=? n) && (n <=? INT_MAX) then Some n else None
  else None.

#[global] Arguments of_int : simpl never.
#[global] Arguments fadd : simpl never.
#[global] Arguments fsub : simpl never.
#[global] Arguments fmul : simpl never.
#[global] Arguments fdiv : simpl never.
#[global] Arguments flt : simpl never.
#[global] Arguments fgt : simpl never.
#[global] Arguments fle : simpl never.
#[global] Arguments to_int : simpl never.

(** Conversion of a [double] to [float]: round to nearest even. *)
Definition float_of_double (x : spec_float) : float :=
  match x with
  | S754_finite s m e => binary_round prec32 emax32 s m e
  | _ => x
  end.

(** Literals: [0.5] and [1.5f] as [float]s; [0.5], [1.5] and [.01] as
    [double]s; [.01] converted to the [float] parameter of [diffuse]. *)
Definition f0_5 : float := S754_finite false 8388608 (-24).
Definition f1_5 : float := S754_finite false 12582912 (-23).
Definition d0_5 : spec_float := S754_finite false 4503599627370496 (-53).
Definition d1_5 : spec_float := S754_finite false 6755399441055744 (-52).
Definition d0_01 : spec_float := S754_finite false 5764607523034235 (-59).
Definition f0_01 : float := S754_finite false 10737418 (-30).

(** ** Grids: [std::vector<std::vector<float>>] indexed [x][y] *)

#[warning="-notation-for-abbreviation"]
Notation grid := (list (list spec_float)) (only parsing).

Definition grid_get (g : grid) (x y : Z) : option float :=
  if decide (0 <= x /\ 0 <= y) then
    col ← g !! Z.to_nat x; col !! Z.to_nat y
  else None.

Definition grid_set (g : grid) (x y : Z) (v : float) : option grid :=
  if decide (0 <= x /\ 0 <= y) then
    col ← g !! Z.to_nat x;
    _ ← col !! Z.to_nat y;
    Some (<[Z.to_nat x := <[Z.to_nat y := v]> col]> g)
  else None.

(** [std::vector<std::vector<float>>(w, std::vector<float>(h, v))] *)
Definition grid_make (w h : Z) (v : float) : grid :=
  replicate (Z.to_nat w) (replicate (Z.to_nat h) v).

(** A grid has [w] columns of [h] cells each. *)
Definition dims (w h : Z) (g : grid) : Prop :=
  Z.of_nat (length g) = w /\ Forall (fun col => Z.of_nat (length col) = h) g.

(** ** Counted loops

    [for (int i = lo; i < hi; i++) s = body(i, s);] where the body may hit
    undefined behaviour. *)

Fixpoint for_steps {St : Type} (n : nat) (i : Z)
    (body : Z -> St -> option St) (s : St) : option St :=
  match n with
  | O => Some s
  | S n' => s' ← body i s; for_steps n' (i + 1) body s'
  end.

Definition for_range {St : Type} (lo hi : Z)
    (body : Z -> St -> option St) (s : St) : option St :=
  for_steps (Z.to_nat (hi - lo)) lo body s.

(** ** CompoundCloudComponent *)

Module CompoundCloudComponent.

Record t : Type := mk {
  width : Z;
  height : Z;
  offsetX : Z;
  offsetY : Z;
  gridSize : Z;
  density : grid;
  oldDens : grid
}.

Definition set_density (c : t) (g : grid) : t :=
  mk (width c) (height c) (offsetX c) (offsetY c) (gridSize c) g (oldDens c).

(** [int takeCompound(int x, int y, float rate)]: the returned [int]
    together with the component after the call. *)
Definition takeCompound (c : t) (x y : Z) (rate : float) : option (Z * t) :=
  if decide (x >= 0 /\ x < width c /\ y >= 0 /\ y < height c) then
    d ← grid_get (density c) x y;
    n ← to_int d;
    amountToGive ← to_int (fmul (of_int n) rate);
    (* density[x][y] -= amountToGive; *)
    dens1 ← grid_set (density c) x y (fsub d (of_int amountToGive));
    (* if (density[x][y] < 1) density[x][y] = 0; *)
    d1 ← grid_get dens1 x y;
    dens2 ← (if flt d1 (of_int 1) then grid_set dens1 x y (of_int 0)
             else Some dens1);
    Some (amountToGive, set_density c dens2)
  else Some (-1, c).

(** [int amountAvailable(int x, int y, float rate)] *)
Definition amountAvailable (c : t) (x y : Z) (rate : float) : option (Z * t) :=
  if decide (x >= 0 /\ x < width c /\ y >= 0 /\ y < height c) then
    d ← grid_get (density c) x y;
    n ← to_int d;
    amountToGive ← to_int (fmul (of_int n) rate);
    Some (amountToGive, c)
  else Some (-1, c).

End CompoundCloudComponent.

#[warning="-notation-for-abbreviation"]
Notation cloud := CompoundCloudComponent.t (only parsing).

(** ** CompoundCloudSystem *)

Module CompoundCloudSystem.

Record t : Type := mk {
  noiseScale : float;
  width : Z;
  height : Z;
  offsetX : Z;
  offsetY : Z;
  gridSize : Z;
  xVelocity : grid;
  yVelocity : grid
}.

(** The constructor's member initialisers. *)
Definition init : t :=
  mk (of_int 5) 120 120 0 0 2
     (grid_make 120 120 (of_int 0)) (grid_make 120 120 (of_int 0)).

Definition set_velocity (s : t) (xv yv : grid) : t :=
  mk (noiseScale s) (width s) (height s) (offsetX s) (offsetY s)
     (gridSize s) xv yv.
Definition set_offsetX (s : t) (v : Z) : t :=
  mk (noiseScale s) (width s) (height s) v (offsetY s)
     (gridSize s) (xVelocity s) (yVelocity s).
Definition set_offsetY (s : t) (v : Z) : t :=
  mk (noiseScale s) (width s) (height s) (offsetX s) v
     (gridSize s) (xVelocity s) (yVelocity s).

(** *** CreateVelocityField

    [fieldPotential] is a Perlin noise object whose class is not part of
    these sources; its [noise(x, y, z)] method is a parameter. *)
Section VelocityField.
Variable noise : float -> float -> float -> float.

Definition velocityCell (s : t) (x y : Z) (v : grid * grid)
    : option (grid * grid) :=
  let nxScale := noiseScale s in
  let nyScale := fdiv (fmul nxScale (of_int (width s))) (of_int (height s)) in
  let x0 := fmul (fdiv (of_int (x - 1)) (of_int (width s))) nxScale in
  let y0 := fmul (fdiv (of_int (y - 1)) (of_int (height s))) nyScale in
  let x1 := fmul (fdiv (of_int (x + 1)) (of_int (width s))) nxScale in
  let y1 := fmul (fdiv (of_int (y + 1)) (of_int (height s))) nyScale in
  let n0 := noise x0 y0 (of_int 0) in
  let n1 := noise x1 y0 (of_int 0) in
  let ny := fsub n0 n1 in
  let n0 := noise x0 y0 (of_int 0) in
  let n1 := noise x0 y1 (of_int 0) in
  let nx := fsub n1 n0 in
  xv ← grid_set (fst v) x y (fdiv nx (of_int 2));
  yv ← grid_set (snd v) x y (fdiv ny (of_int 2));
  Some (xv, yv).

Definition CreateVelocityField (s : t) : option t :=
  v ← for_range 0 (width s) (fun x =>
         for_range 0 (height s) (fun y => velocityCell s x y))
       (xVelocity s, yVelocity s);
  Some (set_velocity s (fst v) (snd v)).
End VelocityField.

(** *** diffuse *)

Definition diffuseCell (a : float) (density : grid) (x y : Z)
    (oldDens : grid) : option grid :=
  d ← grid_get density x y;
  l ← grid_get oldDens (x - 1) y;
  r ← grid_get oldDens (x + 1) y;
  b ← grid_get oldDens x (y - 1);
  u ← grid_get oldDens x (y + 1);
  grid_set oldDens x y
    (fdiv (fadd d (fmul a (fadd (fadd (fadd l r) b) u)))
          (fadd (of_int 1) (fmul (of_int 4) a))).

Definition diffuse (s : t) (diffRate : float) (oldDens density : grid)
    (dt : Z) : option grid :=
  let dt := 1 in
  let a := fmul (of_int dt) diffRate in
  for_range 1 (width s - 1) (fun x =>
    for_range 1 (height s - 1) (fun y => diffuseCell a density x y))
  oldDens.

(** *** advect *)

(** [g[x][y] += v] *)
Definition grid_add (g : grid) (x y : Z) (v : float) : option grid :=
  c ← grid_get g x y; grid_set g x y (fadd c v).

(** The two clamps applied to [dx] (with [n = width]) and [dy] (with
    [n = height]).  The comparisons are carried out in [double], against
    the literal [0.5] and against [n - 1.5]; the assigned bounds [0.5] and
    [n - 1.5f] are [float]s. *)
Definition clamp (n : Z) (d : float) : float :=
  let d := if flt d d0_5 then f0_5 else d in
  if fgt d (dsub (double_of_int n) d1_5) then fsub (of_int n) f1_5 else d.

Definition advectCell (s : t) (dt : Z) (oldDens : grid) (x y : Z)
    (density : grid) : option grid :=
  o ← grid_get oldDens x y;
  if fgt o (of_int 1) then
    xv ← grid_get (xVelocity s) x y;
    yv ← grid_get (yVelocity s) x y;
    let dx := fadd (of_int x) (fmul (of_int dt) xv) in
    let dy := fadd (of_int y) (fmul (of_int dt) yv) in
    let dx := clamp (width s) dx in
    let dy := clamp (height s) dy in
    x0 ← to_int dx;
    let x1 := x0 + 1 in
    y0 ← to_int dy;
    let y1 := y0 + 1 in
    let s1 := fsub dx (of_int x0) in
    let s0 := fsub (of_int 1) s1 in
    let t1 := fsub dy (of_int y0) in
    let t0 := fsub (of_int 1) t1 in
    density ← grid_add density x0 y0 (fmul (fmul o s0) t0);
    density ← grid_add density x0 y1 (fmul (fmul o s0) t1);
    density ← grid_add density x1 y0 (fmul (fmul o s1) t0);
    grid_add density x1 y1 (fmul (fmul o s1) t1)
  else Some density.

Definition zeroFill (s : t) (density : grid) : option grid :=
  for_range 0 (width s) (fun x =>
    for_range 0 (height s) (fun y density =>
      grid_set density x y (of_int 0)))
  density.

Definition advect (s : t) (oldDens density : grid) (dt : Z) : option grid :=
  let dt := 1 in
  density ← zeroFill s density;
  for_range 1 (width s - 1) (fun x =>
    for_range 1 (height s - 1) (fun y => advectCell s dt oldDens x y))
  density.

(** *** Run: window rebasing *)

(** The first block of [Run]: move the window when the player position
    [(px, py)] has left its central third.  C++ [/] on [int] truncates. *)
Definition rebaseOffsets (s : t) (px py : float) : t :=
  let halfX s := (width s ÷ 3 * gridSize s) ÷ 2 in
  let halfY s := (height s ÷ 3 * gridSize s) ÷ 2 in
  if fgt px (of_int (offsetX s + halfX s))
     || fgt py (of_int (offsetY s + halfY s))
     || flt px (of_int (offsetX s - halfX s))
     || flt py (of_int (offsetY s - halfY s))
  then
    let s := if fgt px (of_int (offsetX s + halfX s))
             then set_offsetX s (offsetX s + width s ÷ 3 * gridSize s) else s in
    let s := if fgt py (of_int (offsetY s + halfY s))
             then set_offsetY s (offsetY s + height s ÷ 3 * gridSize s) else s in
    let s := if flt px (of_int (offsetX s - halfX s))
             then set_offsetX s (offsetX s - width s ÷ 3 * gridSize s) else s in
    let s := if flt py (of_int (offsetY s - halfY s))
             then set_offsetY s (offsetY s - height s ÷ 3 * gridSize s) else s in
    s
  else s.

(** One iteration of the three-assignment bodies of the shift loops:
    [d[a] = d[b]; d[b] = d[c]; d[c] = 0.0;] for the cells given. *)
Definition shift3 (d : grid) (a b c : Z * Z) : option grid :=
  v ← grid_get d (fst b) (snd b);
  d ← grid_set d (fst a) (snd a) v;
  v ← grid_get d (fst c) (snd c);
  d ← grid_set d (fst b) (snd b) v;
  grid_set d (fst c) (snd c) (of_int 0).

Definition shiftUp (s : t) (d : grid) : option grid :=
  let h := height s in
  for_range 0 (width s) (fun x =>
    for_range 0 (h ÷ 3) (fun y d =>
      shift3 d (x, y) (x, y + h ÷ 3) (x, y + h * 2 ÷ 3))) d.

Definition shiftRight (s : t) (d : grid) : option grid :=
  let h := height s in
  for_range 0 (width s ÷ 3) (fun x =>
    for_range 0 h (fun y d =>
      shift3 d (x, y) (x + h ÷ 3, y) (x + h * 2 ÷ 3, y))) d.

Definition shiftLeft (s : t) (d : grid) : option grid :=
  let h := height s in
  for_range 0 (width s ÷ 3) (fun x =>
    for_range 0 h (fun y d =>
      shift3 d (x + h * 2 ÷ 3, y) (x + h ÷ 3, y) (x, y))) d.

Definition shiftDown (s : t) (d : grid) : option grid :=
  let h := height s in
  for_range 0 (width s) (fun x =>
    for_range 0 (h ÷ 3) (fun y d =>
      shift3 d (x, y + h * 2 ÷ 3) (x, y + h ÷ 3) (x, y))) d.

(** The stale-offset block at the head of the per-cloud loop of [Run]. *)
Definition shiftCloud (s : t) (c : cloud) : option cloud :=
  let cx := CompoundCloudComponent.offsetX c in
  let cy := CompoundCloudComponent.offsetY c in
  let d := CompoundCloudComponent.density c in
  if decide (cx <> offsetX s \/ cy <> offsetY s) then
    d ← (if decide (cx = offsetX s /\ cy < offsetY s) then shiftUp s d
         else if decide (cx < offsetX s /\ cy = offsetY s) then shiftRight s d
         else if decide (cx > offsetX s /\ cy = offsetY s) then shiftLeft s d
         else if decide (cx = offsetX s /\ cy > offsetY s) then shiftDown s d
         else Some d);
    Some (CompoundCloudComponent.mk
            (CompoundCloudComponent.width c) (CompoundCloudComponent.height c)
            (offsetX s) (offsetY s)
            (CompoundCloudComponent.gridSize c)
            d (CompoundCloudComponent.oldDens c))
  else Some c.

(** Initialisation of a newly added component. *)
Definition initCloud (s : t) : cloud :=
  CompoundCloudComponent.mk (width s) (height s) (offsetX s) (offsetY s)
    (gridSize s)
    (grid_make (width s) (height s) (of_int 0))
    (grid_make (width s) (height s) (of_int 0)).

(** The window part of a tick: the offset update followed by the shift of
    every stale cloud. *)
Definition rebase (px py : float) (st : t * list cloud)
    : option (t * list cloud) :=
  let s := rebaseOffsets (fst st) px py in
  clouds ← mapM (shiftCloud s) (snd st);
  Some (s, clouds).

(** The simulation part of a tick for one cloud. *)
Definition simulate (s : t) (renderTime : Z) (c : cloud) : option cloud :=
  old ← diffuse s (float_of_double d0_01) (CompoundCloudComponent.oldDens c)
           (CompoundCloudComponent.density c) renderTime;
  dens ← advect s old (CompoundCloudComponent.density c) renderTime;
  Some (CompoundCloudComponent.mk
          (CompoundCloudComponent.width c) (CompoundCloudComponent.height c)
          (CompoundCloudComponent.offsetX c) (CompoundCloudComponent.offsetY c)
          (CompoundCloudComponent.gridSize c) dens old).

(** [Run] without its rendering side, on clouds that are already
    initialised: [TICKSPEED] is the engine's tick length, which the
    simulation ignores ([dt] is reset to 1). *)
Definition Run (TICKSPEED : Z) (px py : float) (tick : Z)
    (st : t * list cloud) : option (t * list cloud) :=
  let renderTime := TICKSPEED * tick in
  let s := rebaseOffsets (fst st) px py in
  clouds ← mapM (fun c => c ← shiftCloud s c; simulate s renderTime c) (snd st);
  Some (s, clouds).

(** *** Run: texture upload

    After the simulation [Run] copies the density of each cloud into the
    alpha channel of a locked pixel buffer, four bytes per pixel.  The
    buffer is modelled as the array of bytes behind [pixelBox.data] and
    [pDest] as an index into it; [rowSkip] stands for
    [pixelBox.getRowSkip() * Ogre::PixelUtil::getNumElemBytes(pixelBox.format)],
    which belongs to the rendering library. *)

(** [int intensity = static_cast<int>(d)], clamped to [0, 255]. *)
Definition intensity (d : float) : option Z :=
  n ← to_int d;
  Some (if decide (n < 0) then 0 else if decide (n > 255) then 255 else n).

(** [*pDest = v] through a [uint8_t*]: the [int] is converted modulo 256. *)
Definition store (buf : list Z) (pDest : Z) (v : Z) : option (list Z) :=
  if decide (0 <= pDest) then
    _ ← buf !! Z.to_nat pDest;
    Some (<[Z.to_nat pDest := v `mod` 256]> buf)
  else None.

(** The body of the inner loop, on the pair of [pDest] and the buffer. *)
Definition copyPixel (s : t) (density : grid) (j i : Z) (st : Z * list Z)
    : option (Z * list Z) :=
  d ← grid_get density i (height s - j - 1);
  v ← intensity d;
  buf ← store (snd st) (fst st) v;
  Some (fst st + 4, buf).

Definition copyDensity (s : t) (rowSkip : Z) (density : grid) (buf : list Z)
    : option (list Z) :=
  st ← for_range 0 (height s) (fun j st =>
          st ← for_range 0 (width s) (copyPixel s density j) st;
          Some (fst st + rowSkip, snd st))
        (3, buf);
  Some (snd st).

End CompoundCloudSystem.

#[warning="-notation-for-abbreviation"]
Notation system := CompoundCloudSystem.t (only parsing).

(** ** Script bindings (ThriveGame.cpp)

    The accessors of a [CompoundCloudComponent] are reached from outside
    through the script engine.  [bindThriveComponentTypes] registers them:
    each [RegisterObjectMethod] call pairs a script declaration with a
    pointer to a member function, taken with [asMETHOD]. *)

Module ThriveGame.

(** Pointers to the member functions of [CompoundCloudComponent]. *)
Inductive method : Type :=
  | addCloud
  | takeCompound
  | amountAvailable.

(** The three registrations for "CompoundCloudComponent", in source order. *)
Definition bindThriveComponentTypes : list (string * method) :=
  [("void addCloud(float density, int x, int y)"%string, addCloud);
   ("int takeCompound(int x, int y, float rate)"%string, takeCompound);
   ("int amountAvailable(int x, int y, float rate)"%string, takeCompound)].

(** The member function registered under a declaration. *)
Fixpoint registered (decl : string) (l : list (string * method))
    : option method :=
  match l with
  | [] => None
  | (d, m) :: l' => if decide (d = decl) then Some m else registered decl l'
  end.

(** A call through a pointer to a member of signature
    [int (int, int, float)].  [addCloud] has another signature; calling it
    this way has no meaning. *)
Definition invoke (m : method) (c : cloud) (x y : Z) (rate : float)
    : option (Z * cloud) :=
  match m with
  | takeCompound => CompoundCloudComponent.takeCompound c x y rate
  | amountAvailable => CompoundCloudComponent.amountAvailable c x y rate
  | addCloud => None
  end.

(** The script call [c.f(x, y, rate)] of the method declared as [decl]. *)
Definition call (decl : string) (c : cloud) (x y : Z) (rate : float)
    : option (Z * cloud) :=
  m ← registered decl bindThriveComponentTypes;
  invoke m c x y rate.

End ThriveGame.


(** * Specification vocabulary *)

(** ** Diffusion *)

(** The relaxation formula of the diffusion step,
    [(d + a*(l + r + b + u)) / (1 + 4*a)], with C++'s left-to-right sums. *)
Definition relax (a d l r b u : float) : float :=
  fdiv (fadd d (fmul a (fadd (fadd (fadd l r) b) u)))
       (fadd (of_int 1) (fmul (of_int 4) a)).

(** Interior cells of a [w] by [h] grid. *)
Definition interior (w h x y : Z) : Prop :=
  1 <= x <= w - 2 /\ 1 <= y <= h - 2.

(** Interior cells visited before the sweep (x outer, y inner, ascending)
    reaches [(x, y)]. *)
Definition swept (w h x y i j : Z) : Prop :=
  interior w h i j /\ (i < x \/ (i = x /\ j < y)).

(** Cell [(i, j)] of [g] holds the relaxation of [density] with the left and
    lower neighbours read from [g] itself and the right and upper
    neighbours read from the buffer [old] as it was before the sweep. *)
Definition relaxed (a : float) (old density g : grid) (i j : Z) : Prop :=
  exists d l r b u,
    grid_get density i j = Some d /\
    grid_get g (i - 1) j = Some l /\
    grid_get old (i + 1) j = Some r /\
    grid_get g i (j - 1) = Some b /\
    grid_get old i (j + 1) = Some u /\
    grid_get g i j = Some (relax a d l r b u).

(** State of the buffer when the sweep is about to visit [(x, y)]. *)
Definition sweep_inv (w h : Z) (a : float) (old density : grid)
    (x y : Z) (g : grid) : Prop :=
  dims w h g /\
  forall i j,
    (swept w h x y i j -> relaxed a old density g i j) /\
    (~ swept w h x y i j -> grid_get g i j = grid_get old i j).

(** ** The 6 by 6 scenario *)

(** A 6 by 6 window with cells of size 1 and a zero velocity field. *)
Definition system6 : system :=
  CompoundCloudSystem.mk (of_int 5) 6 6 0 0 1
    (grid_make 6 6 (of_int 0)) (grid_make 6 6 (of_int 0)).

Definition zero6 : grid := grid_make 6 6 (of_int 0).

(** All zero except [density[3][3] = 100]. *)
Definition impulse6 : grid :=
  <[3%nat := <[3%nat := of_int 100]> (replicate 6 (of_int 0))]> zero6.

(** A 6 by 6 system whose velocity is 10 along x and -10 along y
    everywhere. *)
Definition wind6 : system :=
  CompoundCloudSystem.mk (of_int 5) 6 6 0 0 1
    (grid_make 6 6 (of_int 10)) (grid_make 6 6 (of_int (-10))).

(** ** A one-cell cloud *)

(** A 1 by 1 component holding density 10. *)
Definition cloud1 : cloud :=
  CompoundCloudComponent.mk 1 1 0 0 1 [[of_int 10]] [[of_int 0]].

(** ** Velocity field *)

(** Cells of a [w] by [h] grid visited before a full scan (x outer, y inner,
    ascending from 0) reaches [(x, y)]. *)
Definition visited (w h x y i j : Z) : Prop :=
  (0 <= i < w /\ 0 <= j < h) /\ (i < x \/ (i = x /\ j < y)).

(** Grid coordinates scaled into noise space: [(float(x)/float(width)) *
    nxScale] and [(float(y)/float(height)) * nyScale]. *)
Definition noiseX (s : system) (x : Z) : float :=
  fmul (fdiv (of_int x) (of_int (CompoundCloudSystem.width s)))
       (CompoundCloudSystem.noiseScale s).

Definition noiseY (s : system) (y : Z) : float :=
  fmul (fdiv (of_int y) (of_int (CompoundCloudSystem.height s)))
       (fdiv (fmul (CompoundCloudSystem.noiseScale s)
                   (of_int (CompoundCloudSystem.width s)))
             (of_int (CompoundCloudSystem.height s))).

(** The noise potential sampled at grid position [(x, y)]. *)
Definition noiseAt (noise : float -> float -> float -> float)
    (s : system) (x y : Z) : float :=
  noise (noiseX s x) (noiseY s y) (of_int 0).

(** The x component as the specification words it:
    [(noise(x+1,y) - noise(x-1,y)) / 2]. *)
Definition spec_xVelocity (noise : float -> float -> float -> float)
    (s : system) (x y : Z) : float :=
  fdiv (fsub (noiseAt noise s (x + 1) y) (noiseAt noise s (x - 1) y)) (of_int 2).

(** A potential that grows along x only. *)
Definition noise_x (a b c : float) : float := a.

(** ** Advection *)

(** The clamped destination coordinate of a source coordinate [c] moved by
    velocity [v] along an axis of [n] cells: [clamp(c + 1*v, 0.5, n - 1.5)]. *)
Definition destination (n c : Z) (v : float) : float :=
  CompoundCloudSystem.clamp n (fadd (of_int c) (fmul (of_int 1) v)).

(** What the source cell [(x, y)] adds to the running value [acc] of the
    destination cell [(i, j)]: nothing unless [oldDens[x][y] > 1]; otherwise
    [oldDens[x][y]] times the bilinear weight of each of the four cells
    [(x0,y0)], [(x0,y1)], [(x1,y0)], [(x1,y1)] that is [(i, j)], where
    [x0 = trunc(dx)], [x1 = x0 + 1], [s1 = dx - x0], [s0 = 1 - s1], and
    the same along y. *)
Definition contribution (s : system) (oldDens : grid) (i j : Z)
    (x y : Z) (acc : float) : float :=
  match grid_get oldDens x y,
        grid_get (CompoundCloudSystem.xVelocity s) x y,
        grid_get (CompoundCloudSystem.yVelocity s) x y with
  | Some o, Some xv, Some yv =>
      if fgt o (of_int 1) then
        let dx := destination (CompoundCloudSystem.width s) x xv in
        let dy := destination (CompoundCloudSystem.height s) y yv in
        match to_int dx, to_int dy with
        | Some x0, Some y0 =>
            let x1 := x0 + 1 in
            let y1 := y0 + 1 in
            let s1 := fsub dx (of_int x0) in
            let s0 := fsub (of_int 1) s1 in
            let t1 := fsub dy (of_int y0) in
            let t0 := fsub (of_int 1) t1 in
            let acc := if decide (i = x0 /\ j = y0)
                       then fadd acc (fmul (fmul o s0) t0) else acc in
            let acc := if decide (i = x0 /\ j = y1)
                       then fadd acc (fmul (fmul o s0) t1) else acc in
            let acc := if decide (i = x1 /\ j = y0)
                       then fadd acc (fmul (fmul o s1) t0) else acc in
            let acc := if decide (i = x1 /\ j = y1)
                       then fadd acc (fmul (fmul o s1) t1) else acc in
            acc
        | _, _ => acc
        end
      else acc
  | _, _, _ => acc
  end.

(** The value of destination cell [(i, j)] after advection: starting from 0,
    the contributions of all interior source cells, accumulated in scan
    order (x outer, y inner, ascending). *)
Definition advected (s : system) (oldDens : grid) (i j : Z) : float :=
  fold_left
    (fun acc x =>
       fold_left (fun acc y => contribution s oldDens i j x y acc)
                 (seqZ 1 (CompoundCloudSystem.height s - 2)) acc)
    (seqZ 1 (CompoundCloudSystem.width s - 2))
    (of_int 0).

(** The advection step as the specification words it, written without the
    source's [clamp] and cast.  The clamp to [[lo, hi]]: a number below [lo]
    becomes [lo], a number above [hi] becomes [hi], a number in range is
    unchanged. *)
Definition spec_clamp (lo hi d : float) : float :=
  if flt d lo then lo else if fgt d hi then hi else d.

(** The destination [c + dt*v] (velocity is added, [dt = 1]), clamped to
    [[0.5, n - 1.5]]. *)
Definition spec_destination (n c : Z) (v : float) : float :=
  spec_clamp f0_5 (fsub (of_int n) f1_5) (fadd (of_int c) (fmul (of_int 1) v)).

(** [floor(d)], on the exact value of [d]. *)
Definition spec_floor (d : float) : Z := Qfloor (F2Q d).

(** The four bilinear terms of source cell [(x, y)], added to the running
    value [acc] of cell [(i, j)]. *)
Definition spec_contribution (s : system) (oldDens : grid) (i j : Z)
    (x y : Z) (acc : float) : float :=
  match grid_get oldDens x y,
        grid_get (CompoundCloudSystem.xVelocity s) x y,
        grid_get (CompoundCloudSystem.yVelocity s) x y with
  | Some o, Some xv, Some yv =>
      if fgt o (of_int 1) then
        let dx := spec_destination (CompoundCloudSystem.width s) x xv in
        let dy := spec_destination (CompoundCloudSystem.height s) y yv in
        let x0 := spec_floor dx in
        let x1 := x0 + 1 in
        let y0 := spec_floor dy in
        let y1 := y0 + 1 in
        let s1 := fsub dx (of_int x0) in
        let s0 := fsub (of_int 1) s1 in
        let t1 := fsub dy (of_int y0) in
        let t0 := fsub (of_int 1) t1 in
        let acc := if decide (i = x0 /\ j = y0)
                   then fadd acc (fmul (fmul o s0) t0) else acc in
        let acc := if decide (i = x0 /\ j = y1)
                   then fadd acc (fmul (fmul o s0) t1) else acc in
        let acc := if decide (i = x1 /\ j = y0)
                   then fadd acc (fmul (fmul o s1) t0) else acc in
        let acc := if decide (i = x1 /\ j = y1)
                   then fadd acc (fmul (fmul o s1) t1) else acc in
        acc
      else acc
  | _, _, _ => acc
  end.

(** Cell [(i, j)] after the step: 0, then the terms of the interior source
    cells [1 <= x < width - 1], [1 <= y < height - 1], x outer, y inner. *)
Definition spec_advected (s : system) (oldDens : grid) (i j : Z) : float :=
  fold_left
    (fun acc x =>
       fold_left (fun acc y => spec_contribution s oldDens i j x y acc)
                 (seqZ 1 (CompoundCloudSystem.height s - 2)) acc)
    (seqZ 1 (CompoundCloudSystem.width s - 2))
    (of_int 0).

(** No velocity is a NaN. *)
Definition no_nan (g : grid) : Prop :=
  forall x y v, grid_get g x y = Some v -> is_nan v = false.

(** ** Window rebasing *)

(** Half the width of the central third and the shift increment, along x
    and along y, as the source computes them. *)
Definition halfX (s : system) : Z :=
  (CompoundCloudSystem.width s ÷ 3 * CompoundCloudSystem.gridSize s) ÷ 2.
Definition halfY (s : system) : Z :=
  (CompoundCloudSystem.height s ÷ 3 * CompoundCloudSystem.gridSize s) ÷ 2.
Definition incX (s : system) : Z :=
  CompoundCloudSystem.width s ÷ 3 * CompoundCloudSystem.gridSize s.
Definition incY (s : system) : Z :=
  CompoundCloudSystem.height s ÷ 3 * CompoundCloudSystem.gridSize s.

(** The observer at [(px, py)] has left the central third of the window. *)
Definition triggered (s : system) (px py : float) : bool :=
  fgt px (of_int (CompoundCloudSystem.offsetX s + halfX s))
  || fgt py (of_int (CompoundCloudSystem.offsetY s + halfY s))
  || flt px (of_int (CompoundCloudSystem.offsetX s - halfX s))
  || flt py (of_int (CompoundCloudSystem.offsetY s - halfY s)).

(** The update of one axis on its own: position [p], offset [off], half
    width [half] of the central third, increment [inc]. *)
Definition axis_step (p : float) (off half inc : Z) : Z :=
  let off := if fgt p (of_int (off + half)) then off + inc else off in
  if flt p (of_int (off - half)) then off - inc else off.

(** [n] successive rebase checks with the observer at [(px, py)]. *)
Fixpoint rebase_n (n : nat) (px py : float) (st : system * list cloud)
    : option (system * list cloud) :=
  match n with
  | O => Some st
  | S n' => st' ← CompoundCloudSystem.rebase px py st; rebase_n n' px py st'
  end.

(** The cached offset of a cloud equals the window offset. *)
Definition in_sync (s : system) (c : cloud) : Prop :=
  CompoundCloudComponent.offsetX c = CompoundCloudSystem.offsetX s /\
  CompoundCloudComponent.offsetY c = CompoundCloudSystem.offsetY s.

(** ** Window shift scenario *)

(** A 6 by 6 cloud in sync with [system6], holding 100 at cell (1, 3). *)
Definition cloud6 : cloud :=
  CompoundCloudComponent.mk 6 6 0 0 1
    (<[1%nat := <[3%nat := of_int 100]> (replicate 6 (of_int 0))]> zero6)
    zero6.

(** ** Loop invariants *)

(** What the velocity field generator stores at cell [(x, y)]. *)
Definition curl_x (noise : float -> float -> float -> float)
    (s : system) (x y : Z) : float :=
  fdiv (fsub (noiseAt noise s (x - 1) (y + 1)) (noiseAt noise s (x - 1) (y - 1)))
       (of_int 2).
Definition curl_y (noise : float -> float -> float -> float)
    (s : system) (x y : Z) : float :=
  fdiv (fsub (noiseAt noise s (x - 1) (y - 1)) (noiseAt noise s (x + 1) (y - 1)))
       (of_int 2).

(** State of the two velocity grids when the generator is about to visit
    [(x, y)]. *)
Definition velocity_inv (noise : float -> float -> float -> float)
    (s : system) (x y : Z) (v : grid * grid) : Prop :=
  dims (CompoundCloudSystem.width s) (CompoundCloudSystem.height s) (fst v) /\
  dims (CompoundCloudSystem.width s) (CompoundCloudSystem.height s) (snd v) /\
  forall i j,
    visited (CompoundCloudSystem.width s) (CompoundCloudSystem.height s) x y i j ->
    grid_get (fst v) i j = Some (curl_x noise s i j) /\
    grid_get (snd v) i j = Some (curl_y noise s i j).

(** The density grid and the running value of one destination cell, side
    by side. *)
Definition cell_is (w h i j : Z) (g : grid) (acc : float) : Prop :=
  dims w h g /\ grid_get g i j = Some acc.

(** State of a grid when a horizontal shift loop over [m] columns, moving
    the bands at column offsets [kb] to [ka] and [kc] to [kb] and clearing
    [kc], is about to visit [(x, y)]; [g0] is the grid before the loop. *)
Definition bands_inv (w h m ka kb kc : Z) (g0 : grid) (x y : Z) (g : grid)
    : Prop :=
  dims w h g /\
  forall x' y', 0 <= x' < m -> 0 <= y' < h ->
    (visited m h x y x' y' ->
       grid_get g (x' + ka) y' = grid_get g0 (x' + kb) y' /\
       grid_get g (x' + kb) y' = grid_get g0 (x' + kc) y' /\
       grid_get g (x' + kc) y' = Some (of_int 0)) /\
    (~ visited m h x y x' y' ->
       grid_get g (x' + ka) y' = grid_get g0 (x' + ka) y' /\
       grid_get g (x' + kb) y' = grid_get g0 (x' + kb) y' /\
       grid_get g (x' + kc) y' = grid_get g0 (x' + kc) y').

(** State of a grid when a vertical shift loop over [w] columns and [m]
    rows, moving the bands at row offsets [kb] to [ka] and [kc] to [kb] and
    clearing [kc], is about to visit [(x, y)]; [g0] is the grid before the
    loop.  Rows outside the three bands are never written. *)
Definition rows_inv (w h m ka kb kc : Z) (g0 : grid) (x y : Z) (g : grid)
    : Prop :=
  dims w h g /\
  (forall x' y', 0 <= x' < w -> 0 <= y' < m ->
    (visited w m x y x' y' ->
       grid_get g x' (y' + ka) = grid_get g0 x' (y' + kb) /\
       grid_get g x' (y' + kb) = grid_get g0 x' (y' + kc) /\
       grid_get g x' (y' + kc) = Some (of_int 0)) /\
    (~ visited w m x y x' y' ->
       grid_get g x' (y' + ka) = grid_get g0 x' (y' + ka) /\
       grid_get g x' (y' + kb) = grid_get g0 x' (y' + kb) /\
       grid_get g x' (y' + kc) = grid_get g0 x' (y' + kc))) /\
  (forall i j,
     ~ 0 <= j - ka < m -> ~ 0 <= j - kb < m -> ~ 0 <= j - kc < m ->
     grid_get g i j = grid_get g0 i j).

(** ** Whole ticks *)

(** The component [c] with its cached offsets replaced by the window's. *)
Definition resync (s : system) (c : cloud) : cloud :=
  CompoundCloudComponent.mk
    (CompoundCloudComponent.width c) (CompoundCloudComponent.height c)
    (CompoundCloudSystem.offsetX s) (CompoundCloudSystem.offsetY s)
    (CompoundCloudComponent.gridSize c)
    (CompoundCloudComponent.density c) (CompoundCloudComponent.oldDens c).

(** Both grids of the component have the window's dimensions, as the
    initialisation of a newly added component leaves them. *)
Definition well_formed (s : system) (c : cloud) : Prop :=
  dims (CompoundCloudSystem.width s) (CompoundCloudSystem.height s)
       (CompoundCloudComponent.density c) /\
  dims (CompoundCloudSystem.width s) (CompoundCloudSystem.height s)
       (CompoundCloudComponent.oldDens c).

(** The three bands of the horizontal shifts fit the grid without
    overlapping (true on every square window). *)
Definition bands_fit (s : system) : Prop :=
  let w := CompoundCloudSystem.width s in
  let h := CompoundCloudSystem.height s in
  0 <= w ÷ 3 <= h ÷ 3 /\ h ÷ 3 + w ÷ 3 <= h * 2 ÷ 3 /\ h * 2 ÷ 3 + w ÷ 3 <= w.

(** The conditions on the window under which a tick is defined. *)
Definition runnable (s : system) : Prop :=
  let w := CompoundCloudSystem.width s in
  let h := CompoundCloudSystem.height s in
  w <= 2 ^ 23 /\ h <= 2 ^ 23 /\ bands_fit s /\
  dims w h (CompoundCloudSystem.xVelocity s) /\
  dims w h (CompoundCloudSystem.yVelocity s) /\
  no_nan (CompoundCloudSystem.xVelocity s) /\
  no_nan (CompoundCloudSystem.yVelocity s).


(** ** Signs *)

(** Not below zero, read off the representation: a zero of either sign, a
    positive number, plus infinity, or a NaN ([x < 0] is false for all of
    them). *)
Definition not_negative (x : float) : bool :=
  match x with
  | S754_finite true _ _ | S754_infinity true => false
  | _ => true
  end.

(** The same with the negative zero left out: dividing by such a number
    does not flip a sign. *)
Definition sign_clear (x : float) : bool :=
  match x with
  | S754_zero true => false
  | _ => not_negative x
  end.

(** No cell of the grid is below zero. *)
Definition none_negative (g : grid) : Prop :=
  forall x y v, grid_get g x y = Some v -> flt v (of_int 0) = false.

(** ** Empty clouds *)

(** The all-zero grid of the window's dimensions. *)
Definition zeros (s : system) : grid :=
  grid_make (CompoundCloudSystem.width s) (CompoundCloudSystem.height s) (of_int 0).

(** A cloud in sync with the window whose two grids are all zero. *)
Definition empty_cloud (s : system) (c : cloud) : Prop :=
  in_sync s c /\
  CompoundCloudComponent.density c = zeros s /\
  CompoundCloudComponent.oldDens c = zeros s.

(** ** Texture upload *)

(** Index of the alpha byte of pixel [(i, j)] (column [i] of texture row
    [j]) in a buffer whose rows are [4 * w + rowSkip] bytes apart. *)
Definition alpha_index (w rowSkip : Z) (j i : Z) : Z :=
  3 + j * (4 * w + rowSkip) + 4 * i.

(** The alpha value of pixel [(i, j)]: the density of cell
    [(i, height - 1 - j)] truncated and clamped to [0, 255]. *)
Definition alpha_is (s : system) (density : grid) (j i : Z) (v : Z) : Prop :=
  exists d n,
    grid_get density i (CompoundCloudSystem.height s - 1 - j) = Some d /\
    to_int d = Some n /\
    v = Z.max 0 (Z.min 255 n).

(** State of [pDest] and the buffer when the copy is about to write pixel
    [(i, j)]; [buf0] is the buffer before the copy. *)
Definition copy_inv (s : system) (rowSkip : Z) (density : grid)
    (buf0 : list Z) (j i : Z) (st : Z * list Z) : Prop :=
  let w := CompoundCloudSystem.width s in
  let h := CompoundCloudSystem.height s in
  fst st = alpha_index w rowSkip j i /\
  length (snd st) = length buf0 /\
  (forall j' i', visited h w j i j' i' ->
     exists v, alpha_is s density j' i' v /\
               snd st !! Z.to_nat (alpha_index w rowSkip j' i') = Some v) /\
  (forall k, (forall j' i', visited h w j i j' i' ->
                k <> Z.to_nat (alpha_index w rowSkip j' i')) ->
     snd st !! k = buf0 !! k).

(** ** Still fluid *)

(** What advection leaves in cell [(i, j)] when nothing moves: the old
    density if it exceeds the threshold, nothing otherwise. *)
Definition kept (old : grid) (i j : Z) : float :=
  match grid_get old i j with
  | Some o => if fgt o (of_int 1) then o else of_int 0
  | None => of_int 0
  end.

(** State of the density grid when the advection of a still fluid is about
    to visit [(x, y)]. *)
Definition still_inv (w h : Z) (old : grid) (x y : Z) (g : grid) : Prop :=
  dims w h g /\
  forall i j, 0 <= i < w -> 0 <= j < h ->
    (swept w h x y i j -> grid_get g i j = Some (kept old i j)) /\
    (~ swept w h x y i j -> grid_get g i j = Some (of_int 0)).

(** ** A finite potential *)

(** A constant potential. *)
Definition noise_flat (a b c : float) : float := f0_5.

(** ** Window round trips *)

(** The component [c] with density [d], cached at the window's offsets. *)
Definition shifted (s : system) (c : cloud) (d : grid) : cloud :=
  CompoundCloudComponent.mk
    (CompoundCloudComponent.width c) (CompoundCloudComponent.height c)
    (CompoundCloudSystem.offsetX s) (CompoundCloudSystem.offsetY s)
    (CompoundCloudComponent.gridSize c)
    d (CompoundCloudComponent.oldDens c).

(** ** Successive offset updates *)

(** [n] offset updates with the observer at [(px, py)]. *)
Definition rebaseOffsets_n (n : nat) (px py : float) (s : system) : system :=
  Nat.iter n (fun s => CompoundCloudSystem.rebaseOffsets s px py) s.

(** ** Limits of the texture upload *)


(** A 1 by 1 window with cells of size 1. *)
Definition system1 : system :=
  CompoundCloudSystem.mk (of_int 5) 1 1 0 0 1 [[of_int 0]] [[of_int 0]].

(** ** The border of the diffusion buffer *)

(** The cells of [oldDens] outside the interior of the window are the same
    in [c] and [c']. *)
Definition border_kept (s : system) (c c' : cloud) : Prop :=
  forall x y,
    ~ interior (CompoundCloudSystem.width s) (CompoundCloudSystem.height s) x y ->
    grid_get (CompoundCloudComponent.oldDens c') x y
      = grid_get (CompoundCloudComponent.oldDens c) x y.

(** * Properties *)

(** ** Floating point *)

(** Rounding never produces a NaN. *)
Section RoundingNotNan.
Variables prec emax : Z.

Lemma shr_1_nonneg (mrs : shr_record) :
  0 <= shr_m mrs -> 0 <= shr_m (shr_1 mrs).
Proof.
  destruct mrs as [m r s]. simpl.
  destruct m as [|[p|p|]|[p|p|]]; simpl; lia.
Qed.

Lemma iter_pos_shr_1_nonneg (p : positive) (mrs : shr_record) :
  0 <= shr_m mrs -> 0 <= shr_m (SpecFloat.iter_pos shr_1 p mrs).
Proof.
  revert mrs. induction p as [p IH|p IH|]; simpl; intros mrs H.
  - apply IH, IH. by apply shr_1_nonneg.
  - by apply IH, IH.
  - by apply shr_1_nonneg.
Qed.

Lemma shr_nonneg (mrs : shr_record) (e n : Z) :
  0 <= shr_m mrs -> 0 <= shr_m (fst (shr mrs e n)).
Proof.
  intros H. destruct n; simpl; [done| |done].
  by apply iter_pos_shr_1_nonneg.
Qed.

Lemma shr_fexp_nonneg (m e : Z) (l : location) :
  0 <= m -> 0 <= shr_m (fst (shr_fexp prec emax m e l)).
Proof.
  intros H. unfold shr_fexp. apply shr_nonneg.
  by destruct l as [|[]].
Qed.

Lemma round_nearest_even_nonneg (m : Z) (l : location) :
  0 <= m -> 0 <= round_nearest_even m l.
Proof.
  intros H. destruct l as [|[]]; simpl; [done| |done|lia].
  destruct (Z.even m); lia.
Qed.

Lemma binary_round_aux_not_nan (s : bool) (m e : Z) (l : location) :
  0 <= m -> is_nan (binary_round_aux prec emax s m e l) = false.
Proof.
  intros H. unfold binary_round_aux.
  pose proof (shr_fexp_nonneg m e l H) as H1.
  destruct (shr_fexp prec emax m e l) as [mrs' e']. simpl in H1.
  pose proof (shr_fexp_nonneg
    (round_nearest_even (shr_m mrs') (loc_of_shr_record mrs')) e' loc_Exact
    (round_nearest_even_nonneg _ _ H1)) as H2.
  destruct (shr_fexp prec emax _ e' loc_Exact) as [mrs'' e'']. simpl in H2.
  destruct (shr_m mrs''); [done| |lia].
  by destruct (e'' <=? emax - prec).
Qed.

Lemma binary_round_not_nan (s : bool) (m : positive) (e : Z) :
  is_nan (binary_round prec emax s m e) = false.
Proof.
  unfold binary_round.
  destruct (shl_align m e _) as [mz ez].
  by apply binary_round_aux_not_nan.
Qed.

Lemma binary_normalize_not_nan (m e : Z) (sz : bool) :
  is_nan (binary_normalize prec emax m e sz) = false.
Proof.
  destruct m; simpl; [done| |]; apply binary_round_not_nan.
Qed.

Lemma SFadd_not_nan (x y : spec_float) :
  is_finite x = true -> is_nan y = false ->
  is_nan (SFadd prec emax x y) = false.
Proof.
  destruct x as [sx|sx| |sx mx ex], y as [sy|sy| |sy my ey];
    try done; simpl; intros _ _.
  - by destruct sx, sy.
  - apply binary_normalize_not_nan.
Qed.

Lemma SFsub_not_nan (x y : spec_float) :
  is_finite x = true -> is_nan y = false ->
  is_nan (SFsub prec emax x y) = false.
Proof.
  destruct x as [sx|sx| |sx mx ex], y as [sy|sy| |sy my ey];
    try done; simpl; intros _ _.
  - by destruct sx, sy.
  - apply binary_normalize_not_nan.
Qed.

Lemma SFmul_not_nan (s : bool) (m : positive) (e : Z) (y : spec_float) :
  is_nan y = false ->
  is_nan (SFmul prec emax (S754_finite s m e) y) = false.
Proof.
  destruct y as [sy|sy| |sy my ey]; try done; simpl; intros _.
  by apply binary_round_aux_not_nan.
Qed.

End RoundingNotNan.

Lemma digits2_pos_log2 (p : positive) :
  Zpos (digits2_pos p) = Z.log2 (Zpos p) + 1.
Proof.
  assert (forall q, digits2_pos q = Pos.size q) as Hsize.
  { induction q as [q IH|q IH|]; simpl; by rewrite ?IH. }
  rewrite Hsize. destruct p; simpl; lia.
Qed.

Lemma iter_xO_pow (m p : positive) :
  Zpos (Pos.iter xO m p) = Zpos m * 2 ^ Zpos p.
Proof.
  induction p as [|p IH] using Pos.peano_ind.
  - simpl. lia.
  - rewrite Pos.iter_succ, Pos2Z.inj_succ, Z.pow_succ_r by lia.
    rewrite Pos2Z.inj_xO, IH. lia.
Qed.

Lemma iter_pos_iter {A : Type} (f : A -> A) (p : positive) (x : A) :
  SpecFloat.iter_pos f p x = Pos.iter f x p.
Proof.
  revert x. induction p as [p IH|p IH|]; intros x; simpl.
  - rewrite !IH. simpl. by rewrite !Pos.iter_swap.
  - by rewrite !IH.
  - done.
Qed.

Lemma iter_shr_1_exact (p m : positive) :
  SpecFloat.iter_pos shr_1 p
    {| shr_m := Zpos (Pos.iter xO m p); shr_r := false; shr_s := false |}
  = {| shr_m := Zpos m; shr_r := false; shr_s := false |}.
Proof.
  rewrite iter_pos_iter. revert m.
  induction p as [|p IH] using Pos.peano_ind; intros m.
  - done.
  - rewrite !Pos.iter_succ. rewrite <- (Pos.iter_swap p _ xO).
    by rewrite IH.
Qed.

Lemma pow2_Q_plus (a b : Z) : (2 ^ (a + b) == 2 ^ a * 2 ^ b)%Q.
Proof. apply Qpower_plus. done. Qed.

Lemma pow2_Q_inject (k : Z) : 0 <= k -> (inject_Z (2 ^ k) == 2 ^ k)%Q.
Proof. intros H. by rewrite Zpower_Qpower. Qed.

Lemma Q_scale (m k e : Z) :
  0 <= k -> (inject_Z (m * 2 ^ k) * 2 ^ e == inject_Z m * 2 ^ (k + e))%Q.
Proof.
  intros H. rewrite inject_Z_mult, pow2_Q_inject, pow2_Q_plus by done.
  ring.
Qed.

(** Rounding is exact on representable values. *)
Section Exact.
Variables prec emax : Z.

(** Rounding a mantissa that already fits is exact. *)
Lemma binary_round_aux_fits (s : bool) (m : positive) (e : Z) :
  fexp prec emax (Z.log2 (Zpos m) + 1 + e) = e ->
  e <= emax - prec ->
  binary_round_aux prec emax s (Zpos m) e loc_Exact = S754_finite s m e.
Proof.
  intros Hfexp Hmax. unfold binary_round_aux, shr_fexp. simpl Zdigits2.
  rewrite digits2_pos_log2, Hfexp, Z.sub_diag. simpl.
  rewrite digits2_pos_log2, Hfexp, Z.sub_diag. simpl.
  by rewrite (proj2 (Z.leb_le _ _) Hmax).
Qed.

Lemma binary_round_exact (s : bool) (M : positive) (e : Z) :
  let e' := fexp prec emax (Z.log2 (Zpos M) + 1 + e) in
  (e <= e' -> (2 ^ (e' - e) | Zpos M)) ->
  e' <= emax - prec ->
  exists m', binary_round prec emax s M e = S754_finite s m' e' /\
             Zpos m' * 2 ^ Z.max 0 (e' - e) = Zpos M * 2 ^ Z.max 0 (e - e').
Proof.
  intros e' Hdiv Hmax. unfold binary_round, shl_align.
  rewrite digits2_pos_log2. fold e'.
  destruct (e' - e) as [|p|p] eqn:Hp.
  - (* no shift *)
    assert (e' = e) as He by lia.
    exists M. rewrite binary_round_aux_fits; [|by fold e'; lia|lia].
    split; [by rewrite He|]. by rewrite He, Z.sub_diag.
  - (* the mantissa has to lose [p] low bits, all zero *)
    destruct Hdiv as [z Hz]; [lia|].
    destruct z as [|m'|m']; [lia| |lia].
    assert (M = Pos.iter xO m' p) as HM.
    { apply Pos2Z.inj. rewrite iter_xO_pow. lia. }
    exists m'. split.
    + unfold binary_round_aux, shr_fexp. simpl Zdigits2.
      rewrite digits2_pos_log2. fold e'. rewrite Hp. simpl shr.
      rewrite HM, iter_shr_1_exact. simpl.
      assert (Z.log2 (Zpos m') + 1 + (e + Zpos p) = Z.log2 (Zpos M) + 1 + e) as Hd.
      { rewrite Hz. rewrite Z.log2_mul_pow2 by lia. lia. }
      rewrite digits2_pos_log2, Hd. fold e'.
      replace (e' - (e + Zpos p)) with 0 by lia. simpl.
      replace (e + Zpos p) with e' by lia.
      by rewrite (proj2 (Z.leb_le _ _) Hmax).
    + replace (Z.max 0 (e - e')) with 0 by lia.
      replace (Z.max 0 (Z.pos p)) with (Z.pos p) by lia. lia.
  - (* the mantissa is shifted left *)
    exists (Pos.iter xO M p). split.
    + apply binary_round_aux_fits; [|done].
      rewrite iter_xO_pow, Z.log2_mul_pow2 by lia.
      replace (Zpos p + Z.log2 (Zpos M) + 1 + e') with (Z.log2 (Zpos M) + 1 + e) by lia.
      done.
    + replace (Z.max 0 (e - e')) with (Z.pos p) by lia.
      replace (Z.max 0 (Z.neg p)) with 0 by lia. rewrite iter_xO_pow. lia.
Qed.

(** The value of the result, as a rational. *)
Lemma binary_round_exact_Q (s : bool) (M : positive) (e : Z) :
  let e' := fexp prec emax (Z.log2 (Zpos M) + 1 + e) in
  (e <= e' -> (2 ^ (e' - e) | Zpos M)) ->
  e' <= emax - prec ->
  exists m', binary_round prec emax s M e = S754_finite s m' e' /\
             (inject_Z (Zpos m') * 2 ^ e' == inject_Z (Zpos M) * 2 ^ e)%Q.
Proof.
  intros e' Hdiv Hmax.
  destruct (binary_round_exact s M e Hdiv Hmax) as (m' & Hr & Hv).
  exists m'. split; [done|]. fold e' in Hv.
  destruct (Z.le_ge_cases e e') as [Hle|Hle].
  - rewrite Z.max_r, (Z.max_l 0 (e - e')), Z.mul_1_r in Hv by lia.
    rewrite <- Hv, Q_scale by lia. by replace (e' - e + e) with e' by lia.
  - rewrite Z.max_l, (Z.max_r 0 (e - e')), Z.mul_1_r in Hv by lia.
    rewrite Hv, Q_scale by lia. by replace (e - e' + e') with e by lia.
Qed.

Hypothesis Hprec : 2 <= prec.
Hypothesis Hemax : prec + 3 <= emax.

(** Integers below [2^prec] convert exactly. *)
Lemma round_int_exact (s : bool) (M : positive) :
  Zpos M < 2 ^ prec ->
  exists m,
    binary_round prec emax s M 0
      = S754_finite s m (Z.log2 (Zpos M) + 1 - prec) /\
    Zpos m = Zpos M * 2 ^ (prec - 1 - Z.log2 (Zpos M)).
Proof.
  intros Hlt.
  assert (0 <= Z.log2 (Zpos M) < prec) as Hlog.
  { split; [apply Z.log2_nonneg|]. apply Z.log2_lt_pow2; lia. }
  assert (fexp prec emax (Z.log2 (Zpos M) + 1 + 0) = Z.log2 (Zpos M) + 1 - prec) as He.
  { unfold fexp, emin. lia. }
  destruct (binary_round_exact s M 0) as (m & Hr & Hv).
  - rewrite He. intros Hle. replace (Z.log2 (Zpos M) + 1 - prec - 0) with 0 by lia.
    apply Z.divide_1_l.
  - rewrite He. lia.
  - rewrite He in Hr, Hv. exists m. split; [done|].
    rewrite Z.max_l, Z.max_r, Z.mul_1_r in Hv by lia. rewrite Hv. f_equal. f_equal. lia.
Qed.

Lemma normalize_int_exact (n : Z) :
  0 < n < 2 ^ prec ->
  exists m,
    binary_normalize prec emax n 0 false
      = S754_finite false m (Z.log2 n + 1 - prec) /\
    Zpos m = n * 2 ^ (prec - 1 - Z.log2 n).
Proof.
  intros [Hpos Hlt]. destruct n as [|M|M]; [lia| |lia].
  by apply round_int_exact.
Qed.

(** The value of a converted integer. *)
Lemma normalize_int_value (n : Z) :
  - 2 ^ prec < n < 2 ^ prec ->
  is_finite (binary_normalize prec emax n 0 false) = true /\
  (F2Q (binary_normalize prec emax n 0 false) == inject_Z n)%Q.
Proof.
  intros Hn. destruct n as [|M|M]; simpl binary_normalize.
  - done.
  - destruct (round_int_exact false M) as (m & -> & Hm); [lia|].
    split; [done|]. unfold F2Q. rewrite Hm, Qmult_1_l, Q_scale.
    + replace (prec - 1 - Z.log2 (Zpos M) + (Z.log2 (Zpos M) + 1 - prec)) with 0 by lia.
      change (2 ^ 0)%Q with 1%Q. apply Qmult_1_r.
    + assert (Z.log2 (Zpos M) < prec) by (apply Z.log2_lt_pow2; lia). lia.
  - destruct (round_int_exact true M) as (m & -> & Hm); [lia|].
    split; [done|]. unfold F2Q.
    rewrite <- Qmult_assoc, Hm, Q_scale.
    + replace (prec - 1 - Z.log2 (Zpos M) + (Z.log2 (Zpos M) + 1 - prec)) with 0 by lia.
      change (2 ^ 0)%Q with 1%Q. rewrite Qmult_1_r. reflexivity.
    + assert (Z.log2 (Zpos M) < prec) by (apply Z.log2_lt_pow2; lia). lia.
Qed.

(** [n - 1.5] is computed exactly for [2 <= n] with [2n - 3 < 2^prec]. *)
Lemma sub_one_and_half_exact (n : Z) (m15 : positive) :
  Zpos m15 = 3 * 2 ^ (prec - 2) ->
  2 <= n -> 2 * n - 3 < 2 ^ prec ->
  exists m e,
    SFsub prec emax (binary_normalize prec emax n 0 false)
                    (S754_finite false m15 (1 - prec))
      = S754_finite false m e /\
    (inject_Z (Zpos m) * 2 ^ e == (2 * n - 3) # 2)%Q.
Proof.
  intros H15 Hn Hlt.
  assert (n < 2 ^ prec) as Hn'.
  { assert (2 ^ prec = 2 * 2 ^ (prec - 1)) as ->.
    { rewrite <- Z.pow_succ_r by lia. f_equal. lia. }
    assert (2 ^ 1 <= 2 ^ (prec - 1)) by (apply Z.pow_le_mono_r; lia).
    assert (2 * n - 3 < 2 * 2 ^ (prec - 1)) as H'.
    { rewrite <- Z.pow_succ_r by lia. by replace (Z.succ (prec - 1)) with prec by lia. }
    lia. }
  destruct (normalize_int_exact n) as (mn & -> & Hmn); [lia|].
  assert (0 <= Z.log2 n < prec) as Hlog.
  { split; [apply Z.log2_nonneg|]. apply Z.log2_lt_pow2; lia. }
  unfold SFsub.
  rewrite Z.min_r by lia.
  assert (Zpos (fst (shl_align mn (Z.log2 n + 1 - prec) (1 - prec)))
          = n * 2 ^ (prec - 1)) as ->.
  { unfold shl_align.
    destruct (1 - prec - (Z.log2 n + 1 - prec)) as [|p|p] eqn:Hp; simpl fst.
    - rewrite Hmn. f_equal. f_equal. lia.
    - lia.
    - rewrite iter_xO_pow, Hmn, <- Z.mul_assoc, <- Z.pow_add_r by lia.
      f_equal. f_equal. lia. }
  assert (fst (shl_align m15 (1 - prec) (1 - prec)) = m15) as ->.
  { unfold shl_align. by rewrite Z.sub_diag. }
  simpl cond_Zopp. rewrite H15.
  assert (n * 2 ^ (prec - 1) - 3 * 2 ^ (prec - 2) = (2 * n - 3) * 2 ^ (prec - 2)) as ->.
  { replace (prec - 1) with (Z.succ (prec - 2)) by lia.
    rewrite Z.pow_succ_r by lia. lia. }
  assert (0 < 2 ^ (prec - 2)) as Hp2 by (apply Z.pow_pos_nonneg; lia).
  destruct ((2 * n - 3) * 2 ^ (prec - 2)) as [|M|M] eqn:HM; [nia| |nia].
  simpl binary_normalize.
  assert (0 <= Z.log2 (2 * n - 3) < prec) as Hlog3.
  { split; [apply Z.log2_nonneg|]. apply Z.log2_lt_pow2; lia. }
  assert (Z.log2 (Zpos M) = prec - 2 + Z.log2 (2 * n - 3)) as HlogM.
  { rewrite <- HM. apply Z.log2_mul_pow2; lia. }
  assert (fexp prec emax (Z.log2 (Zpos M) + 1 + (1 - prec))
          = Z.log2 (2 * n - 3) - prec) as He.
  { rewrite HlogM. unfold fexp, emin. lia. }
  destruct (binary_round_exact_Q false M (1 - prec)) as (m & Hr & Hv).
  - rewrite He. intros Hle. rewrite <- HM.
    exists ((2 * n - 3) * 2 ^ (prec - 2 - (Z.log2 (2 * n - 3) - prec - (1 - prec)))).
    rewrite <- Z.mul_assoc, <- Z.pow_add_r by lia. f_equal. f_equal. lia.
  - rewrite He. lia.
  - rewrite He in Hr, Hv. exists m, (Z.log2 (2 * n - 3) - prec).
    split; [done|]. rewrite Hv, <- HM, Q_scale by lia.
    replace (prec - 2 + (1 - prec)) with (-1) by lia.
    unfold Qeq. simpl. lia.
Qed.
End Exact.

(** Agreement of the comparison with the Standard Library's. *)

Lemma pow2_Q_pos (e : Z) : (0 < 2 ^ e)%Q.
Proof. by apply Qpower_0_lt. Qed.

Lemma Qcompare_scale (a b : Z) (q : Q) :
  (0 < q)%Q -> (inject_Z a * q ?= inject_Z b * q)%Q = (a ?= b)%Z.
Proof.
  intros Hq. destruct (Z.compare_spec a b) as [->|Hlt|Hgt].
  - apply Qeq_alt. reflexivity.
  - apply Qlt_alt. apply Qmult_lt_r; [done|]. by rewrite <- Zlt_Qlt.
  - apply Qgt_alt. apply Qmult_lt_r; [done|]. by rewrite <- Zlt_Qlt.
Qed.

Section Adequacy.
Variables prec emax : Z.

(** Among canonical mantissas a smaller exponent means a smaller number. *)
Lemma canonical_exponent_lt (m1 m2 : positive) (e1 e2 : Z) :
  canonical_mantissa prec emax m1 e1 = true ->
  canonical_mantissa prec emax m2 e2 = true ->
  e1 < e2 ->
  Zpos m1 < Zpos m2 * 2 ^ (e2 - e1).
Proof.
  unfold canonical_mantissa, fexp. rewrite !digits2_pos_log2.
  intros H1%Z.eqb_eq H2%Z.eqb_eq Hlt.
  pose proof (Z.log2_nonneg (Zpos m1)) as Hl1.
  pose proof (Z.log2_nonneg (Zpos m2)) as Hl2.
  assert (Z.log2 (Zpos m1) < prec) as Hd1 by lia.
  assert (Z.log2 (Zpos m2) = prec - 1) as Hd2 by lia.
  assert (Zpos m1 < 2 ^ prec) as Hm1 by (apply Z.log2_lt_pow2; lia).
  assert (2 ^ (prec - 1) <= Zpos m2) as Hm2.
  { rewrite <- Hd2. apply Z.log2_spec. lia. }
  assert (2 ^ 1 <= 2 ^ (e2 - e1)) as Hk by (apply Z.pow_le_mono_r; lia).
  assert (2 ^ prec = 2 ^ (prec - 1) * 2 ^ 1) as Hp.
  { rewrite <- Z.pow_add_r by lia. f_equal. lia. }
  assert (0 < 2 ^ (prec - 1)) by (apply Z.pow_pos_nonneg; lia).
  nia.
Qed.

Lemma canonical_compare (m1 m2 : positive) (e1 e2 : Z) :
  canonical_mantissa prec emax m1 e1 = true ->
  canonical_mantissa prec emax m2 e2 = true ->
  (inject_Z (Zpos m1) * 2 ^ e1 ?= inject_Z (Zpos m2) * 2 ^ e2)%Q =
  match e1 ?= e2 with
  | Lt => Lt
  | Gt => Gt
  | Eq => Pos.compare_cont Eq m1 m2
  end.
Proof.
  intros H1 H2. destruct (Z.compare_spec e1 e2) as [->|Hlt|Hgt].
  - rewrite Qcompare_scale by apply pow2_Q_pos. done.
  - assert (inject_Z (Zpos m2) * 2 ^ e2
            == inject_Z (Zpos m2 * 2 ^ (e2 - e1)) * 2 ^ e1)%Q as ->.
    { rewrite Q_scale by lia. by replace (e2 - e1 + e1) with e2 by lia. }
    rewrite Qcompare_scale by apply pow2_Q_pos.
    apply Z.compare_lt_iff. by apply canonical_exponent_lt.
  - assert (inject_Z (Zpos m1) * 2 ^ e1
            == inject_Z (Zpos m1 * 2 ^ (e1 - e2)) * 2 ^ e2)%Q as ->.
    { rewrite Q_scale by lia. by replace (e1 - e2 + e2) with e1 by lia. }
    rewrite Qcompare_scale by apply pow2_Q_pos.
    apply Z.compare_gt_iff. apply canonical_exponent_lt; [done|done|lia].
Qed.

Lemma finite_value_pos (m : positive) (e : Z) :
  (0 < inject_Z (Zpos m) * 2 ^ e)%Q.
Proof. apply Qmult_lt_0_compat; [done|apply pow2_Q_pos]. Qed.

Lemma F2Q_finite (m : positive) (e : Z) :
  (F2Q (S754_finite false m e) == inject_Z (Zpos m) * 2 ^ e)%Q.
Proof. simpl. ring. Qed.

Lemma F2Q_finite_neg (m : positive) (e : Z) :
  (F2Q (S754_finite true m e) == - (inject_Z (Zpos m) * 2 ^ e))%Q.
Proof. simpl. ring. Qed.

(** On valid floats the comparison by value is the Standard Library's
    [SFcompare]. *)
Lemma Fcompare_SFcompare (x y : spec_float) :
  valid_binary prec emax x = true -> valid_binary prec emax y = true ->
  Fcompare x y = SFcompare x y.
Proof.
  destruct x as [sx|sx| |sx mx ex], y as [sy|sy| |sy my ey]; try done.
  - intros _ _. pose proof (finite_value_pos my ey) as Hp.
    change (Fcompare (S754_zero sx) (S754_finite sy my ey))
      with (Some (0 ?= F2Q (S754_finite sy my ey))%Q).
    destruct sy; simpl SFcompare; f_equal.
    + rewrite F2Q_finite_neg. apply (proj1 (Qgt_alt _ _)).
      set (v := (inject_Z (Z.pos my) * 2 ^ ey)%Q) in *. clearbody v. clear -Hp. lra.
    + rewrite F2Q_finite. by apply (proj1 (Qlt_alt _ _)).
  - intros _ _. pose proof (finite_value_pos mx ex) as Hp.
    change (Fcompare (S754_finite sx mx ex) (S754_zero sy))
      with (Some (F2Q (S754_finite sx mx ex) ?= 0)%Q).
    destruct sx; simpl SFcompare; f_equal.
    + rewrite F2Q_finite_neg. apply (proj1 (Qlt_alt _ _)).
      set (v := (inject_Z (Z.pos mx) * 2 ^ ex)%Q) in *. clearbody v. lra.
    + rewrite F2Q_finite. by apply (proj1 (Qgt_alt _ _)).
  - unfold valid_binary, bounded. intros [H1 _]%andb_true_iff [H2 _]%andb_true_iff.
    pose proof (finite_value_pos mx ex) as Hpx.
    pose proof (finite_value_pos my ey) as Hpy.
    pose proof (canonical_compare mx my ex ey H1 H2) as Hc.
    change (Fcompare (S754_finite sx mx ex) (S754_finite sy my ey))
      with (Some (F2Q (S754_finite sx mx ex) ?= F2Q (S754_finite sy my ey))%Q).
    set (vx := (inject_Z (Z.pos mx) * 2 ^ ex)%Q) in *.
    set (vy := (inject_Z (Z.pos my) * 2 ^ ey)%Q) in *.
    destruct sx, sy; simpl SFcompare; f_equal;
      rewrite ?F2Q_finite, ?F2Q_finite_neg; fold vx vy; clearbody vx vy.
    + assert (forall c, match ex ?= ey with
                        | Eq => CompOpp c
                        | Lt => Gt
                        | Gt => Lt
                        end
                        = CompOpp (match ex ?= ey with
                                   | Eq => c
                                   | Lt => Lt
                                   | Gt => Gt
                                   end)) as -> by (intros c; by destruct (ex ?= ey)).
      rewrite <- Hc.
      destruct (Qcompare_spec vx vy) as [He|Hl|Hg]; simpl.
      * apply (proj1 (Qeq_alt _ _)). lra.
      * apply (proj1 (Qgt_alt _ _)). lra.
      * apply (proj1 (Qlt_alt _ _)). lra.
    + apply (proj1 (Qlt_alt _ _)). lra.
    + apply (proj1 (Qgt_alt _ _)). lra.
    + exact Hc.
Qed.
End Adequacy.

Lemma Fcompare_antisym (x y : spec_float) :
  Fcompare y x = CompOpp <$> Fcompare x y.
Proof.
  unfold Fcompare.
  destruct x as [sx|sx| |sx mx ex], y as [sy|sy| |sy my ey]; try done;
    try (by destruct sx); try (by destruct sy); try (by destruct sx, sy);
    simpl; by rewrite Qcompare_antisym.
Qed.

Lemma fgt_flt (x y : spec_float) : fgt x y = flt y x.
Proof.
  unfold fgt, flt. rewrite (Fcompare_antisym x y).
  by destruct (Fcompare x y) as [[]|].
Qed.

(** In particular the tests [<], [>] and [<=] of the model are [SFltb]
    and [SFleb] on valid binary32 numbers. *)
Lemma flt_SFltb (x y : float) :
  valid_binary prec32 emax32 x = true -> valid_binary prec32 emax32 y = true ->
  flt x y = SFltb x y /\ fgt x y = SFltb y x /\ fle x y = SFleb x y.
Proof.
  intros Hx Hy. rewrite fgt_flt. unfold flt, fle, SFltb, SFleb.
  rewrite (Fcompare_SFcompare prec32 emax32 x y Hx Hy).
  by rewrite (Fcompare_SFcompare prec32 emax32 y x Hy Hx).
Qed.

(** The literals are the correctly rounded values of the decimals they
    stand for. *)
Example literals_ok :
  f0_5 = fdiv (of_int 1) (of_int 2) /\
  f1_5 = fdiv (of_int 3) (of_int 2) /\
  d0_5 = SFdiv prec64 emax64 (double_of_int 1) (double_of_int 2) /\
  d1_5 = SFdiv prec64 emax64 (double_of_int 3) (double_of_int 2) /\
  d0_01 = SFdiv prec64 emax64 (double_of_int 1) (double_of_int 100) /\
  f0_01 = float_of_double d0_01.
Proof. repeat split; vm_compute; reflexivity. Qed.

Lemma of_int_not_nan (n : Z) : is_nan (of_int n) = false.
Proof. apply binary_normalize_not_nan. Qed.

(** Comparison: for numbers, "not less than" is "at least". *)
Lemma flt_false_fle (x y : spec_float) :
  is_nan x = false -> is_nan y = false -> flt x y = false -> fle y x = true.
Proof.
  unfold flt, fle, Fcompare.
  destruct x as [sx|sx| |sx mx ex], y as [sy|sy| |sy my ey]; try done;
    try (by destruct sx); try (by destruct sy); try (by destruct sx, sy);
    intros _ _; rewrite <- (Qcompare_antisym (F2Q _) (F2Q _));
    by destruct (Qcompare _ _).
Qed.

Lemma to_int_finite (x : float) (n : Z) : to_int x = Some n -> is_finite x = true.
Proof. unfold to_int. by destruct (is_finite x). Qed.

(** ** Grids *)

Lemma dims_get (w h : Z) (g : grid) (x y : Z) :
  dims w h g ->
  is_Some (grid_get g x y) <-> (0 <= x < w /\ 0 <= y < h).
Proof.
  intros [Hw Hh]. unfold grid_get.
  destruct (decide (0 <= x /\ 0 <= y)) as [[Hx Hy]|Hn].
  - destruct (g !! Z.to_nat x) as [col|] eqn:Hcol; simpl.
    + assert (Z.of_nat (length col) = h) as Hlen.
      { eapply (proj1 (Forall_lookup _ _) Hh); eauto. }
      apply lookup_lt_Some in Hcol.
      rewrite lookup_lt_is_Some. lia.
    + apply lookup_ge_None in Hcol.
      split; [intros [? ?]; discriminate | lia].
  - split; [intros [? ?]; discriminate | lia].
Qed.

Lemma grid_set_is_Some (g : grid) (x y : Z) (v : float) :
  is_Some (grid_get g x y) -> is_Some (grid_set g x y v).
Proof.
  unfold grid_get, grid_set. destruct (decide (0 <= x /\ 0 <= y)).
  - destruct (g !! Z.to_nat x) as [col|]; simpl; [|intros [? ?]; discriminate].
    intros [u ->]. simpl. eauto.
  - intros [? ?]; discriminate.
Qed.

Lemma grid_get_set (g g' : grid) (x y : Z) (v : float) (x' y' : Z) :
  grid_set g x y v = Some g' ->
  grid_get g' x' y' =
    if decide (x' = x /\ y' = y) then Some v else grid_get g x' y'.
Proof.
  unfold grid_set, grid_get.
  destruct (decide (0 <= x /\ 0 <= y)) as [[Hx Hy]|]; [|discriminate].
  destruct (g !! Z.to_nat x) as [col|] eqn:Hcol; simpl; [|discriminate].
  destruct (col !! Z.to_nat y) as [u|] eqn:Hu; simpl; [|discriminate].
  intros [= <-].
  pose proof (lookup_lt_Some _ _ _ Hcol) as Hlx.
  pose proof (lookup_lt_Some _ _ _ Hu) as Hly.
  destruct (decide (x' = x /\ y' = y)) as [[-> ->]|Hne].
  - rewrite decide_True by lia.
    rewrite list_lookup_insert_eq by done. simpl.
    by rewrite list_lookup_insert_eq.
  - destruct (decide (0 <= x' /\ 0 <= y')) as [[Hx' Hy']|]; [|done].
    destruct (decide (x' = x)) as [->|Hxx].
    + rewrite list_lookup_insert_eq by done. rewrite Hcol. simpl.
      rewrite list_lookup_insert_ne; [done|]. intros E. apply Hne. lia.
    + rewrite list_lookup_insert_ne; [done|]. lia.
Qed.

Lemma grid_set_dims (w h : Z) (g g' : grid) (x y : Z) (v : float) :
  grid_set g x y v = Some g' -> dims w h g -> dims w h g'.
Proof.
  unfold grid_set.
  destruct (decide (0 <= x /\ 0 <= y)) as [[Hx Hy]|]; [|discriminate].
  destruct (g !! Z.to_nat x) as [col|] eqn:Hcol; simpl; [|discriminate].
  destruct (col !! Z.to_nat y) as [u|] eqn:Hu; simpl; [|discriminate].
  intros [= <-] [Hw Hh]. split.
  - by rewrite length_insert.
  - apply Forall_insert; [done|]. rewrite length_insert.
    eapply (proj1 (Forall_lookup _ _) Hh); eauto.
Qed.

Lemma grid_make_dims (w h : Z) (v : float) :
  0 <= w -> 0 <= h -> dims w h (grid_make w h v).
Proof.
  intros Hw Hh. unfold grid_make. split.
  - rewrite length_replicate. lia.
  - apply Forall_replicate. rewrite length_replicate. lia.
Qed.

Lemma grid_make_get (w h : Z) (v : float) (x y : Z) :
  0 <= x < w -> 0 <= y < h -> grid_get (grid_make w h v) x y = Some v.
Proof.
  intros Hx Hy. unfold grid_get, grid_make.
  rewrite decide_True by lia.
  rewrite lookup_replicate_2 by lia. simpl.
  apply lookup_replicate_2. lia.
Qed.

(** ** Loops *)

Lemma for_range_empty {St : Type} (lo hi : Z) (body : Z -> St -> option St) s :
  hi <= lo -> for_range lo hi body s = Some s.
Proof.
  intros H. unfold for_range. by replace (Z.to_nat (hi - lo)) with O by lia.
Qed.

(** Invariant rule: an invariant indexed by the loop counter that every
    iteration re-establishes holds at the exit, and the loop is defined. *)
Lemma for_range_inv {St : Type} (I : Z -> St -> Prop) (lo hi : Z)
    (body : Z -> St -> option St) (s : St) :
  lo <= hi ->
  I lo s ->
  (forall i s, lo <= i < hi -> I i s -> exists s', body i s = Some s' /\ I (i + 1) s') ->
  exists s', for_range lo hi body s = Some s' /\ I hi s'.
Proof.
  intros Hle H0 Hstep. unfold for_range.
  remember (Z.to_nat (hi - lo)) as n eqn:Hn.
  revert lo s Hle H0 Hstep Hn. induction n as [|n IH]; intros lo s Hle H0 Hstep Hn.
  - assert (hi = lo) as -> by lia. simpl. eauto.
  - simpl. destruct (Hstep lo s) as (s' & Hb & HI); [lia|done|].
    rewrite Hb. simpl. apply IH; [lia|done| |lia].
    intros i s0 Hi. apply Hstep. lia.
Qed.

(** The same rule read backwards: a defined loop satisfies every invariant
    its defined iterations preserve. *)
Lemma for_range_inv_Some {St : Type} (I : Z -> St -> Prop) (lo hi : Z)
    (body : Z -> St -> option St) (s s' : St) :
  lo <= hi ->
  for_range lo hi body s = Some s' ->
  I lo s ->
  (forall i s s', lo <= i < hi -> I i s -> body i s = Some s' -> I (i + 1) s') ->
  I hi s'.
Proof.
  intros Hle. unfold for_range.
  remember (Z.to_nat (hi - lo)) as n eqn:Hn.
  revert lo s Hle Hn. induction n as [|n IH]; intros lo s Hle Hn Hrun H0 Hstep.
  - assert (hi = lo) as -> by lia. simpl in Hrun. by injection Hrun as <-.
  - simpl in Hrun. destruct (body lo s) as [s1|] eqn:Hb; [|discriminate].
    simpl in Hrun. eapply (IH (lo + 1) s1); [lia|lia|done| |].
    + eapply Hstep; [|done|done]. lia.
    + intros i s0 s0' Hi. apply Hstep. lia.
Qed.


(** The invariant rule for a doubly nested scan: the invariant is indexed
    by the position the scan is about to visit. *)
Lemma nested_for_inv {St : Type} (I : Z -> Z -> St -> Prop)
    (xlo xhi ylo yhi : Z) (body : Z -> Z -> St -> option St) (s : St) :
  xlo <= xhi -> (xlo < xhi -> ylo <= yhi) ->
  I xlo ylo s ->
  (forall x y s, xlo <= x < xhi -> ylo <= y < yhi -> I x y s ->
     exists s', body x y s = Some s' /\ I x (y + 1) s') ->
  (forall x s, xlo <= x < xhi -> I x yhi s -> I (x + 1) ylo s) ->
  exists s',
    for_range xlo xhi (fun x => for_range ylo yhi (body x)) s = Some s' /\
    I xhi ylo s'.
Proof.
  intros Hx Hy H0 Hcell Hrow.
  apply (for_range_inv (fun x => I x ylo)); [done|done|].
  intros x s0 Hx0 HI.
  destruct (for_range_inv (I x) ylo yhi (body x) s0) as (s1 & Hrun & H1);
    [apply Hy; lia|done| |].
  { intros y s1 Hy1. by apply Hcell. }
  exists s1. split; [done|]. by apply Hrow.
Qed.

Lemma visited_row_end (w h x i j : Z) :
  visited w h x h i j <-> visited w h (x + 1) 0 i j.
Proof. unfold visited. lia. Qed.

Lemma visited_next (w h x y i j : Z) :
  visited w h x (y + 1) i j ->
  (i = x /\ j = y) \/ (~ (i = x /\ j = y) /\ visited w h x y i j).
Proof. unfold visited. lia. Qed.

Lemma dims_nonneg (w h : Z) (g : grid) :
  dims w h g -> 0 <= w /\ (0 < w -> 0 <= h).
Proof.
  intros [<- Hcols]. split; [lia|]. intros Hw.
  destruct g as [|col g]; [simpl in Hw; lia|].
  inversion Hcols as [|? ? Hcol _]; subst. lia.
Qed.

(** A loop simulated step by step by a pure fold over the same indices. *)
Lemma for_range_fold {A B : Type} (R : A -> B -> Prop) (lo hi : Z)
    (body : Z -> A -> option A) (step : B -> Z -> B) (a : A) (b : B) :
  R a b ->
  (forall i a b, lo <= i < hi -> R a b ->
     exists a', body i a = Some a' /\ R a' (step b i)) ->
  exists a', for_range lo hi body a = Some a' /\
             R a' (fold_left step (seqZ lo (hi - lo)) b).
Proof.
  unfold for_range, seqZ. intros H0 Hstep.
  remember (Z.to_nat (hi - lo)) as n eqn:Hn.
  assert (lo + Z.of_nat n <= Z.max lo hi) as Hle by lia. clear Hn.
  revert lo a b H0 Hstep Hle.
  induction n as [|n IH]; intros lo a b H0 Hstep Hle; simpl.
  - eauto.
  - destruct (Hstep lo a b) as (a' & Hb & HR); [lia|done|].
    rewrite Hb. simpl.
    destruct (IH (lo + 1) a' (step b lo)) as (a'' & Hrun & HR'); [done| |lia|].
    { intros i a0 b0 Hi. apply Hstep. lia. }
    exists a''. split; [done|].
    change (Z.of_nat 0 + lo) with lo.
    change (list_fmap nat Z ?f ?l) with (f <$> l).
    rewrite <- fmap_S_seq, <- list_fmap_compose.
    erewrite list_fmap_ext; [exact HR'|].
    intros k x _. simpl. lia.
Qed.

(** The same simulation for a loop known to be defined. *)
Lemma for_range_fold_Some {A B : Type} (R : A -> B -> Prop) (lo hi : Z)
    (body : Z -> A -> option A) (step : B -> Z -> B) (a a' : A) (b : B) :
  for_range lo hi body a = Some a' ->
  R a b ->
  (forall i a a' b, lo <= i < hi -> R a b -> body i a = Some a' ->
     R a' (step b i)) ->
  R a' (fold_left step (seqZ lo (hi - lo)) b).
Proof.
  unfold for_range, seqZ.
  remember (Z.to_nat (hi - lo)) as n eqn:Hn.
  assert (lo + Z.of_nat n <= Z.max lo hi) as Hle by lia. clear Hn.
  revert lo a b Hle.
  induction n as [|n IH]; intros lo a b Hle Hrun H0 Hstep; simpl in *.
  - by injection Hrun as <-.
  - destruct (body lo a) as [a1|] eqn:Hb; [|done]. simpl in Hrun.
    change (Z.of_nat 0 + lo) with lo.
    change (list_fmap nat Z ?f ?l) with (f <$> l).
    rewrite <- fmap_S_seq, <- list_fmap_compose.
    erewrite list_fmap_ext.
    + apply (IH (lo + 1) a1 (step b lo)); [lia|done| |].
      * eapply Hstep; [|done|done]. lia.
      * intros i a0 a0' b0 Hi. apply Hstep. lia.
    + intros k x _. simpl. lia.
Qed.

(** ** Diffusion *)

Section Diffuse.
Variables (w h : Z) (a : float) (old density : grid).
Hypothesis Hold : dims w h old.
Hypothesis Hdens : dims w h density.

Lemma dims_get_Some (g : grid) (x y : Z) :
  dims w h g -> 0 <= x < w -> 0 <= y < h -> exists v, grid_get g x y = Some v.
Proof. intros Hg Hx Hy. by apply (dims_get w h g x y Hg). Qed.

Lemma diffuseCell_inv (x y : Z) (g : grid) :
  interior w h x y ->
  sweep_inv w h a old density x y g ->
  exists g', CompoundCloudSystem.diffuseCell a density x y g = Some g' /\
             sweep_inv w h a old density x (y + 1) g'.
Proof.
  intros [Hx Hy] [Hg Hinv]. unfold CompoundCloudSystem.diffuseCell.
  destruct (dims_get_Some density x y) as [d Hd]; [done|lia|lia|].
  destruct (dims_get_Some g (x - 1) y) as [l Hl]; [done|lia|lia|].
  destruct (dims_get_Some g (x + 1) y) as [r Hr]; [done|lia|lia|].
  destruct (dims_get_Some g x (y - 1)) as [b Hb]; [done|lia|lia|].
  destruct (dims_get_Some g x (y + 1)) as [u Hu]; [done|lia|lia|].
  destruct (dims_get_Some g x y) as [c Hc]; [done|lia|lia|].
  rewrite Hd, Hl, Hr, Hb, Hu. simpl.
  destruct (grid_set_is_Some g x y
    (fdiv (fadd d (fmul a (fadd (fadd (fadd l r) b) u)))
          (fadd (of_int 1) (fmul (of_int 4) a)))) as [g' Hset]; [by eexists|].
  exists g'. split; [done|]. split; [by eapply grid_set_dims|].
  pose proof (fun i j => grid_get_set g g' x y _ i j Hset) as Hget.
  intros i j. split.
  - intros [Hint Hord].
    destruct (decide (i = x /\ j = y)) as [[-> ->]|Hne].
    + exists d, l, r, b, u. repeat split; [done| | | | |].
      * rewrite Hget, decide_False by lia. done.
      * rewrite <- Hr. symmetry. apply Hinv. unfold swept. lia.
      * rewrite Hget, decide_False by lia. done.
      * rewrite <- Hu. symmetry. apply Hinv. unfold swept. lia.
      * rewrite Hget, decide_True by lia. done.
    + destruct (proj1 (Hinv i j)) as (d' & l' & r' & b' & u' & ? & ? & ? & ? & ? & ?).
      { split; [done|]. lia. }
      exists d', l', r', b', u'. repeat split; [done| |done| |done|].
      * rewrite Hget, decide_False by lia. done.
      * rewrite Hget, decide_False by lia. done.
      * rewrite Hget, decide_False by lia. done.
  - intros Hns. rewrite Hget, decide_False.
    + apply Hinv. intros [Hint Hord]. apply Hns. split; [done|lia].
    + intros [-> ->]. apply Hns. split; [split; lia|lia].
Qed.

Lemma diffuse_row_inv (x : Z) (g : grid) :
  1 <= x <= w - 2 ->
  sweep_inv w h a old density x 1 g ->
  exists g',
    for_range 1 (h - 1) (fun y => CompoundCloudSystem.diffuseCell a density x y) g
      = Some g' /\
    sweep_inv w h a old density (x + 1) 1 g'.
Proof.
  intros Hx Hinv.
  destruct (decide (1 <= h - 1)) as [Hh|Hh].
  - destruct (for_range_inv (sweep_inv w h a old density x) 1 (h - 1)
      (fun y => CompoundCloudSystem.diffuseCell a density x y) g Hh Hinv)
      as (g' & Hrun & Hg' & Hcells).
    { intros y s Hy. apply diffuseCell_inv. split; lia. }
    exists g'. split; [done|]. split; [done|].
    intros i j. split.
    + intros [[Hi Hj] Hord]. apply Hcells. split; [done|]. lia.
    + intros Hns. apply Hcells. intros [[Hi Hj] Hord]. apply Hns.
      split; [done|]. lia.
  - rewrite for_range_empty by lia. exists g. split; [done|].
    destruct Hinv as [Hg Hcells]. split; [done|].
    intros i j. split.
    + intros [[Hi Hj] Hord]. lia.
    + intros Hns. apply Hcells. intros [[Hi Hj] Hord]. lia.
Qed.

Lemma diffuse_sweep_inv :
  exists g',
    for_range 1 (w - 1) (fun x =>
      for_range 1 (h - 1) (fun y => CompoundCloudSystem.diffuseCell a density x y))
      old = Some g' /\
    dims w h g' /\
    (forall i j, interior w h i j -> relaxed a old density g' i j) /\
    (forall i j, ~ interior w h i j -> grid_get g' i j = grid_get old i j).
Proof.
  assert (sweep_inv w h a old density 1 1 old) as H0.
  { split; [done|]. intros i j. split; [|done].
    intros [[Hi Hj] Hord]. lia. }
  destruct (decide (1 <= w - 1)) as [Hw|Hw].
  - destruct (for_range_inv (fun x => sweep_inv w h a old density x 1) 1 (w - 1)
      (fun x => for_range 1 (h - 1)
         (fun y => CompoundCloudSystem.diffuseCell a density x y)) old Hw H0)
      as (g' & Hrun & Hg' & Hcells).
    { intros x s Hx. apply diffuse_row_inv. lia. }
    exists g'. split; [done|]. split; [done|]. split.
    + intros i j [Hi Hj]. apply Hcells. split; [done|]. lia.
    + intros i j Hn. apply Hcells. intros [Hint _]. done.
  - rewrite for_range_empty by lia. exists old. split; [done|].
    split; [done|]. split; [|done].
    intros i j [Hi Hj]. lia.
Qed.

End Diffuse.

(** C3: the diffusion step is one in-place sweep over the interior cells.
    For every [w] by [h] scratch buffer [old] and density grid, [diffuse]
    returns a buffer [g'] in which every interior cell [(x, y)]
    ([1 <= x <= w-2], [1 <= y <= h-2]) holds
    [(density[x][y] + a*(g'[x-1][y] + old[x+1][y] + g'[x][y-1] + old[x][y+1]))
     / (1 + 4*a)] with [a = 1*rate]: the left and lower neighbours are the
    values already written by this sweep, the right and upper neighbours are
    the values from before it.  Every other cell, in particular the border
    [x = 0], [x = w-1], [y = 0], [y = h-1], is left as it was. *)
Theorem diffuse_single_sweep (s : system) (rate : float)
    (old density : grid) (dt : Z) :
  let w := CompoundCloudSystem.width s in
  let h := CompoundCloudSystem.height s in
  let a := fmul (of_int 1) rate in
  dims w h old -> dims w h density ->
  exists g',
    CompoundCloudSystem.diffuse s rate old density dt = Some g' /\
    dims w h g' /\
    (forall x y, 1 <= x <= w - 2 -> 1 <= y <= h - 2 ->
       exists d l r b u,
         grid_get density x y = Some d /\
         grid_get g' (x - 1) y = Some l /\
         grid_get old (x + 1) y = Some r /\
         grid_get g' x (y - 1) = Some b /\
         grid_get old x (y + 1) = Some u /\
         grid_get g' x y =
           Some (fdiv (fadd d (fmul a (fadd (fadd (fadd l r) b) u)))
                      (fadd (of_int 1) (fmul (of_int 4) a)))) /\
    (forall x y, x = 0 \/ x = w - 1 \/ y = 0 \/ y = h - 1 ->
       grid_get g' x y = grid_get old x y).
Proof.
  intros w h a Hold Hdens.
  destruct (diffuse_sweep_inv w h a old density Hold Hdens)
    as (g' & Hrun & Hg' & Hint & Hout).
  exists g'. split; [exact Hrun|]. split; [done|]. split.
  - intros x y Hx Hy. apply (Hint x y). by split.
  - intros x y Hb. apply Hout. unfold interior. lia.
Qed.

Lemma diffuse_single_sweep_witness :
  exists g',
    CompoundCloudSystem.diffuse system6 f0_01 zero6 impulse6 1 = Some g' /\
    dims 6 6 g' /\
    (forall x y, 1 <= x <= 6 - 2 -> 1 <= y <= 6 - 2 ->
       exists d l r b u,
         grid_get impulse6 x y = Some d /\
         grid_get g' (x - 1) y = Some l /\
         grid_get zero6 (x + 1) y = Some r /\
         grid_get g' x (y - 1) = Some b /\
         grid_get zero6 x (y + 1) = Some u /\
         grid_get g' x y =
           Some (fdiv (fadd d (fmul (fmul (of_int 1) f0_01)
                                 (fadd (fadd (fadd l r) b) u)))
                      (fadd (of_int 1) (fmul (of_int 4) (fmul (of_int 1) f0_01))))) /\
    (forall x y, x = 0 \/ x = 6 - 1 \/ y = 0 \/ y = 6 - 1 ->
       grid_get g' x y = grid_get zero6 x y).
Proof.
  apply (diffuse_single_sweep system6 f0_01 zero6 impulse6 1).
  - apply grid_make_dims; lia.
  - split; [reflexivity|]. repeat constructor.
Defined.

(** ** The 6 by 6 scenario *)

(** C2, as stated, fails: in the 6 by 6 scenario the sweep does not leave
    all four neighbours of the impulse at zero. *)
Lemma diffuse_6x6_neighbours_not_all_zero :
  ~ (exists g',
       CompoundCloudSystem.diffuse system6 f0_01 zero6 impulse6 1 = Some g' /\
       grid_get g' 3 3 =
         Some (fdiv (of_int 100)
                 (fadd (of_int 1) (fmul (of_int 4) (fmul (of_int 1) f0_01)))) /\
       grid_get g' 2 3 = Some (of_int 0) /\
       grid_get g' 4 3 = Some (of_int 0) /\
       grid_get g' 3 2 = Some (of_int 0) /\
       grid_get g' 3 4 = Some (of_int 0)).
Proof.
  intros (g' & Hrun & _ & _ & H43 & _ & _).
  vm_compute in Hrun. injection Hrun as <-.
  vm_compute in H43. discriminate.
Qed.

(** C2, amended: one diffusion step on the 6 by 6 impulse gives
    [oldDens[3][3] = 100/(1+4a)] with [a = 1*0.01f], about 96.15; the
    neighbours visited before (3,3), namely (2,3) and (3,2), stay exactly 0;
    the neighbours visited after it, (4,3) and (3,4), read the updated centre
    and hold [a*oldDens[3][3]/(1+4a)], about 0.92. *)
Theorem diffuse_6x6 :
  let a := fmul (of_int 1) f0_01 in
  let centre := fdiv (of_int 100) (fadd (of_int 1) (fmul (of_int 4) a)) in
  let side := fdiv (fmul a centre) (fadd (of_int 1) (fmul (of_int 4) a)) in
  exists g',
    CompoundCloudSystem.diffuse system6 f0_01 zero6 impulse6 1 = Some g' /\
    grid_get g' 3 3 = Some centre /\
    (9615 # 100 < F2Q centre < 9616 # 100)%Q /\
    grid_get g' 2 3 = Some (of_int 0) /\
    grid_get g' 3 2 = Some (of_int 0) /\
    grid_get g' 4 3 = Some side /\
    grid_get g' 3 4 = Some side /\
    (92 # 100 < F2Q side < 93 # 100)%Q.
Proof.
  intros a centre side. eexists. split; [vm_compute; reflexivity|].
  repeat split; vm_compute; reflexivity.
Qed.

(** ** takeCompound and amountAvailable *)

Lemma takeCompound_in_bounds (c : cloud) (x y : Z) (rate d : float) (n amount : Z) :
  x >= 0 /\ x < CompoundCloudComponent.width c /\
  y >= 0 /\ y < CompoundCloudComponent.height c ->
  grid_get (CompoundCloudComponent.density c) x y = Some d ->
  to_int d = Some n ->
  to_int (fmul (of_int n) rate) = Some amount ->
  exists dens',
    CompoundCloudComponent.takeCompound c x y rate
      = Some (amount, CompoundCloudComponent.set_density c dens') /\
    (forall x' y', ~ (x' = x /\ y' = y) ->
       grid_get dens' x' y' = grid_get (CompoundCloudComponent.density c) x' y') /\
    exists d', grid_get dens' x y = Some d' /\
               (d' = of_int 0 \/ fle (of_int 1) d' = true).
Proof.
  intros Hin Hd Hn Ha. unfold CompoundCloudComponent.takeCompound.
  rewrite decide_True by done. rewrite Hd. simpl. rewrite Hn. simpl.
  rewrite Ha. simpl.
  destruct (grid_set_is_Some (CompoundCloudComponent.density c) x y
              (fsub d (of_int amount))) as [dens1 H1]; [by eexists|].
  rewrite H1. simpl.
  pose proof (fun i j => grid_get_set _ _ x y _ i j H1) as Hget1.
  rewrite (Hget1 x y), decide_True by done. simpl.
  destruct (flt (fsub d (of_int amount)) (of_int 1)) eqn:Hlt.
  - destruct (grid_set_is_Some dens1 x y (of_int 0)) as [dens2 H2].
    { rewrite (Hget1 x y), decide_True by done. by eexists. }
    rewrite H2. simpl.
    pose proof (fun i j => grid_get_set _ _ x y _ i j H2) as Hget2.
    exists dens2. split; [done|]. split.
    + intros x' y' Hne. by rewrite Hget2, decide_False, Hget1, decide_False.
    + exists (of_int 0). rewrite Hget2, decide_True by done. auto.
  - simpl. exists dens1. split; [done|]. split.
    + intros x' y' Hne. by rewrite Hget1, decide_False.
    + exists (fsub d (of_int amount)).
      rewrite Hget1, decide_True by done. split; [done|]. right.
      apply flt_false_fle; [|done|done].
      apply SFsub_not_nan; [by eapply to_int_finite|apply of_int_not_nan].
Qed.

(** C10: outside [[0, width) x [0, height)] [takeCompound] returns -1 and
    changes nothing.  Inside, whenever the two conversions to [int] are
    defined, it returns [trunc(trunc(density[x][y]) * rate)], and afterwards
    [density[x][y]] is either 0 or at least 1 (so neither negative nor
    strictly between 0 and 1); no other cell changes.  The conclusion does
    not need the cell to be non-negative beforehand. *)
Theorem takeCompound_spec (c : cloud) (x y : Z) (rate : float) :
  (~ (0 <= x < CompoundCloudComponent.width c /\
      0 <= y < CompoundCloudComponent.height c) ->
   CompoundCloudComponent.takeCompound c x y rate = Some (-1, c)) /\
  (0 <= x < CompoundCloudComponent.width c /\
   0 <= y < CompoundCloudComponent.height c ->
   forall d n amount,
     grid_get (CompoundCloudComponent.density c) x y = Some d ->
     to_int d = Some n ->
     to_int (fmul (of_int n) rate) = Some amount ->
     exists c',
       CompoundCloudComponent.takeCompound c x y rate = Some (amount, c') /\
       (forall x' y', ~ (x' = x /\ y' = y) ->
          grid_get (CompoundCloudComponent.density c') x' y'
            = grid_get (CompoundCloudComponent.density c) x' y') /\
       exists d',
         grid_get (CompoundCloudComponent.density c') x y = Some d' /\
         (d' = of_int 0 \/ fle (of_int 1) d' = true)).
Proof.
  split.
  - intros Hout. unfold CompoundCloudComponent.takeCompound.
    rewrite decide_False; [done|lia].
  - intros Hin d n amount Hd Hn Ha.
    destruct (takeCompound_in_bounds c x y rate d n amount)
      as (dens' & Hrun & Hother & Hcell); [lia|done|done|done|].
    exists (CompoundCloudComponent.set_density c dens'). by split.
Qed.

Lemma takeCompound_spec_witness :
  CompoundCloudComponent.takeCompound cloud1 5 0 f0_5 = Some (-1, cloud1) /\
  exists c',
    CompoundCloudComponent.takeCompound cloud1 0 0 f0_5 = Some (5, c') /\
    (forall x' y', ~ (x' = 0 /\ y' = 0) ->
       grid_get (CompoundCloudComponent.density c') x' y'
         = grid_get (CompoundCloudComponent.density cloud1) x' y') /\
    exists d',
      grid_get (CompoundCloudComponent.density c') 0 0 = Some d' /\
      (d' = of_int 0 \/ fle (of_int 1) d' = true).
Proof.
  split.
  - apply (proj1 (takeCompound_spec cloud1 5 0 f0_5)). simpl. lia.
  - apply (proj2 (takeCompound_spec cloud1 0 0 f0_5)) with (of_int 10) 10.
    + simpl. lia.
    + reflexivity.
    + vm_compute. reflexivity.
    + vm_compute. reflexivity.
Defined.

(** The member function [CompoundCloudComponent::amountAvailable] itself,
    which no script declaration is bound to, does not write: on the one-cell
    cloud holding 10, [takeCompound(0, 0, 0.5)] leaves 5 in the cell while
    the member body [amountAvailable(0, 0, 0.5)] leaves the 10 untouched. *)
Lemma amountAvailable_no_side_effect :
  snd <$> CompoundCloudComponent.amountAvailable cloud1 0 0 f0_5
    <> snd <$> CompoundCloudComponent.takeCompound cloud1 0 0 f0_5.
Proof. vm_compute. discriminate. Qed.

(** The member body of [amountAvailable], for every [(x, y)] and [rate]:
    it returns the same value as [takeCompound] would on the same grid (and
    is undefined exactly when [takeCompound] is), and it leaves the
    component, and so [density[x][y]], unchanged. *)
Lemma amountAvailable_same_value (c : cloud) (x y : Z) (rate : float) :
  fst <$> CompoundCloudComponent.amountAvailable c x y rate
    = fst <$> CompoundCloudComponent.takeCompound c x y rate /\
  snd <$> CompoundCloudComponent.amountAvailable c x y rate
    = (fun _ => c) <$> CompoundCloudComponent.takeCompound c x y rate.
Proof.
  unfold CompoundCloudComponent.amountAvailable.
  destruct (decide (x >= 0 /\ x < CompoundCloudComponent.width c /\
                    y >= 0 /\ y < CompoundCloudComponent.height c)) as [Hin|Hout].
  - destruct (grid_get (CompoundCloudComponent.density c) x y) as [d|] eqn:Hd.
    + simpl. destruct (to_int d) as [n|] eqn:Hn.
      * simpl. destruct (to_int (fmul (of_int n) rate)) as [amount|] eqn:Ha.
        -- destruct (takeCompound_in_bounds c x y rate d n amount Hin Hd Hn Ha)
             as (dens' & -> & _). done.
        -- unfold CompoundCloudComponent.takeCompound.
           rewrite decide_True by done. rewrite Hd. simpl. rewrite Hn. simpl.
           rewrite Ha. done.
      * unfold CompoundCloudComponent.takeCompound.
        rewrite decide_True by done. rewrite Hd. simpl. rewrite Hn. done.
    + unfold CompoundCloudComponent.takeCompound.
      rewrite decide_True by done. rewrite Hd. done.
  - unfold CompoundCloudComponent.takeCompound.
    rewrite decide_False by done. done.
Qed.

(** C9: the [amountAvailable] external accessor.  The script engine is
    handed [CompoundCloudComponent::takeCompound] under the declaration
    [int amountAvailable(int x, int y, float rate)] (ThriveGame.cpp, the
    third [RegisterObjectMethod] call for "CompoundCloudComponent").  So for
    every component, [(x, y)] and [rate], a call of the accessor
    [amountAvailable] is the same call as [takeCompound]: it returns the
    same value, leaves the same component behind (the same mutation of
    [density[x][y]]) and is undefined in the same cases.  In bounds, with
    defined conversions, it returns the amount and leaves
    [density[x][y] - amount] in the cell, or 0 where that is below 1; no
    other cell is changed. *)
Theorem amountAvailable_accessor (c : cloud) (x y : Z) (rate : float) :
  ThriveGame.call "int amountAvailable(int x, int y, float rate)" c x y rate
    = CompoundCloudComponent.takeCompound c x y rate /\
  ThriveGame.call "int amountAvailable(int x, int y, float rate)" c x y rate
    = ThriveGame.call "int takeCompound(int x, int y, float rate)" c x y rate /\
  (x >= 0 /\ x < CompoundCloudComponent.width c /\
   y >= 0 /\ y < CompoundCloudComponent.height c ->
   forall d n amount,
     grid_get (CompoundCloudComponent.density c) x y = Some d ->
     to_int d = Some n ->
     to_int (fmul (of_int n) rate) = Some amount ->
     exists dens',
       ThriveGame.call "int amountAvailable(int x, int y, float rate)" c x y rate
         = Some (amount, CompoundCloudComponent.set_density c dens') /\
       (forall x' y', ~ (x' = x /\ y' = y) ->
          grid_get dens' x' y' = grid_get (CompoundCloudComponent.density c) x' y') /\
       grid_get dens' x y
         = Some (if flt (fsub d (of_int amount)) (of_int 1) then of_int 0
                 else fsub d (of_int amount))).
Proof.
  split; [reflexivity|]. split; [reflexivity|].
  intros Hin d n amount Hd Hn Ha.
  change (ThriveGame.call "int amountAvailable(int x, int y, float rate)" c x y rate)
    with (CompoundCloudComponent.takeCompound c x y rate).
  unfold CompoundCloudComponent.takeCompound.
  rewrite decide_True by done. rewrite Hd. simpl. rewrite Hn. simpl.
  rewrite Ha. simpl.
  destruct (grid_set_is_Some (CompoundCloudComponent.density c) x y
              (fsub d (of_int amount))) as [dens1 H1]; [by eexists|].
  rewrite H1. simpl.
  pose proof (fun i j => grid_get_set _ _ x y _ i j H1) as Hget1.
  rewrite (Hget1 x y), decide_True by done. simpl.
  destruct (flt (fsub d (of_int amount)) (of_int 1)) eqn:Hlt.
  - destruct (grid_set_is_Some dens1 x y (of_int 0)) as [dens2 H2].
    { rewrite (Hget1 x y), decide_True by done. by eexists. }
    rewrite H2. simpl.
    pose proof (fun i j => grid_get_set _ _ x y _ i j H2) as Hget2.
    exists dens2. split; [done|]. split.
    + intros x' y' Hne. by rewrite Hget2, decide_False, Hget1, decide_False.
    + by rewrite Hget2, decide_True.
  - simpl. exists dens1. split; [done|]. split.
    + intros x' y' Hne. by rewrite Hget1, decide_False.
    + by rewrite Hget1, decide_True.
Qed.


(** ** Velocity field *)

Lemma velocityCell_inv (noise : float -> float -> float -> float)
    (s : system) (x y : Z) (v : grid * grid) :
  0 <= x < CompoundCloudSystem.width s ->
  0 <= y < CompoundCloudSystem.height s ->
  velocity_inv noise s x y v ->
  exists v', CompoundCloudSystem.velocityCell noise s x y v = Some v' /\
             velocity_inv noise s x (y + 1) v'.
Proof.
  intros Hx Hy (Hxv & Hyv & Hcells).
  unfold CompoundCloudSystem.velocityCell.
  destruct (grid_set_is_Some (fst v) x y (curl_x noise s x y)) as [xv' Hsx].
  { by apply (dims_get _ _ _ _ _ Hxv). }
  destruct (grid_set_is_Some (snd v) x y (curl_y noise s x y)) as [yv' Hsy].
  { by apply (dims_get _ _ _ _ _ Hyv). }
  unfold curl_x, curl_y, noiseAt, noiseX, noiseY in Hsx, Hsy.
  rewrite Hsx. simpl. rewrite Hsy. simpl.
  exists (xv', yv'). split; [done|].
  split; [by eapply grid_set_dims|]. split; [by eapply grid_set_dims|].
  intros i j Hv. simpl.
  rewrite (grid_get_set _ _ _ _ _ i j Hsx), (grid_get_set _ _ _ _ _ i j Hsy).
  destruct (visited_next _ _ _ _ _ _ Hv) as [[-> ->]|[Hne Hv']].
  - by rewrite !decide_True.
  - rewrite !decide_False by done. by apply Hcells.
Qed.

Lemma velocity_scan (noise : float -> float -> float -> float)
    (s : system) (v : grid * grid) :
  dims (CompoundCloudSystem.width s) (CompoundCloudSystem.height s) (fst v) ->
  dims (CompoundCloudSystem.width s) (CompoundCloudSystem.height s) (snd v) ->
  exists v',
    for_range 0 (CompoundCloudSystem.width s) (fun x =>
      for_range 0 (CompoundCloudSystem.height s) (fun y =>
        CompoundCloudSystem.velocityCell noise s x y)) v
      = Some v' /\
    velocity_inv noise s (CompoundCloudSystem.width s) 0 v'.
Proof.
  intros Hxv Hyv.
  destruct (dims_nonneg _ _ _ Hxv) as [Hw Hh].
  apply (nested_for_inv (velocity_inv noise s)); [done|done| | |].
  - split; [done|]. split; [done|]. unfold visited. lia.
  - intros x y v0 Hx Hy. by apply velocityCell_inv.
  - intros x v0 Hx (? & ? & Hcells). split; [done|]. split; [done|].
    intros i j Hv. apply Hcells. by apply visited_row_end.
Qed.

(** C1, amended: for every cell [(x, y)] the generator samples the noise
    potential at three points, [(x-1, y-1)], [(x+1, y-1)] and [(x-1, y+1)],
    and stores the curl of the potential:
    [xVelocity[x][y] = (noise(x-1,y+1) - noise(x-1,y-1)) / 2], a difference
    along y, and
    [yVelocity[x][y] = (noise(x-1,y-1) - noise(x+1,y-1)) / 2], a reversed
    difference along x. *)
Theorem CreateVelocityField_curl (noise : float -> float -> float -> float)
    (s : system) :
  let w := CompoundCloudSystem.width s in
  let h := CompoundCloudSystem.height s in
  dims w h (CompoundCloudSystem.xVelocity s) ->
  dims w h (CompoundCloudSystem.yVelocity s) ->
  exists s',
    CompoundCloudSystem.CreateVelocityField noise s = Some s' /\
    forall x y, 0 <= x < w -> 0 <= y < h ->
      grid_get (CompoundCloudSystem.xVelocity s') x y =
        Some (fdiv (fsub (noiseAt noise s (x - 1) (y + 1))
                         (noiseAt noise s (x - 1) (y - 1))) (of_int 2)) /\
      grid_get (CompoundCloudSystem.yVelocity s') x y =
        Some (fdiv (fsub (noiseAt noise s (x - 1) (y - 1))
                         (noiseAt noise s (x + 1) (y - 1))) (of_int 2)).
Proof.
  intros w h Hxv Hyv.
  destruct (velocity_scan noise s (CompoundCloudSystem.xVelocity s,
                                   CompoundCloudSystem.yVelocity s) Hxv Hyv)
    as (v' & Hrun & _ & _ & Hcells).
  unfold CompoundCloudSystem.CreateVelocityField. rewrite Hrun. simpl.
  eexists. split; [done|]. intros x y Hx Hy. simpl.
  apply Hcells. unfold visited. lia.
Qed.

Lemma CreateVelocityField_curl_witness :
  exists s',
    CompoundCloudSystem.CreateVelocityField noise_x system6 = Some s' /\
    forall x y, 0 <= x < 6 -> 0 <= y < 6 ->
      grid_get (CompoundCloudSystem.xVelocity s') x y =
        Some (fdiv (fsub (noiseAt noise_x system6 (x - 1) (y + 1))
                         (noiseAt noise_x system6 (x - 1) (y - 1))) (of_int 2)) /\
      grid_get (CompoundCloudSystem.yVelocity s') x y =
        Some (fdiv (fsub (noiseAt noise_x system6 (x - 1) (y - 1))
                         (noiseAt noise_x system6 (x + 1) (y - 1))) (of_int 2)).
Proof.
  apply (CreateVelocityField_curl noise_x system6);
    apply grid_make_dims; lia.
Defined.

(** C1, as stated, fails: with a potential that grows along x only, the
    x component stored at cell (1,1) of the 6 by 6 field is not the
    difference [(noise(2,1) - noise(0,1)) / 2] along x. *)
Lemma xVelocity_not_x_difference :
  ~ (exists s',
       CompoundCloudSystem.CreateVelocityField noise_x system6 = Some s' /\
       grid_get (CompoundCloudSystem.xVelocity s') 1 1 =
         Some (spec_xVelocity noise_x system6 1 1)).
Proof.
  intros (s' & Hrun & Hcell).
  vm_compute in Hrun. injection Hrun as <-.
  vm_compute in Hcell. discriminate.
Qed.

(** ** The clamp of the advection step *)

Lemma Fcompare_finite (a b : spec_float) :
  is_finite a = true -> is_finite b = true ->
  Fcompare a b = Some (F2Q a ?= F2Q b)%Q.
Proof. by destruct a, b. Qed.

Lemma flt_finite_false (a b : spec_float) :
  is_finite a = true -> is_finite b = true ->
  flt a b = false -> (F2Q b <= F2Q a)%Q.
Proof.
  intros Ha Hb. unfold flt. rewrite Fcompare_finite by done.
  intros H. apply Qge_alt. by destruct (F2Q a ?= F2Q b)%Q.
Qed.

Lemma fgt_finite_false (a b : spec_float) :
  is_finite a = true -> is_finite b = true ->
  fgt a b = false -> (F2Q a <= F2Q b)%Q.
Proof.
  intros Ha Hb. unfold fgt. rewrite Fcompare_finite by done.
  intros H. apply Qle_alt. by destruct (F2Q a ?= F2Q b)%Q.
Qed.

(** The [double] bound [n - 1.5] and the [float] bound [n - 1.5f] both
    have the exact value [(2n - 3)/2] for [2 <= n <= 2^23]. *)
Lemma clamp_bound_double (n : Z) :
  2 <= n <= 2 ^ 23 ->
  is_finite (dsub (double_of_int n) d1_5) = true /\
  (F2Q (dsub (double_of_int n) d1_5) == (2 * n - 3) # 2)%Q.
Proof.
  intros Hn.
  destruct (sub_one_and_half_exact prec64 emax64 ltac:(done) ltac:(done)
              n 6755399441055744 eq_refl) as (m & e & Hr & Hv);
    [lia|unfold prec64; lia|].
  unfold dsub, double_of_int, d1_5.
  change (-52) with (1 - prec64). rewrite Hr. split; [done|].
  by rewrite F2Q_finite.
Qed.

Lemma clamp_bound_float (n : Z) :
  2 <= n <= 2 ^ 23 ->
  is_finite (fsub (of_int n) f1_5) = true /\
  (F2Q (fsub (of_int n) f1_5) == (2 * n - 3) # 2)%Q.
Proof.
  intros Hn.
  destruct (sub_one_and_half_exact prec32 emax32 ltac:(done) ltac:(done)
              n 12582912 eq_refl) as (m & e & Hr & Hv);
    [lia|unfold prec32; lia|].
  unfold fsub, of_int, f1_5.
  change (-23) with (1 - prec32). rewrite Hr. split; [done|].
  by rewrite F2Q_finite.
Qed.

(** After the clamp, any number lies in [[0.5, n - 1.5]]. *)
Lemma clamp_range (n : Z) (d : float) :
  2 <= n <= 2 ^ 23 ->
  is_nan d = false ->
  is_finite (CompoundCloudSystem.clamp n d) = true /\
  (1 # 2 <= F2Q (CompoundCloudSystem.clamp n d))%Q /\
  (F2Q (CompoundCloudSystem.clamp n d) <= (2 * n - 3) # 2)%Q.
Proof.
  intros Hn Hnan. unfold CompoundCloudSystem.clamp.
  destruct (clamp_bound_double n Hn) as [HDf HDv].
  destruct (clamp_bound_float n Hn) as [HFf HFv].
  assert (1 # 2 <= (2 * n - 3) # 2)%Q as Hlohi.
  { unfold Qle. simpl. lia. }
  assert (F2Q f0_5 == 1 # 2)%Q as Hhalf by reflexivity.
  assert (F2Q d0_5 == 1 # 2)%Q as Hhalf' by reflexivity.
  set (hiD := dsub (double_of_int n) d1_5) in *.
  set (hiF := fsub (of_int n) f1_5) in *.
  set (d1 := if flt d d0_5 then f0_5 else d).
  assert (d1 = S754_infinity false \/
          (is_finite d1 = true /\ (1 # 2 <= F2Q d1)%Q)) as Hd1.
  { unfold d1. destruct (flt d d0_5) eqn:Hlt.
    - right. split; [done|]. by rewrite Hhalf.
    - destruct d as [sz|[]| |sd md ed]; try done.
      + by left.
      + right. split; [done|]. rewrite <- Hhalf'.
        by apply flt_finite_false. }
  destruct Hd1 as [->|[Hfin Hlo]].
  - (* +infinity exceeds the bound *)
    assert (fgt (S754_infinity false) hiD = true) as ->.
    { unfold fgt, Fcompare. by destruct hiD. }
    rewrite HFv. split; [done|]. split; [done|]. apply Qle_refl.
  - destruct (fgt d1 hiD) eqn:Hgt.
    + rewrite HFv. split; [done|]. split; [done|]. apply Qle_refl.
    + split; [done|]. split; [done|].
      rewrite <- HDv. by apply fgt_finite_false.
Qed.

(** A float in [[0.5, n - 1.5]] truncates to an index in [[0, n - 2]]. *)
Lemma to_int_in_range (n : Z) (x : float) :
  n <= 2 ^ 31 ->
  is_finite x = true ->
  (1 # 2 <= F2Q x)%Q -> (F2Q x <= (2 * n - 3) # 2)%Q ->
  exists k, to_int x = Some k /\ 0 <= k <= n - 2.
Proof.
  intros Hn Hfin Hlo Hhi. unfold to_int, Qtrunc. rewrite Hfin.
  assert (Qle_bool 0 (F2Q x) = true) as ->.
  { apply Qle_bool_iff. eapply Qle_trans; [|exact Hlo]. done. }
  pose proof (Qfloor_resp_le _ _ Hlo) as H1.
  pose proof (Qfloor_resp_le _ _ Hhi) as H2.
  change (Qfloor (1 # 2)) with 0 in H1.
  assert (Qfloor ((2 * n - 3) # 2) = n - 2) as Hf.
  { unfold Qfloor. symmetry. apply Z.div_unique with 1; lia. }
  rewrite Hf in H2.
  exists (Qfloor (F2Q x)).
  assert ((INT_MIN <=? Qfloor (F2Q x)) && (Qfloor (F2Q x) <=? INT_MAX) = true) as ->.
  { apply andb_true_iff. unfold INT_MIN, INT_MAX. split; apply Z.leb_le; lia. }
  split; [done|lia].
Qed.

(** Clamp and cast together: the index [x0] (or [y0]). *)
Lemma clamp_to_int (n : Z) (d : float) :
  2 <= n <= 2 ^ 23 ->
  is_nan d = false ->
  exists k, to_int (CompoundCloudSystem.clamp n d) = Some k /\ 0 <= k <= n - 2.
Proof.
  intros Hn Hnan. destruct (clamp_range n d Hn Hnan) as (Hfin & Hlo & Hhi).
  apply to_int_in_range; [lia|done|done|done].
Qed.

(** ** Advection *)

Lemma grid_add_spec (w h : Z) (g : grid) (a b : Z) (v : float) :
  dims w h g -> 0 <= a < w -> 0 <= b < h ->
  exists g',
    CompoundCloudSystem.grid_add g a b v = Some g' /\
    dims w h g' /\
    forall i j,
      grid_get g' i j =
        if decide (i = a /\ j = b) then (fun c => fadd c v) <$> grid_get g i j
        else grid_get g i j.
Proof.
  intros Hg Ha Hb. unfold CompoundCloudSystem.grid_add.
  destruct (dims_get_Some w h g a b Hg Ha Hb) as [c Hc]. rewrite Hc. simpl.
  destruct (grid_set_is_Some g a b (fadd c v)) as [g' Hset]; [by eexists|].
  exists g'. split; [done|]. split; [by eapply grid_set_dims|].
  intros i j. rewrite (grid_get_set _ _ _ _ _ i j Hset).
  destruct (decide (i = a /\ j = b)) as [[-> ->]|]; [|done].
  by rewrite Hc.
Qed.

Lemma of_int_1 : of_int 1 = S754_finite false 8388608 (-23).
Proof. reflexivity. Qed.

Lemma of_int_finite (n : Z) : 0 < n < 2 ^ 24 -> is_finite (of_int n) = true.
Proof.
  intros Hn.
  destruct (normalize_int_exact prec32 emax32 ltac:(done) ltac:(done) n Hn)
    as (m & Hr & _).
  unfold of_int. by rewrite Hr.
Qed.

(** The destination index along an axis of [n] cells is in [[0, n - 2]]. *)
Lemma destination_index (n c : Z) (v : float) :
  2 <= n <= 2 ^ 23 -> 0 < c < n -> is_nan v = false ->
  exists k, to_int (destination n c v) = Some k /\ 0 <= k <= n - 2.
Proof.
  intros Hn Hc Hv. apply clamp_to_int; [done|].
  apply SFadd_not_nan.
  - apply of_int_finite. lia.
  - rewrite of_int_1. by apply SFmul_not_nan.
Qed.

Section Advect.
Variable s : system.
Variable old : grid.
#[warning="-notation-for-abbreviation"]
Local Notation w := (CompoundCloudSystem.width s).
#[warning="-notation-for-abbreviation"]
Local Notation h := (CompoundCloudSystem.height s).
Hypothesis Hw : w <= 2 ^ 23.
Hypothesis Hh : h <= 2 ^ 23.
Hypothesis Hold : dims w h old.
Hypothesis Hxv : dims w h (CompoundCloudSystem.xVelocity s).
Hypothesis Hyv : dims w h (CompoundCloudSystem.yVelocity s).
Hypothesis Hxnan : no_nan (CompoundCloudSystem.xVelocity s).
Hypothesis Hynan : no_nan (CompoundCloudSystem.yVelocity s).

Lemma zeroFill_spec (g : grid) :
  dims w h g ->
  exists g0,
    CompoundCloudSystem.zeroFill s g = Some g0 /\
    dims w h g0 /\
    forall i j, 0 <= i < w -> 0 <= j < h -> grid_get g0 i j = Some (of_int 0).
Proof.
  intros Hg. destruct (dims_nonneg _ _ _ Hg) as [Hw0 Hh0].
  unfold CompoundCloudSystem.zeroFill.
  destruct (nested_for_inv
    (fun x y g => dims w h g /\
       forall i j, visited w h x y i j -> grid_get g i j = Some (of_int 0))
    0 w 0 h (fun x y g => grid_set g x y (of_int 0)) g Hw0 Hh0)
    as (g0 & Hrun & Hg0 & Hcells).
  - split; [done|]. unfold visited. lia.
  - intros x y g1 Hx Hy [Hg1 Hcells].
    destruct (grid_set_is_Some g1 x y (of_int 0)) as [g2 Hset].
    { by apply (dims_get w h). }
    exists g2. split; [done|]. split; [by eapply grid_set_dims|].
    intros i j Hv. rewrite (grid_get_set _ _ _ _ _ i j Hset).
    destruct (visited_next _ _ _ _ _ _ Hv) as [[-> ->]|[Hne Hv']].
    + by rewrite decide_True.
    + rewrite decide_False by done. by apply Hcells.
  - intros x g1 Hx [Hg1 Hcells]. split; [done|].
    intros i j Hv. apply Hcells. by apply visited_row_end.
  - exists g0. split; [done|]. split; [done|].
    intros i j Hi Hj. apply Hcells. unfold visited. lia.
Qed.

Lemma advectCell_spec (x y : Z) (g : grid) :
  interior w h x y ->
  dims w h g ->
  exists g',
    CompoundCloudSystem.advectCell s 1 old x y g = Some g' /\
    dims w h g' /\
    forall i j acc,
      grid_get g i j = Some acc ->
      grid_get g' i j = Some (contribution s old i j x y acc).
Proof.
  intros [Hx Hy] Hg.
  unfold CompoundCloudSystem.advectCell, contribution.
  destruct (dims_get_Some w h old x y Hold) as [o Ho]; [lia|lia|].
  destruct (dims_get_Some w h _ x y Hxv) as [xv Hxv']; [lia|lia|].
  destruct (dims_get_Some w h _ x y Hyv) as [yv Hyv']; [lia|lia|].
  rewrite Ho, Hxv', Hyv'. simpl.
  destruct (fgt o (of_int 1));
    [|exists g; split; [done|]; split; [done|]; by intros].
  destruct (destination_index w x xv) as (x0 & Hx0 & Hx0r);
    [lia|lia|by eapply Hxnan|].
  destruct (destination_index h y yv) as (y0 & Hy0 & Hy0r);
    [lia|lia|by eapply Hynan|].
  unfold destination in Hx0, Hy0 |- *. rewrite Hx0, Hy0. simpl.
  set (dx := CompoundCloudSystem.clamp w _).
  set (dy := CompoundCloudSystem.clamp h _).
  destruct (grid_add_spec w h g x0 y0
    (fmul (fmul o (fsub (of_int 1) (fsub dx (of_int x0))))
          (fsub (of_int 1) (fsub dy (of_int y0)))) Hg)
    as (g1 & -> & Hg1 & H1); [lia|lia|]. simpl.
  destruct (grid_add_spec w h g1 x0 (y0 + 1)
    (fmul (fmul o (fsub (of_int 1) (fsub dx (of_int x0))))
          (fsub dy (of_int y0))) Hg1)
    as (g2 & -> & Hg2 & H2); [lia|lia|]. simpl.
  destruct (grid_add_spec w h g2 (x0 + 1) y0
    (fmul (fmul o (fsub dx (of_int x0)))
          (fsub (of_int 1) (fsub dy (of_int y0)))) Hg2)
    as (g3 & -> & Hg3 & H3); [lia|lia|]. simpl.
  destruct (grid_add_spec w h g3 (x0 + 1) (y0 + 1)
    (fmul (fmul o (fsub dx (of_int x0))) (fsub dy (of_int y0))) Hg3)
    as (g4 & -> & Hg4 & H4); [lia|lia|].
  exists g4. split; [done|]. split; [done|].
  intros i j acc Hacc. rewrite H4, H3, H2, H1, Hacc.
  repeat case_decide; reflexivity.
Qed.

Lemma advect_scan (i j : Z) (g : grid) (acc : float) :
  cell_is w h i j g acc ->
  exists g',
    for_range 1 (w - 1) (fun x =>
      for_range 1 (h - 1) (fun y =>
        CompoundCloudSystem.advectCell s 1 old x y)) g = Some g' /\
    cell_is w h i j g'
      (fold_left
         (fun acc x =>
            fold_left (fun acc y => contribution s old i j x y acc)
                      (seqZ 1 (h - 2)) acc)
         (seqZ 1 (w - 2)) acc).
Proof.
  intros H0.
  replace (w - 2) with (w - 1 - 1) by lia.
  apply (for_range_fold (cell_is w h i j)); [done|].
  intros x g1 acc1 Hx H1.
  replace (h - 2) with (h - 1 - 1) by lia.
  apply (for_range_fold (cell_is w h i j)); [done|].
  intros y g2 acc2 Hy [Hg2 Hacc2].
  destruct (advectCell_spec x y g2) as (g3 & Hrun & Hg3 & Hcells);
    [unfold interior; lia|done|].
  exists g3. split; [done|]. split; [done|]. by apply Hcells.
Qed.

Lemma advect_defined (density : grid) (dt : Z) :
  dims w h density ->
  exists g',
    CompoundCloudSystem.advect s old density dt = Some g' /\
    dims w h g' /\
    forall i j, 0 <= i < w -> 0 <= j < h ->
      grid_get g' i j = Some (advected s old i j).
Proof.
  intros Hd. unfold CompoundCloudSystem.advect.
  destruct (zeroFill_spec density Hd) as (g0 & -> & Hg0 & Hzero). simpl.
  destruct (decide (0 < w /\ 0 < h)) as [[Hw0 Hh0]|Hempty].
  - destruct (advect_scan 0 0 g0 (of_int 0)) as (g' & Hrun & Hg' & _).
    { split; [done|]. apply Hzero; lia. }
    exists g'. split; [done|]. split; [done|].
    intros i j Hi Hj.
    destruct (advect_scan i j g0 (of_int 0)) as (g'' & Hrun' & _ & Hcell).
    { split; [done|]. by apply Hzero. }
    rewrite Hrun in Hrun'. by injection Hrun' as <-.
  - assert (w - 1 <= 1 \/ h - 1 <= 1) as [Hw1|Hh1] by lia.
    + rewrite for_range_empty by done. exists g0. split; [done|].
      split; [done|]. intros i j Hi Hj. lia.
    + destruct (for_range_inv (fun _ g => g = g0) 1 (Z.max 1 (w - 1))
        (fun x => for_range 1 (h - 1)
           (fun y => CompoundCloudSystem.advectCell s 1 old x y)) g0)
        as (g' & Hrun & ->); [lia|done| |].
      { intros x g1 _ ->. rewrite for_range_empty by done. eauto. }
      assert (for_range 1 (w - 1) (fun x => for_range 1 (h - 1)
        (fun y => CompoundCloudSystem.advectCell s 1 old x y)) g0 = Some g0)
        as ->.
      { destruct (decide (1 <= w - 1)).
        - by rewrite Z.max_r in Hrun by lia.
        - by rewrite for_range_empty by lia. }
      exists g0. split; [done|]. split; [done|]. intros i j Hi Hj. lia.
Qed.

End Advect.

(** The same description of the advection step without any assumption on
    its inputs: whenever the step is defined, it computes [advected]. *)
Lemma grid_add_Some (g g' : grid) (a b : Z) (v : float) :
  CompoundCloudSystem.grid_add g a b v = Some g' ->
  forall i j,
    grid_get g' i j =
      if decide (i = a /\ j = b) then (fun c => fadd c v) <$> grid_get g i j
      else grid_get g i j.
Proof.
  unfold CompoundCloudSystem.grid_add.
  destruct (grid_get g a b) as [c|] eqn:Hc; [|done]. simpl.
  intros Hset i j. rewrite (grid_get_set _ _ _ _ _ i j Hset).
  destruct (decide (i = a /\ j = b)) as [[-> ->]|]; [|done].
  by rewrite Hc.
Qed.

Lemma advectCell_Some (s : system) (old : grid) (x y : Z) (g g' : grid) :
  CompoundCloudSystem.advectCell s 1 old x y g = Some g' ->
  forall i j acc,
    grid_get g i j = Some acc ->
    grid_get g' i j = Some (contribution s old i j x y acc).
Proof.
  unfold CompoundCloudSystem.advectCell, contribution, destination.
  destruct (grid_get old x y) as [o|]; [|done]. simpl.
  destruct (fgt o (of_int 1)).
  - destruct (grid_get (CompoundCloudSystem.xVelocity s) x y) as [xv|]; [|done].
    destruct (grid_get (CompoundCloudSystem.yVelocity s) x y) as [yv|]; [|done].
    simpl.
    destruct (to_int (CompoundCloudSystem.clamp (CompoundCloudSystem.width s) _))
      as [x0|]; [|done]. simpl.
    destruct (to_int (CompoundCloudSystem.clamp (CompoundCloudSystem.height s) _))
      as [y0|]; [|done]. simpl.
    destruct (CompoundCloudSystem.grid_add g x0 y0 _) as [g1|] eqn:H1; [|done].
    simpl.
    destruct (CompoundCloudSystem.grid_add g1 x0 (y0 + 1) _) as [g2|] eqn:H2;
      [|done]. simpl.
    destruct (CompoundCloudSystem.grid_add g2 (x0 + 1) y0 _) as [g3|] eqn:H3;
      [|done]. simpl.
    intros H4 i j acc Hacc.
    rewrite (grid_add_Some _ _ _ _ _ H4), (grid_add_Some _ _ _ _ _ H3),
      (grid_add_Some _ _ _ _ _ H2), (grid_add_Some _ _ _ _ _ H1), Hacc.
    repeat case_decide; reflexivity.
  - intros [= <-] i j acc Hacc. rewrite Hacc.
    by destruct (grid_get (CompoundCloudSystem.xVelocity s) x y),
                (grid_get (CompoundCloudSystem.yVelocity s) x y).
Qed.

Lemma zeroFill_Some (s : system) (g g0 : grid) :
  CompoundCloudSystem.zeroFill s g = Some g0 ->
  forall i j,
    0 <= i < CompoundCloudSystem.width s ->
    0 <= j < CompoundCloudSystem.height s ->
    grid_get g0 i j = Some (of_int 0).
Proof.
  unfold CompoundCloudSystem.zeroFill. intros Hrun i j Hi Hj.
  set (w := CompoundCloudSystem.width s) in *.
  set (h := CompoundCloudSystem.height s) in *.
  assert (forall i j, visited w h w 0 i j -> grid_get g0 i j = Some (of_int 0))
    as Hall; [|apply Hall; unfold visited; lia].
  eapply (for_range_inv_Some
    (fun x g => forall i j, visited w h x 0 i j -> grid_get g i j = Some (of_int 0))
    0 w); [lia|exact Hrun| |].
  - unfold visited. lia.
  - intros x g1 g2 Hx Hinv Hrow.
    assert (forall i j, visited w h x h i j -> grid_get g2 i j = Some (of_int 0))
      as Hend.
    { eapply (for_range_inv_Some
        (fun y g => forall i j, visited w h x y i j ->
                      grid_get g i j = Some (of_int 0))
        0 h); [lia|exact Hrow|done|].
      intros y g3 g4 Hy Hinv3 Hset i0 j0 Hv.
      rewrite (grid_get_set _ _ _ _ _ i0 j0 Hset).
      destruct (visited_next _ _ _ _ _ _ Hv) as [[-> ->]|[Hne Hv']].
      - by rewrite decide_True.
      - rewrite decide_False by done. by apply Hinv3. }
    intros i0 j0 Hv. apply Hend. by apply visited_row_end.
Qed.

Lemma advect_Some (s : system) (old density density' : grid) (dt : Z) :
  CompoundCloudSystem.advect s old density dt = Some density' ->
  forall i j,
    0 <= i < CompoundCloudSystem.width s ->
    0 <= j < CompoundCloudSystem.height s ->
    grid_get density' i j = Some (advected s old i j).
Proof.
  unfold CompoundCloudSystem.advect, advected.
  destruct (CompoundCloudSystem.zeroFill s density) as [g0|] eqn:Hzero; [|done].
  simpl. intros Hrun i j Hi Hj.
  replace (CompoundCloudSystem.width s - 2)
    with (CompoundCloudSystem.width s - 1 - 1) by lia.
  apply (for_range_fold_Some (fun g acc => grid_get g i j = Some acc)
           _ _ _ _ g0 density' (of_int 0) Hrun).
  - by eapply zeroFill_Some.
  - intros x g1 g2 acc1 Hx H1 Hrow.
    replace (CompoundCloudSystem.height s - 2)
      with (CompoundCloudSystem.height s - 1 - 1) by lia.
    apply (for_range_fold_Some (fun g acc => grid_get g i j = Some acc)
             _ _ _ _ g1 g2 acc1 Hrow); [done|].
    intros y g3 g4 acc3 Hy H3 Hcell. by eapply advectCell_Some.
Qed.

Lemma grid_make_no_nan (w h : Z) (v : float) :
  is_nan v = false -> no_nan (grid_make w h v).
Proof.
  intros Hv x y u Hu.
  destruct (decide (0 <= w /\ 0 <= h)) as [[Hw Hh]|Hneg].
  - pose proof (proj1 (dims_get w h _ x y (grid_make_dims w h v Hw Hh))
                  (ex_intro _ u Hu)) as [Hx Hy].
    rewrite grid_make_get in Hu by done. by injection Hu as <-.
  - unfold grid_get, grid_make in Hu.
    destruct (decide (0 <= x /\ 0 <= y)); [|done].
    destruct (replicate (Z.to_nat w) (replicate (Z.to_nat h) v) !! Z.to_nat x)
      as [col|] eqn:Hcol; [|done].
    apply lookup_replicate in Hcol as [-> Hlt]. simpl in Hu.
    apply lookup_replicate in Hu as [-> _]. done.
Qed.

(** Comparison against a finite number only depends on its value. *)
Lemma Fcompare_value_r (a b b' : spec_float) :
  is_finite b = true -> is_finite b' = true -> (F2Q b == F2Q b')%Q ->
  Fcompare a b = Fcompare a b'.
Proof.
  intros Hb Hb' Hv.
  destruct a as [sa|sa| |sa ma ea];
    destruct b as [sb|sb| |sb mb eb]; try done;
    destruct b' as [sb'|sb'| |sb' mb' eb']; try done;
    unfold Fcompare; f_equal; by rewrite Hv.
Qed.

(** The source's two successive tests in [double] are the clamp of the
    specification. *)
Lemma clamp_spec_clamp (n : Z) (d : float) :
  2 <= n <= 2 ^ 23 ->
  CompoundCloudSystem.clamp n d = spec_clamp f0_5 (fsub (of_int n) f1_5) d.
Proof.
  intros Hn. unfold CompoundCloudSystem.clamp, spec_clamp.
  destruct (clamp_bound_double n Hn) as [HDf HDv].
  destruct (clamp_bound_float n Hn) as [HFf HFv].
  set (hiD := dsub (double_of_int n) d1_5) in *.
  set (hiF := fsub (of_int n) f1_5) in *.
  assert (forall a, fgt a hiD = fgt a hiF) as Hgt.
  { intros a. unfold fgt.
    rewrite (Fcompare_value_r a hiD hiF); [done|done|done|].
    by rewrite HDv, HFv. }
  assert (flt d d0_5 = flt d f0_5) as ->.
  { unfold flt. by rewrite (Fcompare_value_r d d0_5 f0_5). }
  destruct (flt d f0_5); [|by rewrite Hgt].
  assert (fgt f0_5 hiD = false) as ->; [|done].
  unfold fgt. rewrite Fcompare_finite by done.
  assert (F2Q f0_5 <= F2Q hiD)%Q as Hle.
  { assert (F2Q f0_5 == 1 # 2)%Q as -> by reflexivity.
    rewrite HDv. unfold Qle. simpl. lia. }
  apply Qle_alt in Hle.
  destruct (F2Q f0_5 ?= F2Q hiD)%Q eqn:Hc; [done|done|by destruct Hle].
Qed.

(** On [[0.5, n - 1.5]] the cast to [int] is the floor. *)
Lemma to_int_floor (n : Z) (x : float) :
  n <= 2 ^ 31 ->
  is_finite x = true ->
  (1 # 2 <= F2Q x)%Q -> (F2Q x <= (2 * n - 3) # 2)%Q ->
  to_int x = Some (spec_floor x).
Proof.
  intros Hn Hfin Hlo Hhi.
  destruct (to_int_in_range n x Hn Hfin Hlo Hhi) as (k & Hk & _).
  rewrite Hk. f_equal. revert Hk. unfold to_int, Qtrunc, spec_floor.
  rewrite Hfin.
  assert (Qle_bool 0 (F2Q x) = true) as ->.
  { apply Qle_bool_iff. eapply Qle_trans; [|exact Hlo]. done. }
  by destruct (_ && _); intros [= <-].
Qed.

(** A number in range is left where it is. *)
Lemma spec_clamp_in_range (lo hi d : float) :
  is_finite lo = true -> is_finite hi = true -> is_finite d = true ->
  (F2Q lo <= F2Q d)%Q -> (F2Q d <= F2Q hi)%Q ->
  spec_clamp lo hi d = d.
Proof.
  intros Hlo Hhi Hd H1 H2. unfold spec_clamp, flt, fgt.
  rewrite !Fcompare_finite by done.
  apply Qge_alt in H1. apply Qle_alt in H2.
  destruct (F2Q d ?= F2Q lo)%Q eqn:H1'; [|by destruct H1|];
    (destruct (F2Q d ?= F2Q hi)%Q eqn:H2'; [done|done|by destruct H2]).
Qed.

Lemma destination_spec (n c : Z) (v : float) :
  2 <= n <= 2 ^ 23 ->
  destination n c v = spec_destination n c v.
Proof. intros Hn. by apply clamp_spec_clamp. Qed.

Lemma contribution_spec (s : system) (old : grid) (i j x y : Z) (acc : float) :
  CompoundCloudSystem.width s <= 2 ^ 23 ->
  CompoundCloudSystem.height s <= 2 ^ 23 ->
  no_nan (CompoundCloudSystem.xVelocity s) ->
  no_nan (CompoundCloudSystem.yVelocity s) ->
  interior (CompoundCloudSystem.width s) (CompoundCloudSystem.height s) x y ->
  contribution s old i j x y acc = spec_contribution s old i j x y acc.
Proof.
  intros Hw Hh Hxnan Hynan [Hx Hy]. unfold contribution, spec_contribution.
  destruct (grid_get old x y) as [o|]; [|done].
  destruct (grid_get (CompoundCloudSystem.xVelocity s) x y) as [xv|] eqn:Hxv;
    [|done].
  destruct (grid_get (CompoundCloudSystem.yVelocity s) x y) as [yv|] eqn:Hyv;
    [|done].
  destruct (fgt o (of_int 1)); [|done].
  assert (forall n c v, 2 <= n <= 2 ^ 23 -> 0 < c < n -> is_nan v = false ->
            to_int (destination n c v) = Some (spec_floor (destination n c v)))
    as Hcast.
  { intros n c v Hn Hc Hv.
    destruct (clamp_range n (fadd (of_int c) (fmul (of_int 1) v)) Hn)
      as (Hfin & Hlo & Hhi).
    { apply SFadd_not_nan; [apply of_int_finite; lia|].
      rewrite of_int_1. by apply SFmul_not_nan. }
    apply (to_int_floor n); [lia|done|done|done]. }
  rewrite (Hcast _ x xv), (Hcast _ y yv);
    [|lia|lia|by eapply Hynan|lia|lia|by eapply Hxnan].
  rewrite !destination_spec by lia. reflexivity.
Qed.

Lemma fold_left_seqZ_ext {A} (f g : A -> Z -> A) (m n : Z) (a : A) :
  (forall k b, m <= k < m + n -> f b k = g b k) ->
  fold_left f (seqZ m n) a = fold_left g (seqZ m n) a.
Proof.
  intros H.
  assert (Forall (fun k => m <= k < m + n) (seqZ m n)) as Hall.
  { apply Forall_forall. intros k Hk. by apply elem_of_seqZ in Hk. }
  revert a. induction Hall as [|k l Hk _ IH]; intros a; [done|].
  simpl. rewrite (H k a Hk). apply IH.
Qed.

Lemma advected_spec (s : system) (old : grid) (i j : Z) :
  CompoundCloudSystem.width s <= 2 ^ 23 ->
  CompoundCloudSystem.height s <= 2 ^ 23 ->
  no_nan (CompoundCloudSystem.xVelocity s) ->
  no_nan (CompoundCloudSystem.yVelocity s) ->
  advected s old i j = spec_advected s old i j.
Proof.
  intros Hw Hh Hxnan Hynan. unfold advected, spec_advected.
  apply fold_left_seqZ_ext. intros x a Hx.
  apply fold_left_seqZ_ext. intros y b Hy.
  apply contribution_spec; try done. unfold interior. lia.
Qed.

(** The clamp of the source by the exact value of its argument. *)
Lemma clamp_cases (n : Z) (d : float) :
  2 <= n <= 2 ^ 23 -> is_finite d = true ->
  ((F2Q d < 1 # 2)%Q -> CompoundCloudSystem.clamp n d = f0_5) /\
  (((2 * n - 3) # 2 < F2Q d)%Q ->
     CompoundCloudSystem.clamp n d = fsub (of_int n) f1_5) /\
  ((1 # 2 <= F2Q d <= (2 * n - 3) # 2)%Q -> CompoundCloudSystem.clamp n d = d).
Proof.
  intros Hn Hd. rewrite clamp_spec_clamp by done.
  destruct (clamp_bound_float n Hn) as [HFf HFv].
  assert (F2Q f0_5 == 1 # 2)%Q as Hhalf by reflexivity.
  assert (1 # 2 <= (2 * n - 3) # 2)%Q as Hlohi.
  { unfold Qle. simpl. lia. }
  set (hiF := fsub (of_int n) f1_5) in *.
  unfold spec_clamp, flt, fgt. rewrite !Fcompare_finite by done.
  split; [|split].
  - intros Hlt. rewrite <- Hhalf in Hlt.
    assert ((F2Q d ?= F2Q f0_5)%Q = Lt) as -> by (by apply Qlt_alt).
    done.
  - intros Hgt. rewrite <- HFv in Hgt.
    assert (F2Q f0_5 < F2Q d)%Q as Hlo.
    { rewrite Hhalf. eapply Qle_lt_trans; [exact Hlohi|]. by rewrite <- HFv. }
    assert ((F2Q d ?= F2Q f0_5)%Q = Gt) as -> by (by apply Qgt_alt).
    assert ((F2Q d ?= F2Q hiF)%Q = Gt) as -> by (by apply Qgt_alt).
    done.
  - intros [H1 H2]. rewrite <- Hhalf in H1. rewrite <- HFv in H2.
    apply Qge_alt in H1. apply Qle_alt in H2.
    destruct (F2Q d ?= F2Q f0_5)%Q eqn:H1'; [|by destruct H1|];
      (destruct (F2Q d ?= F2Q hiF)%Q eqn:H2'; [done|done|by destruct H2]).
Qed.

(** C4: the advection step.  For all inputs, whenever [advect] is defined:
    - it first sets every cell of [density] to 0;
    - its result holds, in every cell [(i, j)], the value [advected]: 0 plus,
      for each interior source cell [(x, y)] in scan order with
      [oldDens[x][y] > 1] (other cells contribute nothing), [oldDens[x][y]]
      times the bilinear weight [s0*t0], [s0*t1], [s1*t0] or [s1*t1] when
      [(i, j)] is [(x0,y0)], [(x0,y1)], [(x1,y0)] or [(x1,y1)], with
      [dx = clamp(x + 1*xVelocity[x][y])] (velocity is added),
      [x0 = trunc(dx)], [x1 = x0 + 1], [s1 = dx - x0], [s0 = 1 - s1] and
      the same along y: contributions are accumulated, never overwritten.
    On [w] by [h] grids ([w, h <= 2^23]) with a velocity field free of NaN,
    [advect] is defined and every cell of its result holds [spec_advected],
    the same sum written with the clamp and the floor of the specification
    instead of the source's: on interior cells the source's destination is
    [spec_destination], its cast is [spec_floor], and the clamped
    coordinates lie in [[0.5, w - 1.5]] and [[0.5, h - 1.5]].
    The source's clamp along an axis of [n] cells ([2 <= n <= 2^23]) maps a
    finite number below 0.5 to 0.5, one above [n - 1.5] to [n - 1.5], and
    leaves one in between unchanged. *)
Theorem advect_accumulates (s : system) (oldDens density : grid) (dt : Z) :
  let w := CompoundCloudSystem.width s in
  let h := CompoundCloudSystem.height s in
  (forall density',
     CompoundCloudSystem.advect s oldDens density dt = Some density' ->
     (exists g0,
        CompoundCloudSystem.zeroFill s density = Some g0 /\
        forall i j, 0 <= i < w -> 0 <= j < h ->
          grid_get g0 i j = Some (of_int 0)) /\
     (forall i j, 0 <= i < w -> 0 <= j < h ->
        grid_get density' i j = Some (advected s oldDens i j))) /\
  (w <= 2 ^ 23 -> h <= 2 ^ 23 ->
   dims w h oldDens -> dims w h density ->
   dims w h (CompoundCloudSystem.xVelocity s) ->
   dims w h (CompoundCloudSystem.yVelocity s) ->
   no_nan (CompoundCloudSystem.xVelocity s) ->
   no_nan (CompoundCloudSystem.yVelocity s) ->
   (exists density',
      CompoundCloudSystem.advect s oldDens density dt = Some density' /\
      dims w h density' /\
      forall i j, 0 <= i < w -> 0 <= j < h ->
        grid_get density' i j = Some (spec_advected s oldDens i j)) /\
   (forall x y xv yv,
      interior w h x y ->
      grid_get (CompoundCloudSystem.xVelocity s) x y = Some xv ->
      grid_get (CompoundCloudSystem.yVelocity s) x y = Some yv ->
      destination w x xv = spec_destination w x xv /\
      destination h y yv = spec_destination h y yv /\
      to_int (destination w x xv) = Some (spec_floor (spec_destination w x xv)) /\
      to_int (destination h y yv) = Some (spec_floor (spec_destination h y yv)) /\
      (1 # 2 <= F2Q (destination w x xv) <= (2 * w - 3) # 2)%Q /\
      (1 # 2 <= F2Q (destination h y yv) <= (2 * h - 3) # 2)%Q)) /\
  (forall n d,
     2 <= n <= 2 ^ 23 -> is_finite d = true ->
     ((F2Q d < 1 # 2)%Q -> CompoundCloudSystem.clamp n d = f0_5) /\
     (((2 * n - 3) # 2 < F2Q d)%Q ->
        CompoundCloudSystem.clamp n d = fsub (of_int n) f1_5) /\
     ((1 # 2 <= F2Q d <= (2 * n - 3) # 2)%Q ->
        CompoundCloudSystem.clamp n d = d)).
Proof.
  intros w h. split; [|split].
  - intros density' Hrun. split.
    + unfold CompoundCloudSystem.advect in Hrun.
      destruct (CompoundCloudSystem.zeroFill s density) as [g0|] eqn:Hzero;
        [|done].
      exists g0. split; [done|]. by eapply zeroFill_Some.
    + by eapply advect_Some.
  - intros Hw Hh Hold Hd Hxv Hyv Hxnan Hynan. split.
    + destruct (advect_defined s oldDens Hw Hh Hold Hxv Hyv Hxnan Hynan
                  density dt Hd) as (g' & Hrun & Hg' & Hcells).
      exists g'. split; [done|]. split; [done|].
      intros i j Hi Hj. rewrite (Hcells i j Hi Hj).
      by rewrite advected_spec.
    + intros x y xv yv [Hx Hy] Hgx Hgy.
      assert (forall n c v, 2 <= n <= 2 ^ 23 -> 0 < c < n -> is_nan v = false ->
                is_finite (destination n c v) = true /\
                (1 # 2 <= F2Q (destination n c v) <= (2 * n - 3) # 2)%Q) as Hrange.
      { intros n c v Hn Hc Hv. apply clamp_range; [done|].
        apply SFadd_not_nan; [apply of_int_finite; lia|].
        rewrite of_int_1. by apply SFmul_not_nan. }
      destruct (Hrange w x xv) as (Hfx & Hlx & Hhx); [lia|lia|by eapply Hxnan|].
      destruct (Hrange h y yv) as (Hfy & Hly & Hhy); [lia|lia|by eapply Hynan|].
      rewrite <- !destination_spec by lia.
      split; [done|]. split; [done|].
      split; [by apply (to_int_floor w); [lia|..]|].
      split; [by apply (to_int_floor h); [lia|..]|].
      done.
  - intros n d Hn Hd. by apply clamp_cases.
Qed.

Lemma advect_accumulates_witness :
  (exists density',
     CompoundCloudSystem.advect wind6 impulse6 impulse6 1 = Some density' /\
     dims 6 6 density' /\
     forall i j, 0 <= i < 6 -> 0 <= j < 6 ->
       grid_get density' i j = Some (spec_advected wind6 impulse6 i j)) /\
  (forall x y xv yv,
     interior 6 6 x y ->
     grid_get (CompoundCloudSystem.xVelocity wind6) x y = Some xv ->
     grid_get (CompoundCloudSystem.yVelocity wind6) x y = Some yv ->
     destination 6 x xv = spec_destination 6 x xv /\
     destination 6 y yv = spec_destination 6 y yv /\
     to_int (destination 6 x xv) = Some (spec_floor (spec_destination 6 x xv)) /\
     to_int (destination 6 y yv) = Some (spec_floor (spec_destination 6 y yv)) /\
     (1 # 2 <= F2Q (destination 6 x xv) <= (2 * 6 - 3) # 2)%Q /\
     (1 # 2 <= F2Q (destination 6 y yv) <= (2 * 6 - 3) # 2)%Q).
Proof.
  apply (proj1 (proj2 (advect_accumulates wind6 impulse6 impulse6 1))).
  - simpl. lia.
  - simpl. lia.
  - split; [reflexivity|]. repeat constructor.
  - split; [reflexivity|]. repeat constructor.
  - apply grid_make_dims; lia.
  - apply grid_make_dims; lia.
  - by apply grid_make_no_nan.
  - by apply grid_make_no_nan.
Defined.

(** In the wind of [wind6], the 100 units of cell [(3, 3)] are pushed
    against the corner: the destination is [(4.5, 0.5)], and the four cells
    [(4,0)], [(4,1)], [(5,0)], [(5,1)] receive 25 each. *)
Lemma advect_wind6 :
  destination 6 3 (of_int 10) = fsub (of_int 6) f1_5 /\
  destination 6 3 (of_int (-10)) = f0_5 /\
  exists density',
    CompoundCloudSystem.advect wind6 impulse6 impulse6 1 = Some density' /\
    grid_get density' 4 0 = Some (of_int 25) /\
    grid_get density' 4 1 = Some (of_int 25) /\
    grid_get density' 5 0 = Some (of_int 25) /\
    grid_get density' 5 1 = Some (of_int 25) /\
    grid_get density' 3 3 = Some (of_int 0).
Proof.
  split; [by vm_compute|]. split; [by vm_compute|].
  eexists. split; [by vm_compute|]. by vm_compute.
Qed.

(** C5: bounds safety of the advection step.  For every input grid and
    every velocity field without NaN, of any magnitude and including the
    infinities, on a window of at most [2^23] cells per axis: [advect] is
    defined, that is, it never indexes a grid outside
    [[0, w-1] x [0, h-1]] and never converts an unrepresentable float to
    [int]; and for every interior source cell, after the clamp, [x0] is in
    [[0, w-2]] and [x1 = x0 + 1] in [[1, w-1]], and the same for y. *)
Theorem advect_in_bounds (s : system) (oldDens density : grid) (dt : Z) :
  let w := CompoundCloudSystem.width s in
  let h := CompoundCloudSystem.height s in
  w <= 2 ^ 23 -> h <= 2 ^ 23 ->
  dims w h oldDens -> dims w h density ->
  dims w h (CompoundCloudSystem.xVelocity s) ->
  dims w h (CompoundCloudSystem.yVelocity s) ->
  no_nan (CompoundCloudSystem.xVelocity s) ->
  no_nan (CompoundCloudSystem.yVelocity s) ->
  (exists density',
     CompoundCloudSystem.advect s oldDens density dt = Some density' /\
     dims w h density') /\
  (forall x y xv yv,
     interior w h x y ->
     grid_get (CompoundCloudSystem.xVelocity s) x y = Some xv ->
     grid_get (CompoundCloudSystem.yVelocity s) x y = Some yv ->
     exists x0 y0,
       to_int (destination w x xv) = Some x0 /\
       to_int (destination h y yv) = Some y0 /\
       0 <= x0 <= w - 2 /\ 1 <= x0 + 1 <= w - 1 /\
       0 <= y0 <= h - 2 /\ 1 <= y0 + 1 <= h - 1).
Proof.
  intros w h Hw Hh Hold Hd Hxv Hyv Hxnan Hynan. split.
  - destruct (advect_defined s oldDens Hw Hh Hold Hxv Hyv Hxnan Hynan density dt Hd)
      as (g' & Hrun & Hg' & _). eauto.
  - intros x y xv yv [Hx Hy] Hgx Hgy.
    destruct (destination_index w x xv) as (x0 & Hx0 & Hx0r);
      [lia|lia|by eapply Hxnan|].
    destruct (destination_index h y yv) as (y0 & Hy0 & Hy0r);
      [lia|lia|by eapply Hynan|].
    exists x0, y0. repeat split; try done; lia.
Qed.

Lemma advect_in_bounds_witness :
  (exists density',
     CompoundCloudSystem.advect system6 impulse6 zero6 1 = Some density' /\
     dims 6 6 density') /\
  (forall x y xv yv,
     interior 6 6 x y ->
     grid_get (CompoundCloudSystem.xVelocity system6) x y = Some xv ->
     grid_get (CompoundCloudSystem.yVelocity system6) x y = Some yv ->
     exists x0 y0,
       to_int (destination 6 x xv) = Some x0 /\
       to_int (destination 6 y yv) = Some y0 /\
       0 <= x0 <= 6 - 2 /\ 1 <= x0 + 1 <= 6 - 1 /\
       0 <= y0 <= 6 - 2 /\ 1 <= y0 + 1 <= 6 - 1).
Proof.
  apply (advect_in_bounds system6 impulse6 zero6 1).
  - simpl. lia.
  - simpl. lia.
  - split; [reflexivity|]. repeat constructor.
  - apply grid_make_dims; lia.
  - apply grid_make_dims; lia.
  - apply grid_make_dims; lia.
  - by apply grid_make_no_nan.
  - by apply grid_make_no_nan.
Defined.


(** ** Window rebasing *)

Lemma rebaseOffsets_untriggered (s : system) (px py : float) :
  triggered s px py = false -> CompoundCloudSystem.rebaseOffsets s px py = s.
Proof.
  unfold triggered, halfX, halfY, CompoundCloudSystem.rebaseOffsets.
  by intros ->.
Qed.

Lemma rebaseOffsets_axes (s : system) (px py : float) :
  CompoundCloudSystem.offsetX (CompoundCloudSystem.rebaseOffsets s px py)
    = axis_step px (CompoundCloudSystem.offsetX s) (halfX s) (incX s) /\
  CompoundCloudSystem.offsetY (CompoundCloudSystem.rebaseOffsets s px py)
    = axis_step py (CompoundCloudSystem.offsetY s) (halfY s) (incY s).
Proof.
  unfold CompoundCloudSystem.rebaseOffsets, axis_step, halfX, halfY, incX, incY.
  destruct s as [ns w h ox oy g xv yv]. simpl.
  repeat (match goal with
          | |- context [fgt ?a ?b] => destruct (fgt a b) eqn:?
          | |- context [flt ?a ?b] => destruct (flt a b) eqn:?
          end; simpl in *);
    (done || congruence).
Qed.

Lemma of_int_value (n : Z) :
  - 2 ^ 24 < n < 2 ^ 24 ->
  is_finite (of_int n) = true /\ (F2Q (of_int n) == inject_Z n)%Q.
Proof. apply (normalize_int_value prec32 emax32); done. Qed.

Lemma axis_step_cases (p : float) (off half inc : Z) :
  axis_step p off half inc = off \/
  axis_step p off half inc = off + inc \/
  axis_step p off half inc = off - inc.
Proof.
  unfold axis_step.
  destruct (fgt p (of_int (off + half)));
    [destruct (flt p (of_int (off + inc - half)))
    |destruct (flt p (of_int (off - half)))]; lia.
Qed.

Lemma fle_finite_true (a b : spec_float) :
  is_finite a = true -> is_finite b = true ->
  fle a b = true -> (F2Q a <= F2Q b)%Q.
Proof.
  intros Ha Hb. unfold fle. rewrite Fcompare_finite by done.
  intros H. apply Qle_alt. intros Hgt. by rewrite Hgt in H.
Qed.

Lemma fgt_finite_lt (a b : spec_float) :
  is_finite a = true -> is_finite b = true ->
  (F2Q b < F2Q a)%Q -> fgt a b = true.
Proof.
  intros Ha Hb H. unfold fgt. rewrite Fcompare_finite by done.
  by rewrite (proj1 (Qgt_alt _ _) H).
Qed.

Lemma flt_finite_le (a b : spec_float) :
  is_finite a = true -> is_finite b = true ->
  (F2Q b <= F2Q a)%Q -> flt a b = false.
Proof.
  intros Ha Hb H. unfold flt. rewrite Fcompare_finite by done.
  pose proof (proj1 (Qge_alt _ _) H) as H'.
  destruct (F2Q a ?= F2Q b)%Q; congruence.
Qed.

(** An observer at least one increment beyond the offset: the axis moves
    by exactly one increment. *)
Lemma axis_step_far (p : float) (off half inc : Z) :
  0 <= half < inc ->
  - 2 ^ 24 < off -> off + inc < 2 ^ 24 ->
  fle (of_int (off + inc)) p = true ->
  axis_step p off half inc = off + inc.
Proof.
  intros Hhalf Hlo Hhi Hle. unfold axis_step.
  destruct (of_int_value (off + inc)) as [Hf1 Hv1]; [lia|].
  destruct (of_int_value (off + half)) as [Hf2 Hv2]; [lia|].
  destruct (of_int_value (off + inc - half)) as [Hf3 Hv3]; [lia|].
  assert (fgt p (of_int (off + half)) = true /\
          flt p (of_int (off + inc - half)) = false) as [-> ->]; [|done].
  destruct (is_finite p) eqn:Hfp.
  - pose proof (fle_finite_true _ _ Hf1 Hfp Hle) as Hq. rewrite Hv1 in Hq.
    split.
    + apply fgt_finite_lt; [done|done|]. rewrite Hv2.
      eapply Qlt_le_trans; [|exact Hq]. rewrite <- Zlt_Qlt. lia.
    + apply flt_finite_le; [done|done|]. rewrite Hv3.
      eapply Qle_trans; [|exact Hq]. rewrite <- Zle_Qle. lia.
  - unfold fle, fgt, flt, Fcompare in *.
    destruct p as [sp|[]| |sp mp ep]; try done.
    + by destruct (of_int (off + inc)).
    + split; [by destruct (of_int (off + half))
             |by destruct (of_int (off + inc - half))].
    + by destruct (of_int (off + inc)).
Qed.

(** C6: the rebase step.
    - It triggers exactly when the observer has left the central third:
      when none of [px > offsetX + width/3*gridSize/2],
      [py > offsetY + height/3*gridSize/2], [px < offsetX - ...],
      [py < offsetY - ...] holds, nothing changes; and an untriggered axis
      keeps its offset.
    - Each axis is updated independently of the other ([axis_step] of its
      own position and offset), by at most one increment per call.
    - For an observer displaced in +x, [offsetX] grows by exactly
      [width/3*gridSize]: whenever the +x test fires and the -x test does
      not fire afterwards, and in particular for every position at least
      one increment beyond [offsetX], however far (infinity included). *)
Theorem rebaseOffsets_spec (s : system) (px py : float) :
  let s' := CompoundCloudSystem.rebaseOffsets s px py in
  let ox := CompoundCloudSystem.offsetX s in
  let oy := CompoundCloudSystem.offsetY s in
  (triggered s px py = false -> s' = s) /\
  (CompoundCloudSystem.offsetX s' = axis_step px ox (halfX s) (incX s) /\
   CompoundCloudSystem.offsetY s' = axis_step py oy (halfY s) (incY s)) /\
  ((CompoundCloudSystem.offsetX s' = ox \/
    CompoundCloudSystem.offsetX s' = ox + incX s \/
    CompoundCloudSystem.offsetX s' = ox - incX s) /\
   (CompoundCloudSystem.offsetY s' = oy \/
    CompoundCloudSystem.offsetY s' = oy + incY s \/
    CompoundCloudSystem.offsetY s' = oy - incY s)) /\
  (fgt px (of_int (ox + halfX s)) = false ->
   flt px (of_int (ox - halfX s)) = false ->
   CompoundCloudSystem.offsetX s' = ox) /\
  (fgt px (of_int (ox + halfX s)) = true ->
   flt px (of_int (ox + incX s - halfX s)) = false ->
   CompoundCloudSystem.offsetX s' = ox + incX s) /\
  (0 < incX s -> - 2 ^ 24 < ox -> ox + incX s < 2 ^ 24 ->
   fle (of_int (ox + incX s)) px = true ->
   CompoundCloudSystem.offsetX s' = ox + incX s).
Proof.
  intros s' ox oy.
  destruct (rebaseOffsets_axes s px py) as [HX HY]. fold s' ox oy in HX, HY.
  split; [apply rebaseOffsets_untriggered|].
  split; [done|]. rewrite HX, HY.
  split; [split; apply axis_step_cases|].
  split; [|split].
  - intros H1 H2. unfold axis_step. by rewrite H1, H2.
  - intros H1 H2. unfold axis_step. by rewrite H1, H2.
  - intros Hinc Hlo Hhi Hle. apply axis_step_far; [|done|done|done].
    unfold halfX. fold (incX s).
    split; [apply Z.quot_pos; lia|apply Z.quot_lt; lia].
Qed.

Lemma rebaseOffsets_spec_witness :
  CompoundCloudSystem.offsetX
    (CompoundCloudSystem.rebaseOffsets CompoundCloudSystem.init
       (of_int 1000000) (of_int 0))
  = 0 + incX CompoundCloudSystem.init.
Proof.
  apply (rebaseOffsets_spec CompoundCloudSystem.init (of_int 1000000) (of_int 0)).
  - reflexivity.
  - simpl. lia.
  - vm_compute. reflexivity.
  - vm_compute. reflexivity.
Defined.

Lemma shiftCloud_in_sync (s : system) (c : cloud) :
  in_sync s c -> CompoundCloudSystem.shiftCloud s c = Some c.
Proof.
  intros [Hx Hy]. unfold CompoundCloudSystem.shiftCloud.
  rewrite decide_False; [done|]. intros [?|?]; congruence.
Qed.

Lemma mapM_shiftCloud_in_sync (s : system) (clouds : list cloud) :
  Forall (in_sync s) clouds ->
  mapM (CompoundCloudSystem.shiftCloud s) clouds = Some clouds.
Proof.
  intros H. apply mapM_Some. induction H as [|c l Hc _ IH]; constructor.
  - by apply shiftCloud_in_sync.
  - done.
Qed.

Lemma rebase_untriggered (s : system) (clouds : list cloud) (px py : float) :
  triggered s px py = false ->
  CompoundCloudSystem.rebase px py (s, clouds)
    = clouds' ← mapM (CompoundCloudSystem.shiftCloud s) clouds; Some (s, clouds').
Proof.
  intros H. unfold CompoundCloudSystem.rebase. simpl.
  by rewrite rebaseOffsets_untriggered.
Qed.

(** C8: rebase idempotence.  While the observer stays within the central
    third (no trigger condition holds), any number [n] of rebase checks
    leaves [offsetX] and [offsetY] (indeed the whole window state) unchanged
    and leaves every cloud whose cached offset equals the window offset
    unchanged, so no cell of its density changes.  When all clouds are in
    sync the [n] checks are defined and return the state they started from. *)
Theorem rebase_idempotent (s : system) (clouds : list cloud)
    (px py : float) (n : nat) :
  triggered s px py = false ->
  (Forall (in_sync s) clouds ->
   rebase_n n px py (s, clouds) = Some (s, clouds)) /\
  (forall st',
     rebase_n n px py (s, clouds) = Some st' ->
     fst st' = s /\
     forall k c, clouds !! k = Some c -> in_sync s c -> snd st' !! k = Some c).
Proof.
  intros Htrig. split.
  - intros Hsync. induction n as [|n IH]; [done|].
    simpl. rewrite rebase_untriggered by done.
    rewrite mapM_shiftCloud_in_sync by done. simpl. exact IH.
  - revert clouds. induction n as [|n IH]; intros clouds st' Hrun.
    + simpl in Hrun. injection Hrun as <-. by split.
    + simpl in Hrun. rewrite rebase_untriggered in Hrun by done.
      destruct (mapM (CompoundCloudSystem.shiftCloud s) clouds)
        as [clouds1|] eqn:Hmap; [|done].
      simpl in Hrun. destruct (IH clouds1 st' Hrun) as [Hs Hclouds].
      split; [done|]. intros k c Hk Hc. apply Hclouds; [|done].
      apply mapM_Some in Hmap.
      destruct (Forall2_lookup_l _ _ _ _ _ Hmap Hk) as (c' & Hk' & Hshift).
      rewrite shiftCloud_in_sync in Hshift by done. congruence.
Qed.

Lemma rebase_idempotent_witness :
  rebase_n 3 (of_int 10) (of_int (-10))
    (CompoundCloudSystem.init,
     [CompoundCloudSystem.initCloud CompoundCloudSystem.init])
  = Some (CompoundCloudSystem.init,
          [CompoundCloudSystem.initCloud CompoundCloudSystem.init]).
Proof.
  apply (rebase_idempotent CompoundCloudSystem.init
           [CompoundCloudSystem.initCloud CompoundCloudSystem.init]
           (of_int 10) (of_int (-10)) 3).
  - vm_compute. reflexivity.
  - repeat constructor.
Defined.


(** ** Window shift *)

Lemma for_range_ext {St : Type} (lo hi : Z) (f g : Z -> St -> option St) (s : St) :
  (forall i s, lo <= i < hi -> f i s = g i s) ->
  for_range lo hi f s = for_range lo hi g s.
Proof.
  unfold for_range. intros Hext.
  remember (Z.to_nat (hi - lo)) as n eqn:Hn.
  assert (lo + Z.of_nat n <= Z.max lo hi) as Hle by lia. clear Hn.
  revert lo s Hext Hle. induction n as [|n IH]; intros lo s Hext Hle; [done|].
  simpl. rewrite Hext by lia. destruct (g lo s) as [s'|]; [|done]. simpl.
  apply IH; [|lia]. intros i s0 Hi. apply Hext. lia.
Qed.

(** The horizontal shift loops move three bands of [m] columns, at column
    offsets [ka], [kb] and [kc]: band [kb] is copied to band [ka], band [kc]
    to band [kb], and band [kc] is cleared.  The bands must not overlap. *)
Section ColumnShift.
Variables (w h m ka kb kc : Z) (g0 : grid).
Hypothesis Hg0 : dims w h g0.
Hypothesis Hka : 0 <= ka /\ ka + m <= w.
Hypothesis Hkb : 0 <= kb /\ kb + m <= w.
Hypothesis Hkc : 0 <= kc /\ kc + m <= w.
Hypothesis Hab : ka + m <= kb \/ kb + m <= ka.
Hypothesis Hbc : kb + m <= kc \/ kc + m <= kb.
Hypothesis Hac : ka + m <= kc \/ kc + m <= ka.

#[warning="-notation-for-abbreviation"]
Local Notation band_inv := (bands_inv w h m ka kb kc g0).

Lemma shift3_inv (x y : Z) (g : grid) :
  0 <= x < m -> 0 <= y < h ->
  band_inv x y g ->
  exists g',
    CompoundCloudSystem.shift3 g (x + ka, y) (x + kb, y) (x + kc, y) = Some g' /\
    band_inv x (y + 1) g'.
Proof.
  intros Hx Hy [Hg Hinv]. unfold CompoundCloudSystem.shift3. simpl.
  destruct (proj2 (Hinv x y Hx Hy)) as (Ha & Hb & Hc).
  { unfold visited. lia. }
  destruct (dims_get_Some w h g0 (x + kb) y Hg0) as [v Hv]; [lia|lia|].
  destruct (dims_get_Some w h g0 (x + kc) y Hg0) as [v' Hv']; [lia|lia|].
  rewrite Hb, Hv. simpl.
  destruct (grid_set_is_Some g (x + ka) y v) as [g1 H1].
  { apply (dims_get w h); [done|lia]. }
  rewrite H1. simpl.
  pose proof (fun i j => grid_get_set _ _ _ _ _ i j H1) as Hget1.
  rewrite Hget1, decide_False, Hc, Hv' by lia. simpl.
  destruct (grid_set_is_Some g1 (x + kb) y v') as [g2 H2].
  { apply (dims_get w h); [by eapply grid_set_dims|lia]. }
  rewrite H2. simpl.
  pose proof (fun i j => grid_get_set _ _ _ _ _ i j H2) as Hget2.
  destruct (grid_set_is_Some g2 (x + kc) y (of_int 0)) as [g3 H3].
  { apply (dims_get w h); [by eauto using grid_set_dims|lia]. }
  pose proof (fun i j => grid_get_set _ _ _ _ _ i j H3) as Hget3.
  exists g3. split; [done|]. split; [by eauto using grid_set_dims|].
  assert (forall i j, grid_get g3 i j =
            if decide (i = x + kc /\ j = y) then Some (of_int 0)
            else if decide (i = x + kb /\ j = y) then Some v'
            else if decide (i = x + ka /\ j = y) then Some v
            else grid_get g i j) as Hget.
  { intros i j. by rewrite Hget3, Hget2, Hget1. }
  intros x' y' Hx' Hy'.
  destruct (decide (x' = x /\ y' = y)) as [[-> ->]|Hne].
  - split; [|unfold visited; lia]. intros _. rewrite !Hget.
    rewrite (decide_False (P := x + ka = x + kc /\ _)) by lia.
    rewrite (decide_False (P := x + ka = x + kb /\ _)) by lia.
    rewrite (decide_True (P := x + ka = x + ka /\ _)) by lia.
    rewrite (decide_False (P := x + kb = x + kc /\ _)) by lia.
    rewrite (decide_True (P := x + kb = x + kb /\ _)) by lia.
    rewrite (decide_True (P := x + kc = x + kc /\ _)) by lia.
    done.
  - assert (forall k k', (k = ka \/ k = kb \/ k = kc) ->
                         (k' = ka \/ k' = kb \/ k' = kc) ->
                         ~ (x' + k = x + k' /\ y' = y)) as Hsep by lia.
    assert (forall k, (k = ka \/ k = kb \/ k = kc) ->
                      grid_get g3 (x' + k) y' = grid_get g (x' + k) y') as Hsame.
    { intros k Hk. rewrite Hget.
      rewrite !decide_False; [done| | |]; apply Hsep; auto. }
    rewrite !Hsame by auto.
    split.
    + intros Hv3. apply Hinv; [done|done|]. unfold visited in *. lia.
    + intros Hv3. apply Hinv; [done|done|]. unfold visited in *. lia.
Qed.

Lemma shift_bands :
  exists g,
    for_range 0 m (fun x =>
      for_range 0 h (fun y d =>
        CompoundCloudSystem.shift3 d (x + ka, y) (x + kb, y) (x + kc, y))) g0
      = Some g /\
    dims w h g /\
    forall x y, 0 <= x < m -> 0 <= y < h ->
      grid_get g (x + ka) y = grid_get g0 (x + kb) y /\
      grid_get g (x + kb) y = grid_get g0 (x + kc) y /\
      grid_get g (x + kc) y = Some (of_int 0).
Proof.
  destruct (decide (0 < m)) as [Hm|Hm].
  - destruct (nested_for_inv band_inv 0 m 0 h
      (fun x y d => CompoundCloudSystem.shift3 d (x + ka, y) (x + kb, y) (x + kc, y))
      g0) as (g & Hrun & Hg & Hcells).
    + lia.
    + intros _. apply (dims_nonneg w h g0 Hg0). lia.
    + split; [done|]. intros x' y' Hx' Hy'. split; [unfold visited; lia|done].
    + intros x y g Hx Hy. by apply shift3_inv.
    + intros x g Hx [Hg Hcells]. split; [done|].
      intros x' y' Hx' Hy'. destruct (Hcells x' y' Hx' Hy') as [H1 H2]. split.
      * intros Hv. apply H1. by apply visited_row_end.
      * intros Hv. apply H2. intros Hv'. apply Hv. by apply visited_row_end.
    + exists g. split; [done|]. split; [done|].
      intros x y Hx Hy. apply Hcells; [done|done|]. unfold visited. lia.
  - rewrite for_range_empty by lia. exists g0. split; [done|]. split; [done|].
    intros x y Hx Hy. lia.
Qed.

End ColumnShift.

Lemma shiftLeft_spec (s : system) (d0 : grid) :
  let w := CompoundCloudSystem.width s in
  let h := CompoundCloudSystem.height s in
  let m := w ÷ 3 in
  let k1 := h ÷ 3 in
  let k2 := h * 2 ÷ 3 in
  dims w h d0 -> 0 <= m <= k1 -> k1 + m <= k2 -> k2 + m <= w ->
  exists d,
    CompoundCloudSystem.shiftLeft s d0 = Some d /\ dims w h d /\
    forall x y, 0 <= x < m -> 0 <= y < h ->
      grid_get d (x + k1) y = grid_get d0 x y /\
      grid_get d (x + k2) y = grid_get d0 (x + k1) y /\
      grid_get d x y = Some (of_int 0).
Proof.
  intros w h m k1 k2 Hd Hm Hk Hw.
  destruct (shift_bands w h m k2 k1 0 d0 Hd) as (d & Hrun & Hdims & Hcells);
    try lia.
  exists d. split; [|split; [done|]].
  - unfold CompoundCloudSystem.shiftLeft. fold w h m k1 k2. rewrite <- Hrun.
    apply for_range_ext. intros x g Hx.
    apply for_range_ext. intros y g' Hy. by rewrite Z.add_0_r.
  - intros x y Hx Hy. destruct (Hcells x y Hx Hy) as (H1 & H2 & H3).
    rewrite Z.add_0_r in H2, H3. done.
Qed.

Lemma shiftRight_spec (s : system) (d0 : grid) :
  let w := CompoundCloudSystem.width s in
  let h := CompoundCloudSystem.height s in
  let m := w ÷ 3 in
  let k1 := h ÷ 3 in
  let k2 := h * 2 ÷ 3 in
  dims w h d0 -> 0 <= m <= k1 -> k1 + m <= k2 -> k2 + m <= w ->
  exists d,
    CompoundCloudSystem.shiftRight s d0 = Some d /\ dims w h d /\
    forall x y, 0 <= x < m -> 0 <= y < h ->
      grid_get d x y = grid_get d0 (x + k1) y /\
      grid_get d (x + k1) y = grid_get d0 (x + k2) y /\
      grid_get d (x + k2) y = Some (of_int 0).
Proof.
  intros w h m k1 k2 Hd Hm Hk Hw.
  destruct (shift_bands w h m 0 k1 k2 d0 Hd) as (d & Hrun & Hdims & Hcells);
    try lia.
  exists d. split; [|split; [done|]].
  - unfold CompoundCloudSystem.shiftRight. fold w h m k1 k2. rewrite <- Hrun.
    apply for_range_ext. intros x g Hx.
    apply for_range_ext. intros y g' Hy. by rewrite Z.add_0_r.
  - intros x y Hx Hy. destruct (Hcells x y Hx Hy) as (H1 & H2 & H3).
    rewrite Z.add_0_r in H1. done.
Qed.

(** On a square window the three bands of the horizontal shifts never
    overlap and stay inside the grid. *)
Lemma square_bands (n : Z) :
  0 <= n ->
  0 <= n ÷ 3 <= n ÷ 3 /\ n ÷ 3 + n ÷ 3 <= n * 2 ÷ 3 /\ n * 2 ÷ 3 + n ÷ 3 <= n.
Proof.
  intros Hn. rewrite !Z.quot_div_nonneg by lia.
  pose proof (Z.div_mod n 3 ltac:(lia)).
  pose proof (Z.mod_pos_bound n 3 ltac:(lia)).
  pose proof (Z.div_mod (n * 2) 3 ltac:(lia)).
  pose proof (Z.mod_pos_bound (n * 2) 3 ltac:(lia)).
  lia.
Qed.

(** C7, as stated, fails: after the window has shifted in +x (the cloud's
    cached [offsetX] is below the window's), the mass at cell (1, 3) of the
    6 by 6 cloud is not found at [(1 + height/3, 3) = (3, 3)]. *)
Lemma shift_after_plus_x_not_to_higher_x :
  ~ (exists c',
       CompoundCloudSystem.shiftCloud
         (CompoundCloudSystem.set_offsetX system6 2) cloud6 = Some c' /\
       grid_get (CompoundCloudComponent.density c') (1 + 6 ÷ 3) 3
         = grid_get (CompoundCloudComponent.density cloud6) 1 3).
Proof.
  intros (c' & Hrun & Hcell).
  vm_compute in Hrun. injection Hrun as <-.
  vm_compute in Hcell. discriminate.
Qed.

(** C7, amended: a cloud whose cached offset differs from the window's in
    x only is shifted horizontally by [height/3] columns (not [width/3]),
    in bands of [width/3] columns; provided the bands do not overlap and
    fit the grid ([width/3 <= height/3], [height/3 + width/3 <= height*2/3],
    [height*2/3 + width/3 <= width], all true on square windows):
    - after the window shifted in -x (cached [offsetX] above the window's,
      the "moved left" branch) content slides toward higher x: the mass at
      [(x, y)] with [x < width/3] is relocated to [(x + height/3, y)], the
      mass at [(x + height/3, y)] to [(x + height*2/3, y)], and the revealed
      columns [x < width/3] are zero-filled;
    - after the window shifted in +x (cached [offsetX] below the window's,
      the "moved right" branch) content slides toward lower x: [(x, y)]
      receives the mass of [(x + height/3, y)], [(x + height/3, y)] that of
      [(x + height*2/3, y)], and the revealed columns at
      [x + height*2/3] are zero-filled.
    In both cases the cloud's cached offset is set to the window's. *)
Theorem shiftCloud_horizontal (s : system) (c : cloud) :
  let w := CompoundCloudSystem.width s in
  let h := CompoundCloudSystem.height s in
  let m := w ÷ 3 in
  let k1 := h ÷ 3 in
  let k2 := h * 2 ÷ 3 in
  let d0 := CompoundCloudComponent.density c in
  dims w h d0 ->
  CompoundCloudComponent.offsetY c = CompoundCloudSystem.offsetY s ->
  0 <= m <= k1 -> k1 + m <= k2 -> k2 + m <= w ->
  (CompoundCloudComponent.offsetX c > CompoundCloudSystem.offsetX s ->
   exists c',
     CompoundCloudSystem.shiftCloud s c = Some c' /\ in_sync s c' /\
     forall x y, 0 <= x < m -> 0 <= y < h ->
       grid_get (CompoundCloudComponent.density c') (x + k1) y = grid_get d0 x y /\
       grid_get (CompoundCloudComponent.density c') (x + k2) y
         = grid_get d0 (x + k1) y /\
       grid_get (CompoundCloudComponent.density c') x y = Some (of_int 0)) /\
  (CompoundCloudComponent.offsetX c < CompoundCloudSystem.offsetX s ->
   exists c',
     CompoundCloudSystem.shiftCloud s c = Some c' /\ in_sync s c' /\
     forall x y, 0 <= x < m -> 0 <= y < h ->
       grid_get (CompoundCloudComponent.density c') x y = grid_get d0 (x + k1) y /\
       grid_get (CompoundCloudComponent.density c') (x + k1) y
         = grid_get d0 (x + k2) y /\
       grid_get (CompoundCloudComponent.density c') (x + k2) y = Some (of_int 0)).
Proof.
  intros w h m k1 k2 d0 Hd Hy Hm Hk Hw. split.
  - intros Hx. destruct (shiftLeft_spec s d0 Hd Hm Hk Hw) as (d & Hrun & _ & Hcells).
    unfold CompoundCloudSystem.shiftCloud.
    rewrite decide_True by lia.
    rewrite (decide_False (P := _ = _ /\ _ < _)) by lia.
    rewrite (decide_False (P := _ < _ /\ _ = _)) by lia.
    rewrite (decide_True (P := _ > _ /\ _ = _)) by lia.
    fold d0. rewrite Hrun. simpl. eexists. split; [done|]. split; [done|].
    exact Hcells.
  - intros Hx. destruct (shiftRight_spec s d0 Hd Hm Hk Hw) as (d & Hrun & _ & Hcells).
    unfold CompoundCloudSystem.shiftCloud.
    rewrite decide_True by lia.
    rewrite (decide_False (P := _ = _ /\ _ < _)) by lia.
    rewrite (decide_True (P := _ < _ /\ _ = _)) by lia.
    fold d0. rewrite Hrun. simpl. eexists. split; [done|]. split; [done|].
    exact Hcells.
Qed.

Lemma shiftCloud_horizontal_witness :
  exists c',
    CompoundCloudSystem.shiftCloud
      (CompoundCloudSystem.set_offsetX system6 (-2)) cloud6 = Some c' /\
    in_sync (CompoundCloudSystem.set_offsetX system6 (-2)) c' /\
    forall x y, 0 <= x < 6 ÷ 3 -> 0 <= y < 6 ->
      grid_get (CompoundCloudComponent.density c') (x + 6 ÷ 3) y
        = grid_get (CompoundCloudComponent.density cloud6) x y /\
      grid_get (CompoundCloudComponent.density c') (x + 6 * 2 ÷ 3) y
        = grid_get (CompoundCloudComponent.density cloud6) (x + 6 ÷ 3) y /\
      grid_get (CompoundCloudComponent.density c') x y = Some (of_int 0).
Proof.
  apply (shiftCloud_horizontal (CompoundCloudSystem.set_offsetX system6 (-2)) cloud6).
  - split; [reflexivity|]. repeat constructor.
  - reflexivity.
  - apply (square_bands 6). lia.
  - apply (square_bands 6). lia.
  - apply (square_bands 6). lia.
  - simpl. lia.
Defined.

(** ** Limits of the bounds argument *)

(** The two hypotheses of the bounds theorem cannot be dropped.  A NaN
    coordinate passes both clamp tests unchanged and its conversion to
    [int] is undefined; and on a window of [2^23 + 3] columns the bound
    [width - 1.5f] rounds up to [width - 1], so that [x1] would be [width].
    The constructor fixes both dimensions at 120. *)
Remark clamp_nan_undefined :
  to_int (CompoundCloudSystem.clamp 120 S754_nan) = None.
Proof. reflexivity. Qed.

Remark clamp_bound_rounds_up :
  to_int (CompoundCloudSystem.clamp (2 ^ 23 + 3) (S754_infinity false))
    = Some (2 ^ 23 + 3 - 1).
Proof. vm_compute. reflexivity. Qed.


(** ** One tick on the 6 by 6 scenario *)

(** Diffusion followed by advection with a zero velocity field: the centre
    keeps its diffused value, and the two neighbours that diffusion had
    raised to about 0.92 are below the advection threshold and dropped. *)
Example simulate_6x6 :
  exists c',
    CompoundCloudSystem.simulate system6 1
      (CompoundCloudComponent.mk 6 6 0 0 1 impulse6 zero6) = Some c' /\
    grid_get (CompoundCloudComponent.density c') 3 3
      = grid_get (CompoundCloudComponent.oldDens c') 3 3 /\
    grid_get (CompoundCloudComponent.density c') 4 3 = Some (of_int 0) /\
    grid_get (CompoundCloudComponent.density c') 3 4 = Some (of_int 0).
Proof.
  eexists. split; [vm_compute; reflexivity|].
  repeat split; vm_compute; reflexivity.
Qed.

(** A whole tick with the observer at the origin: no rebase, one cloud. *)
Example Run_6x6 :
  exists c',
    CompoundCloudSystem.Run 1 (of_int 0) (of_int 0) 1
      (system6, [CompoundCloudComponent.mk 6 6 0 0 1 impulse6 zero6])
      = Some (system6, [c']) /\
    grid_get (CompoundCloudComponent.density c') 3 3
      = Some (S754_finite false 12603077 (-17)).
Proof.
  eexists. split; vm_compute; reflexivity.
Qed.


(** * Further properties of the code *)

(** ** Vertical window shift *)

(** The vertical shift loops move three bands of [m] rows, at row offsets
    [ka], [kb] and [kc]. *)
Section RowShift.
Variables (w h m ka kb kc : Z) (g0 : grid).
Hypothesis Hg0 : dims w h g0.
Hypothesis Hm : 0 <= m.
Hypothesis Hka : 0 <= ka /\ ka + m <= h.
Hypothesis Hkb : 0 <= kb /\ kb + m <= h.
Hypothesis Hkc : 0 <= kc /\ kc + m <= h.
Hypothesis Hab : ka + m <= kb \/ kb + m <= ka.
Hypothesis Hbc : kb + m <= kc \/ kc + m <= kb.
Hypothesis Hac : ka + m <= kc \/ kc + m <= ka.

#[warning="-notation-for-abbreviation"]
Local Notation row_inv := (rows_inv w h m ka kb kc g0).

Lemma shift3_rows_inv (x y : Z) (g : grid) :
  0 <= x < w -> 0 <= y < m ->
  row_inv x y g ->
  exists g',
    CompoundCloudSystem.shift3 g (x, y + ka) (x, y + kb) (x, y + kc) = Some g' /\
    row_inv x (y + 1) g'.
Proof.
  intros Hx Hy (Hg & Hinv & Hrest). unfold CompoundCloudSystem.shift3. simpl.
  destruct (proj2 (Hinv x y Hx Hy)) as (Ha & Hb & Hc).
  { unfold visited. lia. }
  destruct (dims_get_Some w h g0 x (y + kb) Hg0) as [v Hv]; [lia|lia|].
  destruct (dims_get_Some w h g0 x (y + kc) Hg0) as [v' Hv']; [lia|lia|].
  rewrite Hb, Hv. simpl.
  destruct (grid_set_is_Some g x (y + ka) v) as [g1 H1].
  { apply (dims_get w h); [done|lia]. }
  rewrite H1. simpl.
  pose proof (fun i j => grid_get_set _ _ _ _ _ i j H1) as Hget1.
  rewrite Hget1, decide_False, Hc, Hv' by lia. simpl.
  destruct (grid_set_is_Some g1 x (y + kb) v') as [g2 H2].
  { apply (dims_get w h); [by eapply grid_set_dims|lia]. }
  rewrite H2. simpl.
  pose proof (fun i j => grid_get_set _ _ _ _ _ i j H2) as Hget2.
  destruct (grid_set_is_Some g2 x (y + kc) (of_int 0)) as [g3 H3].
  { apply (dims_get w h); [by eauto using grid_set_dims|lia]. }
  pose proof (fun i j => grid_get_set _ _ _ _ _ i j H3) as Hget3.
  exists g3. split; [done|]. split; [by eauto using grid_set_dims|].
  assert (forall i j, grid_get g3 i j =
            if decide (i = x /\ j = y + kc) then Some (of_int 0)
            else if decide (i = x /\ j = y + kb) then Some v'
            else if decide (i = x /\ j = y + ka) then Some v
            else grid_get g i j) as Hget.
  { intros i j. by rewrite Hget3, Hget2, Hget1. }
  split.
  - intros x' y' Hx' Hy'.
    destruct (decide (x' = x /\ y' = y)) as [[-> ->]|Hne].
    + split; [|unfold visited; lia]. intros _. rewrite !Hget.
      rewrite (decide_False (P := _ /\ y + ka = y + kc)) by lia.
      rewrite (decide_False (P := _ /\ y + ka = y + kb)) by lia.
      rewrite (decide_True (P := _ /\ y + ka = y + ka)) by lia.
      rewrite (decide_False (P := _ /\ y + kb = y + kc)) by lia.
      rewrite (decide_True (P := _ /\ y + kb = y + kb)) by lia.
      rewrite (decide_True (P := _ /\ y + kc = y + kc)) by lia.
      done.
    + assert (forall k k', (k = ka \/ k = kb \/ k = kc) ->
                           (k' = ka \/ k' = kb \/ k' = kc) ->
                           ~ (x' = x /\ y' + k = y + k')) as Hsep by lia.
      assert (forall k, (k = ka \/ k = kb \/ k = kc) ->
                        grid_get g3 x' (y' + k) = grid_get g x' (y' + k)) as Hsame.
      { intros k Hk. rewrite Hget.
        rewrite !decide_False; [done| | |]; apply Hsep; auto. }
      rewrite !Hsame by auto.
      split.
      * intros Hv3. apply Hinv; [done|done|]. unfold visited in *. lia.
      * intros Hv3. apply Hinv; [done|done|]. unfold visited in *. lia.
  - intros i j Hja Hjb Hjc. rewrite Hget, !decide_False by lia. by apply Hrest.
Qed.

Lemma shift_rows :
  exists g,
    for_range 0 w (fun x =>
      for_range 0 m (fun y d =>
        CompoundCloudSystem.shift3 d (x, y + ka) (x, y + kb) (x, y + kc))) g0
      = Some g /\
    dims w h g /\
    (forall x y, 0 <= x < w -> 0 <= y < m ->
      grid_get g x (y + ka) = grid_get g0 x (y + kb) /\
      grid_get g x (y + kb) = grid_get g0 x (y + kc) /\
      grid_get g x (y + kc) = Some (of_int 0)) /\
    (forall i j,
       ~ 0 <= j - ka < m -> ~ 0 <= j - kb < m -> ~ 0 <= j - kc < m ->
       grid_get g i j = grid_get g0 i j).
Proof.
  destruct (nested_for_inv row_inv 0 w 0 m
    (fun x y d => CompoundCloudSystem.shift3 d (x, y + ka) (x, y + kb) (x, y + kc))
    g0) as (g & Hrun & Hg & Hcells & Hrest).
  - apply (dims_nonneg w h g0 Hg0).
  - done.
  - split; [done|]. split; [|done].
    intros x' y' Hx' Hy'. split; [unfold visited; lia|done].
  - intros x y g Hx Hy. by apply shift3_rows_inv.
  - intros x g Hx (Hg & Hcells & Hrest). split; [done|]. split; [|done].
    intros x' y' Hx' Hy'. destruct (Hcells x' y' Hx' Hy') as [H1 H2]. split.
    + intros Hv. apply H1. by apply visited_row_end.
    + intros Hv. apply H2. intros Hv'. apply Hv. by apply visited_row_end.
  - exists g. split; [done|]. split; [done|]. split; [|done].
    intros x y Hx Hy. apply Hcells; [done|done|]. unfold visited. lia.
Qed.

End RowShift.

(** The three bands of [height/3] rows never overlap: the vertical shifts
    use [height/3] both as band height and as distance. *)
Lemma third_rows (n : Z) :
  0 <= n ->
  0 <= n ÷ 3 /\ n ÷ 3 + n ÷ 3 <= n * 2 ÷ 3 /\ n * 2 ÷ 3 + n ÷ 3 <= n.
Proof. intros Hn. pose proof (square_bands n Hn). lia. Qed.

Lemma shiftUp_spec (s : system) (d0 : grid) :
  let w := CompoundCloudSystem.width s in
  let h := CompoundCloudSystem.height s in
  let k1 := h ÷ 3 in
  let k2 := h * 2 ÷ 3 in
  dims w h d0 ->
  exists d,
    CompoundCloudSystem.shiftUp s d0 = Some d /\ dims w h d /\
    (forall x y, 0 <= x < w -> 0 <= y < k1 ->
      grid_get d x y = grid_get d0 x (y + k1) /\
      grid_get d x (y + k1) = grid_get d0 x (y + k2) /\
      grid_get d x (y + k2) = Some (of_int 0)) /\
    (forall x y, k1 + k1 <= y < k2 \/ k2 + k1 <= y ->
      grid_get d x y = grid_get d0 x y).
Proof.
  intros w h k1 k2 Hd.
  destruct (decide (0 < w)) as [Hw|Hw].
  - assert (0 <= h) as Hh by (apply (dims_nonneg w h d0 Hd); lia).
    pose proof (third_rows h Hh) as (H1 & H2 & H3). fold k1 k2 in H1, H2, H3.
    destruct (shift_rows w h k1 0 k1 k2 d0 Hd) as (d & Hrun & Hdims & Hcells & Hrest);
      try lia.
    exists d. split; [|split; [done|split]].
    + unfold CompoundCloudSystem.shiftUp. fold w h k1 k2. rewrite <- Hrun.
      apply for_range_ext. intros x g Hx.
      apply for_range_ext. intros y g' Hy. by rewrite Z.add_0_r.
    + intros x y Hx Hy. destruct (Hcells x y Hx Hy) as (Ha & Hb & Hc).
      rewrite Z.add_0_r in Ha. done.
    + intros x y Hy. apply Hrest; lia.
  - exists d0. unfold CompoundCloudSystem.shiftUp. fold w.
    rewrite for_range_empty by lia. split; [done|]. split; [done|].
    split; [intros; lia|done].
Qed.

Lemma shiftDown_spec (s : system) (d0 : grid) :
  let w := CompoundCloudSystem.width s in
  let h := CompoundCloudSystem.height s in
  let k1 := h ÷ 3 in
  let k2 := h * 2 ÷ 3 in
  dims w h d0 ->
  exists d,
    CompoundCloudSystem.shiftDown s d0 = Some d /\ dims w h d /\
    (forall x y, 0 <= x < w -> 0 <= y < k1 ->
      grid_get d x (y + k2) = grid_get d0 x (y + k1) /\
      grid_get d x (y + k1) = grid_get d0 x y /\
      grid_get d x y = Some (of_int 0)) /\
    (forall x y, k1 + k1 <= y < k2 \/ k2 + k1 <= y ->
      grid_get d x y = grid_get d0 x y).
Proof.
  intros w h k1 k2 Hd.
  destruct (decide (0 < w)) as [Hw|Hw].
  - assert (0 <= h) as Hh by (apply (dims_nonneg w h d0 Hd); lia).
    pose proof (third_rows h Hh) as (H1 & H2 & H3). fold k1 k2 in H1, H2, H3.
    destruct (shift_rows w h k1 k2 k1 0 d0 Hd) as (d & Hrun & Hdims & Hcells & Hrest);
      try lia.
    exists d. split; [|split; [done|split]].
    + unfold CompoundCloudSystem.shiftDown. fold w h k1 k2. rewrite <- Hrun.
      apply for_range_ext. intros x g Hx.
      apply for_range_ext. intros y g' Hy. by rewrite Z.add_0_r.
    + intros x y Hx Hy. destruct (Hcells x y Hx Hy) as (Ha & Hb & Hc).
      rewrite Z.add_0_r in Hb, Hc. done.
    + intros x y Hy. apply Hrest; lia.
  - exists d0. unfold CompoundCloudSystem.shiftDown. fold w.
    rewrite for_range_empty by lia. split; [done|]. split; [done|].
    split; [intros; lia|done].
Qed.

(** X3.  A cloud whose cached offset differs from the window's in y only is
    shifted vertically by [height/3] rows, and this is defined on every
    [width] by [height] grid (unlike the horizontal shifts, the vertical
    ones use [height/3] for both the band height and the distance, so the
    bands never overlap):
    - cached [offsetY] below the window's ("moved up"): [(x, y)] with
      [y < height/3] receives the content of [(x, y + height/3)], that cell
      the content of [(x, y + height*2/3)], and the rows at
      [y + height*2/3] are zero-filled;
    - cached [offsetY] above the window's ("moved downwards"): the content
      of [(x, y)] moves to [(x, y + height/3)], that of [(x, y + height/3)]
      to [(x, y + height*2/3)], and the rows [y < height/3] are zero-filled.
    Rows outside the three bands (they exist when [height] is not a
    multiple of 3) keep their content.  In both cases the cloud's cached
    offset is set to the window's. *)
Theorem shiftCloud_vertical (s : system) (c : cloud) :
  let w := CompoundCloudSystem.width s in
  let h := CompoundCloudSystem.height s in
  let k1 := h ÷ 3 in
  let k2 := h * 2 ÷ 3 in
  let d0 := CompoundCloudComponent.density c in
  dims w h d0 ->
  CompoundCloudComponent.offsetX c = CompoundCloudSystem.offsetX s ->
  (CompoundCloudComponent.offsetY c < CompoundCloudSystem.offsetY s ->
   exists c',
     CompoundCloudSystem.shiftCloud s c = Some c' /\ in_sync s c' /\
     dims w h (CompoundCloudComponent.density c') /\
     (forall x y, 0 <= x < w -> 0 <= y < k1 ->
        grid_get (CompoundCloudComponent.density c') x y = grid_get d0 x (y + k1) /\
        grid_get (CompoundCloudComponent.density c') x (y + k1)
          = grid_get d0 x (y + k2) /\
        grid_get (CompoundCloudComponent.density c') x (y + k2) = Some (of_int 0)) /\
     (forall x y, k1 + k1 <= y < k2 \/ k2 + k1 <= y ->
        grid_get (CompoundCloudComponent.density c') x y = grid_get d0 x y)) /\
  (CompoundCloudComponent.offsetY c > CompoundCloudSystem.offsetY s ->
   exists c',
     CompoundCloudSystem.shiftCloud s c = Some c' /\ in_sync s c' /\
     dims w h (CompoundCloudComponent.density c') /\
     (forall x y, 0 <= x < w -> 0 <= y < k1 ->
        grid_get (CompoundCloudComponent.density c') x (y + k2)
          = grid_get d0 x (y + k1) /\
        grid_get (CompoundCloudComponent.density c') x (y + k1) = grid_get d0 x y /\
        grid_get (CompoundCloudComponent.density c') x y = Some (of_int 0)) /\
     (forall x y, k1 + k1 <= y < k2 \/ k2 + k1 <= y ->
        grid_get (CompoundCloudComponent.density c') x y = grid_get d0 x y)).
Proof.
  intros w h k1 k2 d0 Hd Hx. split.
  - intros Hy. destruct (shiftUp_spec s d0 Hd) as (d & Hrun & Hdims & Hcells & Hrest).
    unfold CompoundCloudSystem.shiftCloud.
    rewrite decide_True by lia.
    rewrite (decide_True (P := _ = _ /\ _ < _)) by lia.
    fold d0. rewrite Hrun. simpl. eexists. split; [done|]. split; [done|].
    split; [exact Hdims|]. split; [exact Hcells|exact Hrest].
  - intros Hy. destruct (shiftDown_spec s d0 Hd) as (d & Hrun & Hdims & Hcells & Hrest).
    unfold CompoundCloudSystem.shiftCloud.
    rewrite decide_True by lia.
    rewrite (decide_False (P := _ = _ /\ _ < _)) by lia.
    rewrite (decide_False (P := _ < _ /\ _ = _)) by lia.
    rewrite (decide_False (P := _ > _ /\ _ = _)) by lia.
    rewrite (decide_True (P := _ = _ /\ _ > _)) by lia.
    fold d0. rewrite Hrun. simpl. eexists. split; [done|]. split; [done|].
    split; [exact Hdims|]. split; [exact Hcells|exact Hrest].
Qed.

Lemma shiftCloud_vertical_witness :
  exists c',
    CompoundCloudSystem.shiftCloud
      (CompoundCloudSystem.set_offsetY system6 2) cloud6 = Some c' /\
    in_sync (CompoundCloudSystem.set_offsetY system6 2) c' /\
    dims 6 6 (CompoundCloudComponent.density c') /\
    (forall x y, 0 <= x < 6 -> 0 <= y < 6 ÷ 3 ->
       grid_get (CompoundCloudComponent.density c') x y
         = grid_get (CompoundCloudComponent.density cloud6) x (y + 6 ÷ 3) /\
       grid_get (CompoundCloudComponent.density c') x (y + 6 ÷ 3)
         = grid_get (CompoundCloudComponent.density cloud6) x (y + 6 * 2 ÷ 3) /\
       grid_get (CompoundCloudComponent.density c') x (y + 6 * 2 ÷ 3)
         = Some (of_int 0)) /\
    (forall x y, 6 ÷ 3 + 6 ÷ 3 <= y < 6 * 2 ÷ 3 \/ 6 * 2 ÷ 3 + 6 ÷ 3 <= y ->
       grid_get (CompoundCloudComponent.density c') x y
         = grid_get (CompoundCloudComponent.density cloud6) x y).
Proof.
  apply (shiftCloud_vertical (CompoundCloudSystem.set_offsetY system6 2) cloud6).
  - split; [reflexivity|]. repeat constructor.
  - reflexivity.
  - simpl. lia.
Defined.


(** ** The stale-offset block in general *)

(** The offset update changes nothing but the two offsets. *)
Lemma rebaseOffsets_frame (s : system) (px py : float) :
  let s' := CompoundCloudSystem.rebaseOffsets s px py in
  CompoundCloudSystem.noiseScale s' = CompoundCloudSystem.noiseScale s /\
  CompoundCloudSystem.width s' = CompoundCloudSystem.width s /\
  CompoundCloudSystem.height s' = CompoundCloudSystem.height s /\
  CompoundCloudSystem.gridSize s' = CompoundCloudSystem.gridSize s /\
  CompoundCloudSystem.xVelocity s' = CompoundCloudSystem.xVelocity s /\
  CompoundCloudSystem.yVelocity s' = CompoundCloudSystem.yVelocity s.
Proof.
  unfold CompoundCloudSystem.rebaseOffsets.
  repeat (match goal with
          | |- context [if ?b then _ else _] => destruct b
          end; simpl); done.
Qed.

Lemma shiftCloud_Some (s : system) (c c' : cloud) :
  CompoundCloudSystem.shiftCloud s c = Some c' ->
  in_sync s c' /\
  CompoundCloudComponent.width c' = CompoundCloudComponent.width c /\
  CompoundCloudComponent.height c' = CompoundCloudComponent.height c /\
  CompoundCloudComponent.gridSize c' = CompoundCloudComponent.gridSize c /\
  CompoundCloudComponent.oldDens c' = CompoundCloudComponent.oldDens c.
Proof.
  unfold CompoundCloudSystem.shiftCloud.
  destruct (decide _) as [Hstale|Hsync].
  - intros H. apply bind_Some in H as (d & _ & H). injection H as <-. by simpl.
  - intros H. injection H as <-. split; [|done]. unfold in_sync.
    destruct (decide (CompoundCloudComponent.offsetX c = CompoundCloudSystem.offsetX s));
      destruct (decide (CompoundCloudComponent.offsetY c = CompoundCloudSystem.offsetY s));
      try done; exfalso; apply Hsync; auto.
Qed.

Lemma shiftCloud_diagonal (s : system) (c : cloud) :
  CompoundCloudComponent.offsetX c <> CompoundCloudSystem.offsetX s ->
  CompoundCloudComponent.offsetY c <> CompoundCloudSystem.offsetY s ->
  CompoundCloudSystem.shiftCloud s c = Some (resync s c).
Proof.
  intros Hx Hy. unfold CompoundCloudSystem.shiftCloud.
  rewrite decide_True by auto.
  rewrite (decide_False (P := _ = _ /\ _ < _)) by (intros [? _]; done).
  rewrite (decide_False (P := _ < _ /\ _ = _)) by (intros [_ ?]; done).
  rewrite (decide_False (P := _ > _ /\ _ = _)) by (intros [_ ?]; done).
  rewrite (decide_False (P := _ = _ /\ _ > _)) by (intros [? _]; done).
  done.
Qed.

Lemma shiftCloud_defined (s : system) (c : cloud) :
  bands_fit s ->
  dims (CompoundCloudSystem.width s) (CompoundCloudSystem.height s)
       (CompoundCloudComponent.density c) ->
  exists c',
    CompoundCloudSystem.shiftCloud s c = Some c' /\
    dims (CompoundCloudSystem.width s) (CompoundCloudSystem.height s)
         (CompoundCloudComponent.density c').
Proof.
  intros (Hm & Hk & Hw) Hd. unfold CompoundCloudSystem.shiftCloud.
  destruct (decide _) as [Hstale|Hsync]; [|by exists c].
  destruct (decide (_ = _ /\ _ < _)).
  { destruct (shiftUp_spec s _ Hd) as (d & -> & Hdims & _). simpl. by eexists. }
  destruct (decide (_ < _ /\ _ = _)).
  { destruct (shiftRight_spec s _ Hd Hm Hk Hw) as (d & -> & Hdims & _). simpl.
    by eexists. }
  destruct (decide (_ > _ /\ _ = _)).
  { destruct (shiftLeft_spec s _ Hd Hm Hk Hw) as (d & -> & Hdims & _). simpl.
    by eexists. }
  destruct (decide (_ = _ /\ _ > _)).
  { destruct (shiftDown_spec s _ Hd) as (d & -> & Hdims & _). simpl. by eexists. }
  simpl. by eexists.
Qed.

(** X4.  A window move along both axes in one tick is not applied to the
    clouds' content: when the offset update changes [offsetX] and [offsetY]
    together, none of the four shift branches matches, so every cloud that
    was in sync with the old window keeps its density grid cell for cell
    and only has its cached offsets replaced by the new ones. *)
Theorem rebase_diagonal_keeps_content (s : system) (clouds : list cloud)
    (px py : float) :
  let s' := CompoundCloudSystem.rebaseOffsets s px py in
  CompoundCloudSystem.offsetX s' <> CompoundCloudSystem.offsetX s ->
  CompoundCloudSystem.offsetY s' <> CompoundCloudSystem.offsetY s ->
  Forall (in_sync s) clouds ->
  CompoundCloudSystem.rebase px py (s, clouds) = Some (s', resync s' <$> clouds).
Proof.
  intros s' Hx Hy Hsync. unfold CompoundCloudSystem.rebase. simpl. fold s'.
  assert (mapM (CompoundCloudSystem.shiftCloud s') clouds
            = Some (resync s' <$> clouds)) as ->; [|done].
  apply mapM_Some. apply Forall2_fmap_r. apply Forall_Forall2_diag.
  eapply Forall_impl; [exact Hsync|]. intros c [Hcx Hcy]. simpl.
  apply shiftCloud_diagonal; congruence.
Qed.

Lemma rebase_diagonal_keeps_content_witness :
  CompoundCloudSystem.rebase (of_int 1000) (of_int 1000)
    (CompoundCloudSystem.init,
     [CompoundCloudSystem.initCloud CompoundCloudSystem.init])
  = Some (CompoundCloudSystem.rebaseOffsets CompoundCloudSystem.init
            (of_int 1000) (of_int 1000),
          resync (CompoundCloudSystem.rebaseOffsets CompoundCloudSystem.init
                    (of_int 1000) (of_int 1000))
            <$> [CompoundCloudSystem.initCloud CompoundCloudSystem.init]).
Proof.
  apply (rebase_diagonal_keeps_content CompoundCloudSystem.init
           [CompoundCloudSystem.initCloud CompoundCloudSystem.init]
           (of_int 1000) (of_int 1000)).
  - vm_compute. discriminate.
  - vm_compute. discriminate.
  - repeat constructor.
Defined.

(** X5.  Whenever the window part of a tick is defined it leaves every
    cloud in sync with the (possibly moved) window and keeps the number of
    clouds; from then on, as long as the observer stays within the central
    third of the new window, further rebase checks return the state
    unchanged. *)
Theorem rebase_establishes_sync (px py : float) (st st' : system * list cloud) :
  CompoundCloudSystem.rebase px py st = Some st' ->
  fst st' = CompoundCloudSystem.rebaseOffsets (fst st) px py /\
  length (snd st') = length (snd st) /\
  Forall (in_sync (fst st')) (snd st') /\
  (forall px' py' n,
     triggered (fst st') px' py' = false -> rebase_n n px' py' st' = Some st').
Proof.
  unfold CompoundCloudSystem.rebase. intros H.
  apply bind_Some in H as (clouds & Hmap & H). injection H as <-. simpl.
  apply mapM_Some in Hmap.
  assert (Forall (in_sync (CompoundCloudSystem.rebaseOffsets (fst st) px py)) clouds)
    as Hsync.
  { induction Hmap as [|c c' l l' Hc _ IH]; constructor; [|done].
    by apply shiftCloud_Some in Hc as [? _]. }
  split; [done|]. split; [symmetry; by eapply Forall2_length|]. split; [done|].
  intros px' py' n Htrig. induction n as [|n IH]; [done|].
  simpl. rewrite rebase_untriggered by done.
  rewrite mapM_shiftCloud_in_sync by done. simpl. exact IH.
Qed.

Lemma rebase_establishes_sync_witness :
  fst (CompoundCloudSystem.set_offsetX system6 2,
       [CompoundCloudSystem.initCloud (CompoundCloudSystem.set_offsetX system6 2)])
    = CompoundCloudSystem.rebaseOffsets
        (fst (system6, [CompoundCloudSystem.initCloud system6]))
        (of_int 2) (of_int 0) /\
  length (snd (CompoundCloudSystem.set_offsetX system6 2,
               [CompoundCloudSystem.initCloud
                  (CompoundCloudSystem.set_offsetX system6 2)]))
    = length (snd (system6, [CompoundCloudSystem.initCloud system6])) /\
  Forall (in_sync (fst (CompoundCloudSystem.set_offsetX system6 2,
                        [CompoundCloudSystem.initCloud
                           (CompoundCloudSystem.set_offsetX system6 2)])))
    (snd (CompoundCloudSystem.set_offsetX system6 2,
          [CompoundCloudSystem.initCloud
             (CompoundCloudSystem.set_offsetX system6 2)])) /\
  (forall px' py' n,
     triggered (fst (CompoundCloudSystem.set_offsetX system6 2,
                     [CompoundCloudSystem.initCloud
                        (CompoundCloudSystem.set_offsetX system6 2)]))
       px' py' = false ->
     rebase_n n px' py'
       (CompoundCloudSystem.set_offsetX system6 2,
        [CompoundCloudSystem.initCloud (CompoundCloudSystem.set_offsetX system6 2)])
     = Some (CompoundCloudSystem.set_offsetX system6 2,
             [CompoundCloudSystem.initCloud
                (CompoundCloudSystem.set_offsetX system6 2)])).
Proof.
  apply (rebase_establishes_sync (of_int 2) (of_int 0)
           (system6, [CompoundCloudSystem.initCloud system6])).
  vm_compute. reflexivity.
Defined.

(** ** Ticks are defined on well-formed states *)

Lemma runnable_rebaseOffsets (s : system) (px py : float) :
  runnable s -> runnable (CompoundCloudSystem.rebaseOffsets s px py).
Proof.
  destruct (rebaseOffsets_frame s px py) as (_ & Hw & Hh & _ & Hxv & Hyv).
  unfold runnable, bands_fit. by rewrite Hw, Hh, Hxv, Hyv.
Qed.

Lemma well_formed_rebaseOffsets (s : system) (px py : float) (c : cloud) :
  well_formed s c -> well_formed (CompoundCloudSystem.rebaseOffsets s px py) c.
Proof.
  destruct (rebaseOffsets_frame s px py) as (_ & Hw & Hh & _).
  unfold well_formed. by rewrite Hw, Hh.
Qed.

Lemma simulate_defined (s : system) (renderTime : Z) (c : cloud) :
  runnable s -> well_formed s c ->
  exists c',
    CompoundCloudSystem.simulate s renderTime c = Some c' /\
    well_formed s c' /\
    CompoundCloudComponent.offsetX c' = CompoundCloudComponent.offsetX c /\
    CompoundCloudComponent.offsetY c' = CompoundCloudComponent.offsetY c.
Proof.
  intros (Hw & Hh & _ & Hxv & Hyv & Hxn & Hyn) [Hd Ho].
  unfold CompoundCloudSystem.simulate, CompoundCloudSystem.diffuse.
  destruct (diffuse_sweep_inv _ _ (fmul (of_int 1) (float_of_double d0_01)) _ _ Ho Hd)
    as (old & -> & Hold & _).
  simpl.
  destruct (advect_defined s old Hw Hh Hold Hxv Hyv Hxn Hyn _ renderTime Hd)
    as (dens & -> & Hdens & _).
  simpl. eexists. split; [done|]. by split.
Qed.

Lemma mapM_defined {A B : Type} (f : A -> option B) (P : A -> Prop)
    (Q : B -> Prop) (l : list A) :
  (forall a, P a -> exists b, f a = Some b /\ Q b) ->
  Forall P l ->
  exists k, mapM f l = Some k /\ Forall Q k /\ length k = length l.
Proof.
  intros Hf Hl. induction Hl as [|a l Ha _ (k & Hk & HQ & Hlen)].
  - by exists [].
  - destruct (Hf a Ha) as (b & Hb & Qb). exists (b :: k).
    simpl. rewrite Hb. simpl. rewrite Hk. simpl.
    split; [done|]. split; [by constructor|]. by rewrite Hlen.
Qed.

Lemma Run_defined (TICKSPEED : Z) (px py : float) (tick : Z)
    (s : system) (clouds : list cloud) :
  let s' := CompoundCloudSystem.rebaseOffsets s px py in
  runnable s -> Forall (well_formed s) clouds ->
  exists clouds',
    CompoundCloudSystem.Run TICKSPEED px py tick (s, clouds) = Some (s', clouds') /\
    runnable s' /\
    Forall (fun c => well_formed s' c /\ in_sync s' c) clouds' /\
    length clouds' = length clouds.
Proof.
  intros s' Hs Hclouds.
  assert (runnable s') as Hs' by by apply runnable_rebaseOffsets.
  unfold CompoundCloudSystem.Run. simpl. fold s'.
  destruct (mapM_defined
              (fun c => c ← CompoundCloudSystem.shiftCloud s' c;
                        CompoundCloudSystem.simulate s' (TICKSPEED * tick) c)
              (well_formed s) (fun c => well_formed s' c /\ in_sync s' c) clouds)
    as (clouds' & -> & Hall & Hlen); [|done|].
  - intros c Hc. apply (well_formed_rebaseOffsets s px py) in Hc as [Hd Ho].
    fold s' in Hd, Ho.
    destruct (shiftCloud_defined s' c) as (c1 & Hshift & Hd1); [apply Hs'|done|].
    rewrite Hshift. simpl.
    apply shiftCloud_Some in Hshift as ([Hx Hy] & _ & _ & _ & Hold).
    destruct (simulate_defined s' (TICKSPEED * tick) c1 Hs') as (c2 & -> & Hwf & Hx2 & Hy2).
    { split; [done|]. by rewrite Hold. }
    exists c2. split; [done|]. split; [done|]. split; congruence.
  - simpl. by exists clouds'.
Qed.




(** ** Diffusion keeps densities from going negative *)

Lemma not_negative_flt (x : float) :
  not_negative x = negb (flt x (of_int 0)).
Proof.
  change (of_int 0) with (S754_zero false).
  destruct x as [s|s| |s m e]; try (by destruct s); [done|].
  destruct s; unfold flt, Fcompare.
  - pose proof (finite_value_pos m e) as Hpos.
    pose proof (F2Q_finite_neg m e) as Hval.
    assert (F2Q (S754_finite true m e) < F2Q (S754_zero false))%Q as Hlt.
    { rewrite Hval. simpl F2Q. lra. }
    apply (proj1 (Qlt_alt _ _)) in Hlt. by rewrite Hlt.
  - pose proof (finite_value_pos m e) as Hpos.
    pose proof (F2Q_finite m e) as Hval.
    assert (F2Q (S754_zero false) < F2Q (S754_finite false m e))%Q as Hlt.
    { rewrite Hval. simpl F2Q. lra. }
    apply (proj1 (Qgt_alt _ _)) in Hlt. by rewrite Hlt.
Qed.

Lemma binary_round_aux_sign (m e : Z) (l : location) :
  sign_clear (binary_round_aux prec32 emax32 false m e l) = true.
Proof.
  unfold binary_round_aux.
  destruct (shr_fexp prec32 emax32 m e l) as [mrs' e'].
  destruct (shr_fexp prec32 emax32 _ e' loc_Exact) as [mrs'' e''].
  destruct (shr_m mrs''); [done| |done].
  by destruct (e'' <=? emax32 - prec32).
Qed.

Lemma binary_normalize_sign (m e : Z) :
  0 <= m -> sign_clear (binary_normalize prec32 emax32 m e false) = true.
Proof.
  intros Hm. destruct m as [|p|p]; [done| |lia].
  unfold binary_normalize, binary_round.
  destruct (shl_align _ _ _) as [mz ez]. apply binary_round_aux_sign.
Qed.

Lemma sign_clear_not_negative (x : float) :
  sign_clear x = true -> not_negative x = true.
Proof. by destruct x as [[]|[]| |[] ? ?]. Qed.

Lemma fadd_not_negative (x y : float) :
  not_negative x = true -> not_negative y = true ->
  not_negative (fadd x y) = true.
Proof.
  destruct x as [[]|[]| |[] mx ex], y as [[]|[]| |[] my ey]; try done.
  intros _ _. unfold fadd, SFadd. simpl cond_Zopp.
  apply sign_clear_not_negative, binary_normalize_sign. lia.
Qed.

Lemma fadd_one_sign_clear (y : float) :
  not_negative y = true -> sign_clear (fadd (of_int 1) y) = true.
Proof.
  rewrite of_int_1.
  destruct y as [[]|[]| |[] my ey]; try done.
  intros _. unfold fadd, SFadd. simpl cond_Zopp.
  apply binary_normalize_sign. lia.
Qed.

Lemma fmul_not_negative (x y : float) :
  not_negative x = true -> not_negative y = true ->
  not_negative (fmul x y) = true.
Proof.
  destruct x as [[]|[]| |[] mx ex], y as [[]|[]| |[] my ey]; try done.
  intros _ _. apply sign_clear_not_negative, binary_round_aux_sign.
Qed.

Lemma fdiv_not_negative (x y : float) :
  not_negative x = true -> sign_clear y = true ->
  not_negative (fdiv x y) = true.
Proof.
  destruct x as [[]|[]| |[] mx ex], y as [[]|[]| |[] my ey]; try done.
  intros _ _. unfold fdiv, SFdiv.
  destruct (SFdiv_core_binary _ _ _ _ _ _) as [[mz ez] lz].
  apply sign_clear_not_negative, binary_round_aux_sign.
Qed.

Lemma relax_not_negative (a d l r b u : float) :
  not_negative a = true -> not_negative d = true ->
  not_negative l = true -> not_negative r = true ->
  not_negative b = true -> not_negative u = true ->
  not_negative (relax a d l r b u) = true.
Proof.
  intros Ha Hd Hl Hr Hb Hu. unfold relax.
  apply fdiv_not_negative.
  - apply fadd_not_negative; [done|]. apply fmul_not_negative; [done|].
    repeat apply fadd_not_negative; done.
  - apply fadd_one_sign_clear, fmul_not_negative; [|done].
    by rewrite not_negative_flt.
Qed.

Lemma for_range_preserves {St : Type} (P : St -> Prop) (lo hi : Z)
    (body : Z -> St -> option St) (s s' : St) :
  (forall i s s', lo <= i < hi -> P s -> body i s = Some s' -> P s') ->
  P s -> for_range lo hi body s = Some s' -> P s'.
Proof.
  unfold for_range. remember (Z.to_nat (hi - lo)) as n eqn:Hn.
  assert (lo + Z.of_nat n <= Z.max lo hi) as Hle by lia. clear Hn.
  revert lo s Hle. induction n as [|n IH]; intros lo s Hle Hstep Hs Hrun.
  - simpl in Hrun. by injection Hrun as <-.
  - simpl in Hrun. destruct (body lo s) as [s1|] eqn:Hb; [|done]. simpl in Hrun.
    apply (IH (lo + 1) s1); [lia| | |done].
    + intros i t t' Hi. apply Hstep. lia.
    + apply (Hstep lo s s1); [lia|done|done].
Qed.

Lemma flt_not_negative (x : float) :
  flt x (of_int 0) = false <-> not_negative x = true.
Proof. rewrite not_negative_flt. by destruct (flt x (of_int 0)). Qed.

(** X7.  Diffusion never produces a density below zero.  If the rate and
    every cell of both grids are not below zero (the test [v < 0] is false
    for them), then [diffuse] is defined on [width] by [height] grids and
    the same holds for every cell of the buffer it returns.  The argument is
    on signs alone, so it covers rounding, overflow to infinity and NaN. *)
Theorem diffuse_not_negative (s : system) (rate : float)
    (old density : grid) (dt : Z) :
  let w := CompoundCloudSystem.width s in
  let h := CompoundCloudSystem.height s in
  dims w h old -> dims w h density ->
  flt rate (of_int 0) = false ->
  none_negative old -> none_negative density ->
  exists g',
    CompoundCloudSystem.diffuse s rate old density dt = Some g' /\
    dims w h g' /\ none_negative g'.
Proof.
  intros w h Ho Hd Hrate Hold Hdens.
  unfold CompoundCloudSystem.diffuse.
  set (a := fmul (of_int 1) rate).
  assert (not_negative a = true) as Ha.
  { apply fmul_not_negative; [by rewrite of_int_1|by apply flt_not_negative]. }
  destruct (diffuse_sweep_inv w h a old density Ho Hd) as (g' & Hrun & Hdims & _).
  exists g'. split; [done|]. split; [done|].
  revert Hrun. apply for_range_preserves; [|done].
  intros x g1 g2 _ Hg1. apply for_range_preserves; [|done].
  clear g1 g2 Hg1. intros y g1 g2 _ Hg1 Hcell.
  unfold CompoundCloudSystem.diffuseCell in Hcell.
  apply bind_Some in Hcell as (d & Hgd & Hcell).
  apply bind_Some in Hcell as (l & Hgl & Hcell).
  apply bind_Some in Hcell as (r & Hgr & Hcell).
  apply bind_Some in Hcell as (b & Hgb & Hcell).
  apply bind_Some in Hcell as (u & Hgu & Hcell).
  intros i j v. rewrite (grid_get_set _ _ _ _ _ i j Hcell).
  destruct (decide (i = x /\ j = y)); [|by apply Hg1].
  intros [= <-]. apply flt_not_negative.
  apply (relax_not_negative a d l r b u); [done|..]; apply flt_not_negative.
  - by apply (Hdens x y).
  - by apply (Hg1 (x - 1) y).
  - by apply (Hg1 (x + 1) y).
  - by apply (Hg1 x (y - 1)).
  - by apply (Hg1 x (y + 1)).
Qed.

Lemma diffuse_not_negative_witness :
  exists g',
    CompoundCloudSystem.diffuse system6 f0_01 zero6 impulse6 1 = Some g' /\
    dims 6 6 g' /\ none_negative g'.
Proof.
  apply (diffuse_not_negative system6 f0_01 zero6 impulse6 1).
  - split; [reflexivity|]. repeat constructor.
  - split; [reflexivity|]. repeat constructor.
  - reflexivity.
  - intros x y v Hv. apply flt_not_negative.
    assert (is_Some (grid_get zero6 x y)) as Hs by (by rewrite Hv).
    apply (dims_get 6 6) in Hs; [|split; [reflexivity|repeat constructor]].
    unfold zero6 in Hv. rewrite grid_make_get in Hv by lia. by injection Hv as <-.
  - intros x y v Hv.
    assert (is_Some (grid_get impulse6 x y)) as Hs by (by rewrite Hv).
    apply (dims_get 6 6) in Hs; [|split; [reflexivity|repeat constructor]].
    assert (x = 0 \/ x = 1 \/ x = 2 \/ x = 3 \/ x = 4 \/ x = 5) as Hx by lia.
    assert (y = 0 \/ y = 1 \/ y = 2 \/ y = 3 \/ y = 4 \/ y = 5) as Hy by lia.
    destruct Hx as [->|[->|[->|[->|[->| ->]]]]];
      destruct Hy as [->|[->|[->|[->|[->| ->]]]]];
      vm_compute in Hv; injection Hv as <-; reflexivity.
Defined.


(** ** The advection threshold and empty clouds *)

Lemma for_range_const {St : Type} (lo hi : Z) (body : Z -> St -> option St)
    (s : St) :
  (forall i, lo <= i < hi -> body i s = Some s) ->
  for_range lo hi body s = Some s.
Proof.
  unfold for_range. remember (Z.to_nat (hi - lo)) as n eqn:Hn.
  assert (lo + Z.of_nat n <= Z.max lo hi) as Hle by lia. clear Hn.
  revert lo Hle. induction n as [|n IH]; intros lo Hle Hbody; [done|].
  simpl. rewrite Hbody by lia. simpl. apply IH; [lia|].
  intros i Hi. apply Hbody. lia.
Qed.

Lemma grid_ext (w h : Z) (g1 g2 : grid) :
  dims w h g1 -> dims w h g2 ->
  (forall x y, 0 <= x < w -> 0 <= y < h -> grid_get g1 x y = grid_get g2 x y) ->
  g1 = g2.
Proof.
  intros [Hl1 Hc1] [Hl2 Hc2] Hget.
  apply list_eq_same_length with (Z.to_nat w); [lia|lia|].
  intros i c1 c2 Hi H1 H2.
  pose proof (Forall_lookup_1 _ _ _ _ Hc1 H1) as Hlen1.
  pose proof (Forall_lookup_1 _ _ _ _ Hc2 H2) as Hlen2. simpl in Hlen1, Hlen2.
  apply list_eq_same_length with (Z.to_nat h); [lia|lia|].
  intros j v1 v2 Hj Hv1 Hv2.
  specialize (Hget (Z.of_nat i) (Z.of_nat j)). unfold grid_get in Hget.
  rewrite !decide_True, !Nat2Z.id, H1, H2 in Hget by lia. simpl in Hget.
  rewrite Hv1, Hv2 in Hget. assert (Some v1 = Some v2) as [= ->] by (apply Hget; lia).
  done.
Qed.

Lemma grid_set_same (g : grid) (x y : Z) (v : float) :
  grid_get g x y = Some v -> grid_set g x y v = Some g.
Proof.
  unfold grid_get, grid_set. destruct (decide _); [|done].
  destruct (g !! Z.to_nat x) as [col|] eqn:Hcol; [|done]. simpl.
  intros Hv. rewrite Hv. simpl. by rewrite (list_insert_id col), list_insert_id.
Qed.

(** X8.  Advection only moves what exceeds the threshold: if no interior
    cell of [oldDens] is greater than 1, the result is the all-zero grid,
    whatever the border cells of [oldDens] hold and whatever the velocity
    field is (it is not read, so even a NaN velocity or a velocity grid of
    the wrong size is harmless).  In particular a window with [width <= 2]
    or [height <= 2] has no interior cell and is cleared by every
    advection. *)
Theorem advect_below_threshold (s : system) (oldDens density : grid) (dt : Z) :
  let w := CompoundCloudSystem.width s in
  let h := CompoundCloudSystem.height s in
  dims w h oldDens -> dims w h density ->
  (forall x y o, interior w h x y -> grid_get oldDens x y = Some o ->
     fgt o (of_int 1) = false) ->
  CompoundCloudSystem.advect s oldDens density dt = Some (grid_make w h (of_int 0)).
Proof.
  intros w h Ho Hd Hsmall. unfold CompoundCloudSystem.advect.
  destruct (zeroFill_spec s density Hd) as (g0 & -> & Hdims & Hzero). simpl.
  assert (g0 = grid_make w h (of_int 0)) as ->.
  { destruct (decide (0 < w)) as [Hw|Hw].
    - assert (0 <= h) as Hh by (apply (dims_nonneg w h g0 Hdims); lia).
      apply (grid_ext w h); [done|apply grid_make_dims; lia|].
      intros x y Hx Hy. rewrite Hzero, grid_make_get by done. done.
    - destruct Hdims as [Hlen _]. fold w in Hlen.
      destruct g0; [|simpl in Hlen; lia].
      unfold grid_make. by replace (Z.to_nat w) with 0%nat by lia. }
  apply for_range_const. intros x Hx. apply for_range_const. intros y Hy.
  unfold CompoundCloudSystem.advectCell.
  destruct (dims_get_Some w h oldDens x y Ho) as [o Hget]; [lia|lia|].
  fold w h in Hx, Hy.
  rewrite Hget. simpl. rewrite (Hsmall x y o); [done| |done].
  unfold interior. lia.
Qed.

Lemma advect_below_threshold_witness :
  CompoundCloudSystem.advect system6 zero6 impulse6 1
    = Some (grid_make 6 6 (of_int 0)).
Proof.
  apply (advect_below_threshold system6 zero6 impulse6 1).
  - split; [reflexivity|]. repeat constructor.
  - split; [reflexivity|]. repeat constructor.
  - intros x y o Hxy Hget. unfold zero6 in Hget.
    rewrite grid_make_get in Hget by (unfold interior in Hxy; simpl in Hxy; lia).
    by injection Hget as <-.
Defined.

Lemma zeros_get (s : system) (x y : Z) :
  0 <= x < CompoundCloudSystem.width s -> 0 <= y < CompoundCloudSystem.height s ->
  grid_get (zeros s) x y = Some (of_int 0).
Proof. intros Hx Hy. by apply grid_make_get. Qed.

Lemma diffuse_zeros (s : system) (dt : Z) :
  CompoundCloudSystem.diffuse s (float_of_double d0_01) (zeros s) (zeros s) dt
    = Some (zeros s).
Proof.
  unfold CompoundCloudSystem.diffuse.
  apply for_range_const. intros x Hx. apply for_range_const. intros y Hy.
  unfold CompoundCloudSystem.diffuseCell.
  rewrite !zeros_get by lia. simpl.
  apply grid_set_same. rewrite zeros_get by lia.
  vm_compute. reflexivity.
Qed.

Lemma advect_zeros (s : system) (dt : Z) :
  CompoundCloudSystem.advect s (zeros s) (zeros s) dt = Some (zeros s).
Proof.
  unfold CompoundCloudSystem.advect, CompoundCloudSystem.zeroFill.
  rewrite for_range_const.
  - simpl. apply for_range_const. intros x Hx. apply for_range_const. intros y Hy.
    unfold CompoundCloudSystem.advectCell. rewrite zeros_get by lia. done.
  - intros x Hx. apply for_range_const. intros y Hy.
    apply grid_set_same. by apply zeros_get.
Qed.

Lemma simulate_empty (s : system) (renderTime : Z) (c : cloud) :
  CompoundCloudComponent.density c = zeros s ->
  CompoundCloudComponent.oldDens c = zeros s ->
  CompoundCloudSystem.simulate s renderTime c = Some c.
Proof.
  intros Hd Ho. unfold CompoundCloudSystem.simulate.
  rewrite Hd, Ho, diffuse_zeros. simpl. rewrite advect_zeros. simpl.
  destruct c. simpl in *. by subst.
Qed.

(** X9.  An empty world stays empty: for every window size, velocity field
    and tick number, as long as the observer does not leave the central
    third, a tick maps a state in which every cloud is in sync and all
    zero to itself; the diffusion rate [.01] and the advection create
    nothing out of zeros. *)
Theorem Run_empty_fixed_point (TICKSPEED : Z) (px py : float) (tick : Z)
    (s : system) (clouds : list cloud) :
  triggered s px py = false ->
  Forall (empty_cloud s) clouds ->
  CompoundCloudSystem.Run TICKSPEED px py tick (s, clouds) = Some (s, clouds).
Proof.
  intros Htrig Hclouds. unfold CompoundCloudSystem.Run. simpl.
  rewrite rebaseOffsets_untriggered by done.
  assert (mapM (fun c => c ← CompoundCloudSystem.shiftCloud s c;
                         CompoundCloudSystem.simulate s (TICKSPEED * tick) c) clouds
            = Some clouds) as ->; [|done].
  apply mapM_Some. apply Forall_Forall2_diag.
  eapply Forall_impl; [exact Hclouds|]. intros c (Hsync & Hd & Ho). simpl.
  rewrite shiftCloud_in_sync by done. simpl. by apply simulate_empty.
Qed.

Lemma Run_empty_fixed_point_witness :
  CompoundCloudSystem.Run 50 (of_int 10) (of_int (-10)) 7
    (CompoundCloudSystem.init,
     [CompoundCloudSystem.initCloud CompoundCloudSystem.init])
  = Some (CompoundCloudSystem.init,
          [CompoundCloudSystem.initCloud CompoundCloudSystem.init]).
Proof.
  apply (Run_empty_fixed_point 50 (of_int 10) (of_int (-10)) 7
           CompoundCloudSystem.init
           [CompoundCloudSystem.initCloud CompoundCloudSystem.init]).
  - vm_compute. reflexivity.
  - repeat constructor.
Defined.


(** ** The offset update in the other directions *)

Lemma flt_finite_lt (a b : spec_float) :
  is_finite a = true -> is_finite b = true ->
  (F2Q a < F2Q b)%Q -> flt a b = true.
Proof.
  intros Ha Hb H. unfold flt. rewrite Fcompare_finite by done.
  by rewrite (proj1 (Qlt_alt _ _) H).
Qed.

Lemma fgt_finite_le (a b : spec_float) :
  is_finite a = true -> is_finite b = true ->
  (F2Q a <= F2Q b)%Q -> fgt a b = false.
Proof. intros Ha Hb H. rewrite fgt_flt. by apply flt_finite_le. Qed.

(** An observer at least one increment below the offset: the axis moves
    back by exactly one increment. *)
Lemma axis_step_far_neg (p : float) (off half inc : Z) :
  0 <= half < inc ->
  - 2 ^ 24 < off - inc -> off + half < 2 ^ 24 ->
  fle p (of_int (off - inc)) = true ->
  axis_step p off half inc = off - inc.
Proof.
  intros Hhalf Hlo Hhi Hle. unfold axis_step.
  destruct (of_int_value (off - inc)) as [Hf1 Hv1]; [lia|].
  destruct (of_int_value (off + half)) as [Hf2 Hv2]; [lia|].
  destruct (of_int_value (off - half)) as [Hf3 Hv3]; [lia|].
  assert (fgt p (of_int (off + half)) = false /\
          flt p (of_int (off - half)) = true) as [-> ->]; [|done].
  destruct (is_finite p) eqn:Hfp.
  - pose proof (fle_finite_true _ _ Hfp Hf1 Hle) as Hq. rewrite Hv1 in Hq.
    split.
    + apply fgt_finite_le; [done|done|]. rewrite Hv2.
      eapply Qle_trans; [exact Hq|]. rewrite <- Zle_Qle. lia.
    + apply flt_finite_lt; [done|done|]. rewrite Hv3.
      eapply Qle_lt_trans; [exact Hq|]. rewrite <- Zlt_Qlt. lia.
  - unfold fle, fgt, flt, Fcompare in *.
    destruct p as [sp|[]| |sp mp ep]; try done.
    + split; [by destruct (of_int (off + half))|by destruct (of_int (off - half))].
    + by destruct (of_int (off - inc)).
Qed.

Lemma half_lt_inc (inc : Z) : 0 < inc -> 0 <= inc ÷ 2 < inc.
Proof.
  intros H. rewrite Z.quot_div_nonneg by lia.
  pose proof (Z.div_mod inc 2 ltac:(lia)).
  pose proof (Z.mod_pos_bound inc 2 ltac:(lia)). lia.
Qed.

(** X10.  The offset update is symmetric in direction and axis.  With a
    positive increment along an axis and offsets that a [float] represents
    exactly, an observer at least one increment below [offsetX] moves the
    window by exactly [-width/3*gridSize] along x, however far away it is;
    along y an observer one increment or more above or below [offsetY]
    moves it by exactly [+height/3*gridSize] or [-height/3*gridSize].  The
    update touches nothing but the two offsets: size, cell size, noise
    scale and velocity field are unchanged. *)
Theorem rebaseOffsets_far (s : system) (px py : float) :
  let s' := CompoundCloudSystem.rebaseOffsets s px py in
  let ox := CompoundCloudSystem.offsetX s in
  let oy := CompoundCloudSystem.offsetY s in
  0 < incX s -> 0 < incY s ->
  - 2 ^ 24 < ox - incX s -> ox + incX s < 2 ^ 24 ->
  - 2 ^ 24 < oy - incY s -> oy + incY s < 2 ^ 24 ->
  (fle px (of_int (ox - incX s)) = true ->
   CompoundCloudSystem.offsetX s' = ox - incX s) /\
  (fle (of_int (oy + incY s)) py = true ->
   CompoundCloudSystem.offsetY s' = oy + incY s) /\
  (fle py (of_int (oy - incY s)) = true ->
   CompoundCloudSystem.offsetY s' = oy - incY s) /\
  CompoundCloudSystem.noiseScale s' = CompoundCloudSystem.noiseScale s /\
  CompoundCloudSystem.width s' = CompoundCloudSystem.width s /\
  CompoundCloudSystem.height s' = CompoundCloudSystem.height s /\
  CompoundCloudSystem.gridSize s' = CompoundCloudSystem.gridSize s /\
  CompoundCloudSystem.xVelocity s' = CompoundCloudSystem.xVelocity s /\
  CompoundCloudSystem.yVelocity s' = CompoundCloudSystem.yVelocity s.
Proof.
  intros s' ox oy Hix Hiy Hxlo Hxhi Hylo Hyhi.
  destruct (rebaseOffsets_axes s px py) as [Hx Hy]. fold s' ox in Hx. fold s' oy in Hy.
  pose proof (half_lt_inc (incX s) Hix) as Hhx.
  pose proof (half_lt_inc (incY s) Hiy) as Hhy.
  change (incX s ÷ 2) with (halfX s) in Hhx.
  change (incY s ÷ 2) with (halfY s) in Hhy.
  split; [|split; [|split]].
  - intros Hle. rewrite Hx. apply axis_step_far_neg; [done|done|lia|done].
  - intros Hle. rewrite Hy. apply axis_step_far; [done|lia|done|done].
  - intros Hle. rewrite Hy. apply axis_step_far_neg; [done|done|lia|done].
  - apply rebaseOffsets_frame.
Qed.

Lemma rebaseOffsets_far_witness :
  CompoundCloudSystem.offsetX
    (CompoundCloudSystem.rebaseOffsets CompoundCloudSystem.init
       (of_int (-1000)) (S754_infinity false))
  = 0 - incX CompoundCloudSystem.init /\
  CompoundCloudSystem.offsetY
    (CompoundCloudSystem.rebaseOffsets CompoundCloudSystem.init
       (of_int (-1000)) (S754_infinity false))
  = 0 + incY CompoundCloudSystem.init.
Proof.
  pose proof (rebaseOffsets_far CompoundCloudSystem.init
                (of_int (-1000)) (S754_infinity false)) as H.
  cbv zeta in H.
  destruct H as (Hx & Hy & _); [vm_compute; reflexivity..|].
  split; [apply Hx|apply Hy]; vm_compute; reflexivity.
Defined.

(** ** The velocity field generator overwrites the whole field *)

Lemma velocity_scan_unique (noise : float -> float -> float -> float)
    (s : system) (v v' : grid * grid) :
  velocity_inv noise s (CompoundCloudSystem.width s) 0 v ->
  velocity_inv noise s (CompoundCloudSystem.width s) 0 v' ->
  v = v'.
Proof.
  intros (Hx & Hy & Hcells) (Hx' & Hy' & Hcells').
  assert (forall i j, 0 <= i < CompoundCloudSystem.width s ->
                      0 <= j < CompoundCloudSystem.height s ->
                      visited (CompoundCloudSystem.width s)
                        (CompoundCloudSystem.height s)
                        (CompoundCloudSystem.width s) 0 i j) as Hvis.
  { intros i j Hi Hj. unfold visited. lia. }
  destruct v as [xv yv], v' as [xv' yv']. simpl in *. f_equal.
  - apply (grid_ext _ _ _ _ Hx Hx'). intros i j Hi Hj.
    destruct (Hcells i j (Hvis i j Hi Hj)) as [-> _].
    by destruct (Hcells' i j (Hvis i j Hi Hj)) as [-> _].
  - apply (grid_ext _ _ _ _ Hy Hy'). intros i j Hi Hj.
    destruct (Hcells i j (Hvis i j Hi Hj)) as [_ ->].
    by destruct (Hcells' i j (Hvis i j Hi Hj)) as [_ ->].
Qed.

(** X12.  [CreateVelocityField] writes every cell of both velocity grids
    from the noise alone.  On a window whose velocity grids have its
    dimensions the call is defined, its result does not depend on what the
    two grids held before (any other pair of grids of the same dimensions
    gives the same system), running it again on its own result changes
    nothing, and size, offsets, cell size and noise scale are untouched. *)
Theorem CreateVelocityField_overwrites (noise : float -> float -> float -> float)
    (s : system) (xv yv : grid) :
  let w := CompoundCloudSystem.width s in
  let h := CompoundCloudSystem.height s in
  dims w h (CompoundCloudSystem.xVelocity s) ->
  dims w h (CompoundCloudSystem.yVelocity s) ->
  dims w h xv -> dims w h yv ->
  exists s',
    CompoundCloudSystem.CreateVelocityField noise s = Some s' /\
    CompoundCloudSystem.CreateVelocityField noise
      (CompoundCloudSystem.set_velocity s xv yv) = Some s' /\
    CompoundCloudSystem.CreateVelocityField noise s' = Some s' /\
    dims w h (CompoundCloudSystem.xVelocity s') /\
    dims w h (CompoundCloudSystem.yVelocity s') /\
    CompoundCloudSystem.noiseScale s' = CompoundCloudSystem.noiseScale s /\
    CompoundCloudSystem.width s' = w /\
    CompoundCloudSystem.height s' = h /\
    CompoundCloudSystem.offsetX s' = CompoundCloudSystem.offsetX s /\
    CompoundCloudSystem.offsetY s' = CompoundCloudSystem.offsetY s /\
    CompoundCloudSystem.gridSize s' = CompoundCloudSystem.gridSize s.
Proof.
  intros w h Hx Hy Hxv Hyv.
  destruct (velocity_scan noise s (CompoundCloudSystem.xVelocity s,
                                   CompoundCloudSystem.yVelocity s) Hx Hy)
    as (v & Hrun & Hinv).
  assert (forall xv yv, dims w h xv -> dims w h yv ->
            CompoundCloudSystem.CreateVelocityField noise
              (CompoundCloudSystem.set_velocity s xv yv)
            = Some (CompoundCloudSystem.set_velocity s (fst v) (snd v))) as Hany.
  { intros xv' yv' Hxv' Hyv'.
    destruct (velocity_scan noise (CompoundCloudSystem.set_velocity s xv' yv')
                (xv', yv') Hxv' Hyv') as (v' & Hrun' & Hinv').
    unfold CompoundCloudSystem.CreateVelocityField.
    change (CompoundCloudSystem.xVelocity (CompoundCloudSystem.set_velocity s xv' yv'))
      with xv'.
    change (CompoundCloudSystem.yVelocity (CompoundCloudSystem.set_velocity s xv' yv'))
      with yv'.
    rewrite Hrun'. simpl.
    by rewrite (velocity_scan_unique noise s v' v Hinv' Hinv). }
  exists (CompoundCloudSystem.set_velocity s (fst v) (snd v)).
  destruct Hinv as (Hvx & Hvy & _).
  split; [|split; [|split]].
  - unfold CompoundCloudSystem.CreateVelocityField. by rewrite Hrun.
  - by apply Hany.
  - by apply (Hany (fst v) (snd v)).
  - by simpl.
Qed.

Lemma CreateVelocityField_overwrites_witness :
  exists s',
    CompoundCloudSystem.CreateVelocityField noise_x system6 = Some s' /\
    CompoundCloudSystem.CreateVelocityField noise_x
      (CompoundCloudSystem.set_velocity system6 impulse6 impulse6) = Some s' /\
    CompoundCloudSystem.CreateVelocityField noise_x s' = Some s' /\
    dims 6 6 (CompoundCloudSystem.xVelocity s') /\
    dims 6 6 (CompoundCloudSystem.yVelocity s') /\
    CompoundCloudSystem.noiseScale s' = CompoundCloudSystem.noiseScale system6 /\
    CompoundCloudSystem.width s' = 6 /\
    CompoundCloudSystem.height s' = 6 /\
    CompoundCloudSystem.offsetX s' = CompoundCloudSystem.offsetX system6 /\
    CompoundCloudSystem.offsetY s' = CompoundCloudSystem.offsetY system6 /\
    CompoundCloudSystem.gridSize s' = CompoundCloudSystem.gridSize system6.
Proof.
  apply (CreateVelocityField_overwrites noise_x system6 impulse6 impulse6);
    (split; [reflexivity|repeat constructor]).
Defined.


(** ** Texture upload *)

Lemma intensity_clamped (d : float) (n : Z) :
  to_int d = Some n ->
  CompoundCloudSystem.intensity d = Some (Z.max 0 (Z.min 255 n)) /\
  Z.max 0 (Z.min 255 n) `mod` 256 = Z.max 0 (Z.min 255 n).
Proof.
  intros Hn. unfold CompoundCloudSystem.intensity. rewrite Hn. simpl. split.
  - f_equal. repeat destruct (decide _); lia.
  - apply Z.mod_small. lia.
Qed.

Lemma alpha_index_inj (w rowSkip j i j' i' : Z) :
  0 <= rowSkip -> 0 <= i < w -> 0 <= i' < w ->
  alpha_index w rowSkip j i = alpha_index w rowSkip j' i' ->
  j = j' /\ i = i'.
Proof.
  unfold alpha_index. intros Hs Hi Hi' Heq.
  assert (j = j') as -> by nia. split; [done|lia].
Qed.

Lemma alpha_index_bounds (w h rowSkip j i : Z) :
  0 <= rowSkip -> 0 <= i < w -> 0 <= j < h ->
  0 <= alpha_index w rowSkip j i < h * (4 * w + rowSkip).
Proof. unfold alpha_index. intros Hs Hi Hj. nia. Qed.

Section CopyDensity.
Variables (s : system) (rowSkip : Z) (density : grid) (buf0 : list Z).
#[warning="-notation-for-abbreviation"]
Local Notation w := (CompoundCloudSystem.width s).
#[warning="-notation-for-abbreviation"]
Local Notation h := (CompoundCloudSystem.height s).
Hypothesis Hdens : dims w h density.
Hypothesis Hskip : 0 <= rowSkip.
Hypothesis Hcast : forall i j d, grid_get density i j = Some d -> is_Some (to_int d).
Hypothesis Hlen : h * (4 * w + rowSkip) <= Z.of_nat (length buf0).

Lemma copyPixel_inv (j i : Z) (st : Z * list Z) :
  0 <= j < h -> 0 <= i < w ->
  copy_inv s rowSkip density buf0 j i st ->
  exists st',
    CompoundCloudSystem.copyPixel s density j i st = Some st' /\
    copy_inv s rowSkip density buf0 j (i + 1) st'.
Proof.
  intros Hj Hi (Hp & Hl & Hdone & Hrest).
  unfold CompoundCloudSystem.copyPixel.
  destruct (dims_get_Some w h density i (h - j - 1) Hdens) as [d Hd]; [lia|lia|].
  rewrite Hd. simpl.
  destruct (Hcast _ _ _ Hd) as [n Hn].
  destruct (intensity_clamped d n Hn) as [-> Hmod]. simpl.
  pose proof (alpha_index_bounds w h rowSkip j i Hskip Hi Hj) as Hb.
  unfold CompoundCloudSystem.store. rewrite Hp, decide_True by lia.
  destruct (lookup_lt_is_Some_2 (snd st) (Z.to_nat (alpha_index w rowSkip j i)))
    as [old Hold]; [lia|].
  rewrite Hold. simpl. rewrite Hmod. eexists. split; [done|].
  split; [simpl; unfold alpha_index; lia|].
  split; [simpl; by rewrite length_insert|]. simpl. split.
  - intros j' i' Hv.
    destruct (decide (j' = j /\ i' = i)) as [[-> ->]|Hne].
    + exists (Z.max 0 (Z.min 255 n)). split.
      * exists d, n. split; [|done]. rewrite <- Hd. f_equal. lia.
      * apply list_lookup_insert_eq. lia.
    + destruct (Hdone j' i') as (v & Hv1 & Hv2).
      { unfold visited in *. lia. }
      exists v. split; [done|]. rewrite list_lookup_insert_ne; [done|].
      intros Heq. apply Hne.
      assert (alpha_index w rowSkip j i = alpha_index w rowSkip j' i') as Heq'.
      { pose proof (alpha_index_bounds w h rowSkip j' i' Hskip) as Hb'.
        unfold visited in Hv. lia. }
      apply alpha_index_inj in Heq'; [lia|done|done|unfold visited in Hv; lia].
  - intros k Hk. rewrite list_lookup_insert_ne.
    + apply Hrest. intros j' i' Hv. apply Hk. unfold visited in *. lia.
    + intros Heq. apply (Hk j i); [unfold visited; lia|done].
Qed.

Lemma copyRow_inv (j : Z) (st : Z * list Z) :
  0 <= j < h -> 0 <= w ->
  copy_inv s rowSkip density buf0 j 0 st ->
  exists st',
    (st ← for_range 0 w (CompoundCloudSystem.copyPixel s density j) st;
     Some (fst st + rowSkip, snd st)) = Some st' /\
    copy_inv s rowSkip density buf0 (j + 1) 0 st'.
Proof.
  intros Hj Hw Hinv.
  destruct (for_range_inv (copy_inv s rowSkip density buf0 j) 0 w
              (CompoundCloudSystem.copyPixel s density j) st)
    as (st1 & -> & Hp & Hl & Hdone & Hrest); [done|done| |].
  { intros i st0 Hi. by apply copyPixel_inv. }
  simpl. eexists. split; [done|].
  split; [simpl; rewrite Hp; unfold alpha_index; lia|].
  split; [done|]. simpl. split.
  - intros j' i' Hv. apply Hdone. by apply visited_row_end.
  - intros k Hk. apply Hrest. intros j' i' Hv. apply Hk. by apply visited_row_end.
Qed.

Lemma copyDensity_rows :
  0 <= h -> 0 <= w ->
  exists st',
    for_range 0 h (fun j st =>
      st ← for_range 0 w (CompoundCloudSystem.copyPixel s density j) st;
      Some (fst st + rowSkip, snd st)) (3, buf0) = Some st' /\
    copy_inv s rowSkip density buf0 h 0 st'.
Proof.
  intros Hh Hw.
  apply (for_range_inv (fun j => copy_inv s rowSkip density buf0 j 0)); [done| |].
  - split; [unfold alpha_index; simpl; lia|]. split; [done|].
    split; [intros j' i' Hv; unfold visited in Hv; lia|done].
  - intros j st Hj. by apply copyRow_inv.
Qed.

End CopyDensity.

(** X13.  The texture upload of [Run] writes exactly the alpha bytes.  Let
    the buffer rows be [4 * width + rowSkip] bytes apart with
    [rowSkip >= 0], the buffer hold at least [height] such rows, the
    density grid be [width] by [height] and every density convertible to
    [int].  Then the copy is defined, keeps the length of the buffer, sets
    byte [3 + j * (4 * width + rowSkip) + 4 * i] to the density of cell
    [(i, height - 1 - j)] truncated toward zero and clamped to [0, 255] (the
    texture is the grid flipped vertically, and the conversion to
    [uint8_t] never wraps), and leaves every other byte, the colour
    channels included, as it was. *)
Theorem copyDensity_layout (s : system) (rowSkip : Z) (density : grid)
    (buf : list Z) :
  let w := CompoundCloudSystem.width s in
  let h := CompoundCloudSystem.height s in
  dims w h density ->
  0 <= rowSkip ->
  (forall i j d, grid_get density i j = Some d -> is_Some (to_int d)) ->
  h * (4 * w + rowSkip) <= Z.of_nat (length buf) ->
  exists buf',
    CompoundCloudSystem.copyDensity s rowSkip density buf = Some buf' /\
    length buf' = length buf /\
    (forall i j, 0 <= i < w -> 0 <= j < h ->
       exists d n,
         grid_get density i (h - 1 - j) = Some d /\
         to_int d = Some n /\
         buf' !! Z.to_nat (3 + j * (4 * w + rowSkip) + 4 * i)
           = Some (Z.max 0 (Z.min 255 n))) /\
    (forall k,
       (forall i j, 0 <= i < w -> 0 <= j < h ->
          k <> Z.to_nat (3 + j * (4 * w + rowSkip) + 4 * i)) ->
       buf' !! k = buf !! k).
Proof.
  intros w h Hd Hskip Hcast Hlen. unfold CompoundCloudSystem.copyDensity.
  fold w h.
  destruct (decide (0 < w)) as [Hw|Hw].
  - assert (0 <= h) as Hh by (apply (dims_nonneg w h density Hd); lia).
    destruct (copyDensity_rows s rowSkip density buf Hd Hskip Hcast Hlen Hh)
      as (st' & Hrun & _ & Hl & Hdone & Hrest); [lia|].
    fold w h in Hrun. rewrite Hrun. simpl. exists (snd st').
    split; [done|]. split; [done|]. split.
    + intros i j Hi Hj. destruct (Hdone j i) as (v & (d & n & Hgd & Hn & ->) & Hv).
      { unfold visited. lia. }
      by exists d, n.
    + intros k Hk. apply Hrest. intros j i Hv. apply Hk; unfold visited in Hv; lia.
  - assert (w = 0) as Hw0 by (destruct Hd as [Hd _]; lia).
    exists buf.
    assert (exists p, for_range 0 h (fun j st =>
              st ← for_range 0 w (CompoundCloudSystem.copyPixel s density j) st;
              Some (fst st + rowSkip, snd st)) (3, buf)
            = Some (p, buf)) as [p ->].
    { destruct (decide (0 <= h)) as [Hh|Hh].
      - destruct (for_range_inv (fun j st => snd st = buf) 0 h
          (fun j st =>
             st ← for_range 0 w (CompoundCloudSystem.copyPixel s density j) st;
             Some (fst st + rowSkip, snd st)) (3, buf)) as ([p b] & -> & Hb);
          [done|done| |simpl in Hb; subst b; by exists p].
        intros j st Hj Hst. rewrite for_range_empty by lia. simpl.
        eexists. split; [done|]. done.
      - rewrite for_range_empty by lia. by exists 3. }
    simpl. split; [done|]. split; [done|]. split; [intros; lia|done].
Qed.

Lemma copyDensity_layout_witness :
  exists buf',
    CompoundCloudSystem.copyDensity system6 0 impulse6 (replicate 144 7) = Some buf' /\
    length buf' = length (replicate 144 7) /\
    (forall i j, 0 <= i < 6 -> 0 <= j < 6 ->
       exists d n,
         grid_get impulse6 i (6 - 1 - j) = Some d /\
         to_int d = Some n /\
         buf' !! Z.to_nat (3 + j * (4 * 6 + 0) + 4 * i)
           = Some (Z.max 0 (Z.min 255 n))) /\
    (forall k,
       (forall i j, 0 <= i < 6 -> 0 <= j < 6 ->
          k <> Z.to_nat (3 + j * (4 * 6 + 0) + 4 * i)) ->
       buf' !! k = replicate 144 7 !! k).
Proof.
  apply (copyDensity_layout system6 0 impulse6 (replicate 144 7)).
  - split; [reflexivity|]. repeat constructor.
  - lia.
  - intros i j d Hd.
    assert (is_Some (grid_get impulse6 i j)) as Hs by (by rewrite Hd).
    apply (dims_get 6 6) in Hs; [|split; [reflexivity|repeat constructor]].
    assert (i = 0 \/ i = 1 \/ i = 2 \/ i = 3 \/ i = 4 \/ i = 5) as Hi by lia.
    assert (j = 0 \/ j = 1 \/ j = 2 \/ j = 3 \/ j = 4 \/ j = 5) as Hj by lia.
    destruct Hi as [->|[->|[->|[->|[->| ->]]]]];
      destruct Hj as [->|[->|[->|[->|[->| ->]]]]];
      vm_compute in Hd; injection Hd as <-; vm_compute; eauto.
  - vm_compute. discriminate.
Defined.


(** ** Densities below one unit *)

Lemma to_int_zero_lt_one (d : float) :
  to_int d = Some 0 -> is_finite d = true /\ flt d (of_int 1) = true.
Proof.
  intros H. pose proof (to_int_finite d 0 H) as Hfin. split; [done|].
  unfold to_int in H. rewrite Hfin in H.
  destruct ((INT_MIN <=? Qtrunc (F2Q d)) && (Qtrunc (F2Q d) <=? INT_MAX)); [|done].
  injection H as H.
  destruct (of_int_value 1) as [Hf1 Hv1]; [done|].
  apply flt_finite_lt; [done|done|]. rewrite Hv1.
  unfold Qtrunc in H. destruct (Qle_bool 0 (F2Q d)) eqn:Hsign.
  - pose proof (Qlt_floor (F2Q d)) as Hlt. by rewrite H in Hlt.
  - assert (~ (0 <= F2Q d)%Q) as Hneg.
    { intros Hle. apply Qle_bool_iff in Hle. congruence. }
    apply Qnot_le_lt in Hneg. eapply Qlt_trans; [exact Hneg|done].
Qed.

Lemma fsub_zero_r (d : float) :
  is_finite d = true -> fsub d (of_int 0) = d.
Proof. by destruct d as [[]|[]| |[] m e]. Qed.

Lemma to_int_fmul_zero (rate : float) :
  is_finite rate = true -> to_int (fmul (of_int 0) rate) = Some 0.
Proof. by destruct rate as [[]|[]| |[] m e]. Qed.

(** X14.  A cell holding less than one unit is emptied by any take without
    anything being handed out: if the density of an in-range cell truncates
    to 0 and the rate is finite, [takeCompound] returns 0, sets the cell to
    0 and changes no other cell. *)
Theorem takeCompound_subunit_lost (c : cloud) (x y : Z) (rate d : float) :
  0 <= x < CompoundCloudComponent.width c /\
  0 <= y < CompoundCloudComponent.height c ->
  grid_get (CompoundCloudComponent.density c) x y = Some d ->
  to_int d = Some 0 ->
  is_finite rate = true ->
  exists dens',
    CompoundCloudComponent.takeCompound c x y rate
      = Some (0, CompoundCloudComponent.set_density c dens') /\
    grid_get dens' x y = Some (of_int 0) /\
    forall x' y', ~ (x' = x /\ y' = y) ->
      grid_get dens' x' y' = grid_get (CompoundCloudComponent.density c) x' y'.
Proof.
  intros Hin Hd Hn Hrate. unfold CompoundCloudComponent.takeCompound.
  destruct (to_int_zero_lt_one d Hn) as [Hfin Hlt].
  rewrite decide_True by lia. rewrite Hd. simpl. rewrite Hn. simpl.
  rewrite to_int_fmul_zero by done. simpl. rewrite fsub_zero_r by done.
  destruct (grid_set_is_Some (CompoundCloudComponent.density c) x y d)
    as [dens1 H1]; [by eexists|].
  rewrite H1. simpl.
  pose proof (fun i j => grid_get_set _ _ x y _ i j H1) as Hget1.
  rewrite (Hget1 x y), decide_True by done. simpl. rewrite Hlt.
  destruct (grid_set_is_Some dens1 x y (of_int 0)) as [dens2 H2].
  { rewrite (Hget1 x y), decide_True by done. by eexists. }
  rewrite H2. simpl.
  pose proof (fun i j => grid_get_set _ _ x y _ i j H2) as Hget2.
  exists dens2. split; [done|]. split.
  - by rewrite Hget2, decide_True.
  - intros x' y' Hne. by rewrite Hget2, decide_False, Hget1, decide_False.
Qed.

Lemma takeCompound_subunit_lost_witness :
  exists dens',
    CompoundCloudComponent.takeCompound
      (CompoundCloudComponent.mk 1 1 0 0 1 [[f0_5]] [[of_int 0]]) 0 0 f0_5
      = Some (0, CompoundCloudComponent.set_density
                   (CompoundCloudComponent.mk 1 1 0 0 1 [[f0_5]] [[of_int 0]]) dens') /\
    grid_get dens' 0 0 = Some (of_int 0) /\
    forall x' y', ~ (x' = 0 /\ y' = 0) ->
      grid_get dens' x' y'
        = grid_get (CompoundCloudComponent.density
                      (CompoundCloudComponent.mk 1 1 0 0 1 [[f0_5]] [[of_int 0]])) x' y'.
Proof.
  apply (takeCompound_subunit_lost
           (CompoundCloudComponent.mk 1 1 0 0 1 [[f0_5]] [[of_int 0]]) 0 0 f0_5 f0_5).
  - simpl. lia.
  - reflexivity.
  - vm_compute. reflexivity.
  - reflexivity.
Defined.


(** ** Advection of a still fluid *)

Lemma fmul_one_r (s : bool) (m : positive) (e : Z) :
  valid_binary prec32 emax32 (S754_finite s m e) = true ->
  fmul (S754_finite s m e) (of_int 1) = S754_finite s m e.
Proof.
  intros Hvalid. rewrite of_int_1. unfold fmul, SFmul. rewrite xorb_false_r.
  simpl in Hvalid. unfold bounded in Hvalid.
  apply andb_true_iff in Hvalid as [Hcan Hmax].
  unfold canonical_mantissa in Hcan. apply Z.eqb_eq in Hcan.
  rewrite digits2_pos_log2 in Hcan. apply Z.leb_le in Hmax.
  assert (Z.log2 (Z.pos (m * 8388608)) = Z.log2 (Z.pos m) + 23) as Hlog.
  { change (Z.pos (m * 8388608)) with (Z.pos m * 2 ^ 23).
    rewrite Z.log2_mul_pow2 by lia. lia. }
  assert (fexp prec32 emax32 (Z.log2 (Z.pos (m * 8388608)) + 1 + (e + -23)) = e)
    as Hexp.
  { rewrite Hlog. rewrite <- Hcan at 2. f_equal. lia. }
  destruct (binary_round_exact prec32 emax32 s (m * 8388608) (e + -23))
    as (m' & Hround & Hm').
  { rewrite Hexp. intros _. replace (e - (e + -23)) with 23 by lia.
    exists (Z.pos m). change (Z.pos (m * 8388608)) with (Z.pos m * 2 ^ 23). done. }
  { by rewrite Hexp. }
  rewrite Hexp in Hround, Hm'.
  replace (e - (e + -23)) with 23 in Hm' by lia.
  replace (e + -23 - e) with (-23) in Hm' by lia.
  change (Z.pos (m * 8388608)) with (Z.pos m * 2 ^ 23) in Hm'.
  change (Z.max 0 23) with 23 in Hm'. change (Z.max 0 (-23)) with 0 in Hm'.
  change (2 ^ 23) with 8388608 in Hm'. change (2 ^ 0) with 1 in Hm'.
  assert (m' = m) as -> by lia.
  rewrite <- Hround. unfold binary_round.
  rewrite digits2_pos_log2, Hexp. unfold shl_align.
  by replace (e - (e + -23)) with 23 by lia.
Qed.

Lemma fgt_one_positive (o : float) :
  fgt o (of_int 1) = true -> is_finite o = true ->
  exists m e, o = S754_finite false m e.
Proof.
  intros Hgt Hfin. destruct o as [[]|s| |[] m e]; try done.
  - exfalso. unfold fgt in Hgt. rewrite Fcompare_finite in Hgt by done.
    destruct (F2Q (S754_finite true m e) ?= F2Q (of_int 1))%Q eqn:Hc; try done.
    apply Qgt_alt in Hc. rewrite F2Q_finite_neg in Hc.
    pose proof (finite_value_pos m e) as Hpos.
    rewrite (proj2 (of_int_value 1 ltac:(done))) in Hc.
    change (inject_Z 1) with 1%Q in Hc.
    set (q := (inject_Z (Z.pos m) * 2 ^ e)%Q) in *. clearbody q. lra.
  - by exists m, e.
Qed.

Lemma to_int_of_int (c : Z) : 0 <= c < 2 ^ 24 -> to_int (of_int c) = Some c.
Proof.
  intros Hc. destruct (of_int_value c) as [Hfin Hval]; [lia|].
  unfold to_int, Qtrunc. rewrite Hfin.
  assert (Qle_bool 0 (F2Q (of_int c)) = true) as ->.
  { apply Qle_bool_iff. rewrite Hval. change 0%Q with (inject_Z 0).
    rewrite <- Zle_Qle. lia. }
  rewrite (Qfloor_comp _ _ Hval), Qfloor_Z.
  assert ((INT_MIN <=? c) && (c <=? INT_MAX) = true) as ->; [|done].
  apply andb_true_iff. unfold INT_MIN, INT_MAX. split; apply Z.leb_le; lia.
Qed.

Lemma of_int_positive (c : Z) :
  0 < c < 2 ^ 24 -> exists m e, of_int c = S754_finite false m e.
Proof.
  intros Hc.
  destruct (normalize_int_exact prec32 emax32 ltac:(done) ltac:(done) c Hc)
    as (m & Hm & _).
  by exists m, (Z.log2 c + 1 - prec32).
Qed.

Lemma fsub_diag (s : bool) (m : positive) (e : Z) :
  fsub (S754_finite s m e) (S754_finite s m e) = of_int 0.
Proof.
  unfold fsub, SFsub. rewrite Z.min_id. unfold shl_align.
  replace (e - e) with 0 by lia. cbv iota beta. simpl fst.
  by replace (cond_Zopp s (Z.pos m) - cond_Zopp s (Z.pos m)) with 0 by lia.
Qed.

(** A cell of a still fluid is its own destination. *)
Lemma destination_still (n c : Z) :
  2 <= n <= 2 ^ 23 -> 1 <= c <= n - 2 ->
  destination n c (of_int 0) = of_int c.
Proof.
  intros Hn Hc. unfold destination.
  destruct (of_int_positive c) as (m & e & Hm); [lia|].
  assert (fadd (of_int c) (fmul (of_int 1) (of_int 0)) = of_int c) as ->.
  { rewrite Hm. reflexivity. }
  destruct (of_int_value c) as [Hfin Hval]; [lia|].
  destruct (clamp_bound_double n Hn) as [HDf HDv].
  unfold CompoundCloudSystem.clamp.
  assert (flt (of_int c) d0_5 = false) as ->.
  { apply flt_finite_le; [done|done|]. rewrite Hval.
    change (F2Q d0_5) with (F2Q d0_5). assert (F2Q d0_5 == 1 # 2)%Q as -> by reflexivity.
    unfold Qle. simpl. lia. }
  assert (fgt (of_int c) (dsub (double_of_int n) d1_5) = false) as ->; [|done].
  apply fgt_finite_le; [done|done|]. rewrite Hval, HDv.
  unfold Qle. simpl. lia.
Qed.

Section Still.
Variable s : system.
Variable old : grid.
#[warning="-notation-for-abbreviation"]
Local Notation w := (CompoundCloudSystem.width s).
#[warning="-notation-for-abbreviation"]
Local Notation h := (CompoundCloudSystem.height s).
Hypothesis Hw : w <= 2 ^ 23.
Hypothesis Hh : h <= 2 ^ 23.
Hypothesis Hold : dims w h old.
Hypothesis Hxv : CompoundCloudSystem.xVelocity s = zeros s.
Hypothesis Hyv : CompoundCloudSystem.yVelocity s = zeros s.
Hypothesis Hvalid : forall x y o,
  interior w h x y -> grid_get old x y = Some o -> fgt o (of_int 1) = true ->
  valid_binary prec32 emax32 o = true /\ is_finite o = true.

(** What a source cell above the threshold adds: itself to its own cell
    and [o * 1 * 0], [o * 0 * 1], [o * 0 * 0] to three neighbours. *)
Lemma contribution_still (i j x y : Z) (o acc : float) :
  interior w h x y ->
  grid_get old x y = Some o ->
  fgt o (of_int 1) = true ->
  contribution s old i j x y acc =
    if decide (i = x /\ j = y) then fadd acc o
    else if decide ((i = x /\ j = y + 1) \/ (i = x + 1 /\ j = y) \/
                    (i = x + 1 /\ j = y + 1))
         then fadd acc (of_int 0)
         else acc.
Proof.
  intros [Hx Hy] Ho Hgt. unfold contribution.
  rewrite Ho, Hxv, Hyv, !zeros_get by lia. rewrite Hgt.
  rewrite !destination_still by lia. rewrite !to_int_of_int by lia.
  destruct (Hvalid x y o) as [Hval Hfin]; [done|done|done|].
  destruct (fgt_one_positive o Hgt Hfin) as (m & e & ->).
  destruct (of_int_positive x) as (mx & ex & ->); [lia|].
  destruct (of_int_positive y) as (my & ey & ->); [lia|].
  rewrite !fsub_diag.
  change (fsub (of_int 1) (of_int 0)) with (of_int 1).
  rewrite !fmul_one_r by done.
  change (fmul (S754_finite false m e) (of_int 0)) with (of_int 0).
  change (fmul (of_int 0) (of_int 1)) with (of_int 0).
  change (fmul (of_int 0) (of_int 0)) with (of_int 0).
  cbv zeta.
  destruct (decide (i = x /\ j = y)) as [[-> ->]|Hne0].
  - rewrite !decide_False by lia. done.
  - destruct (decide (i = x /\ j = y + 1)) as [[-> ->]|Hne1].
    + rewrite !decide_False by lia. rewrite decide_True by lia. done.
    + destruct (decide (i = x + 1 /\ j = y)) as [[-> ->]|Hne2].
      * rewrite !decide_False by lia. rewrite decide_True by lia. done.
      * destruct (decide (i = x + 1 /\ j = y + 1)) as [[-> ->]|Hne3].
        -- rewrite decide_True by lia. done.
        -- rewrite decide_False by lia. done.
Qed.
Lemma contribution_below (i j x y : Z) (o acc : float) :
  grid_get old x y = Some o ->
  fgt o (of_int 1) = false ->
  contribution s old i j x y acc = acc.
Proof.
  intros Ho Hle. unfold contribution. rewrite Ho.
  destruct (grid_get (CompoundCloudSystem.xVelocity s) x y); [|done].
  destruct (grid_get (CompoundCloudSystem.yVelocity s) x y); [|done].
  by rewrite Hle.
Qed.

Lemma advectCell_still (x y : Z) (g : grid) :
  interior w h x y ->
  still_inv w h old x y g ->
  exists g',
    CompoundCloudSystem.advectCell s 1 old x y g = Some g' /\
    still_inv w h old x (y + 1) g'.
Proof.
  intros Hxy [Hg Hinv].
  assert (0 <= w /\ 0 <= h) as [Hw0 Hh0] by (unfold interior in Hxy; lia).
  destruct (advectCell_spec s old Hw Hh Hold) with (x := x) (y := y) (g := g)
    as (g' & Hrun & Hg' & Hget); try done.
  { rewrite Hxv. by apply grid_make_dims. }
  { rewrite Hyv. by apply grid_make_dims. }
  { rewrite Hxv. by apply grid_make_no_nan. }
  { rewrite Hyv. by apply grid_make_no_nan. }
  exists g'. split; [done|]. split; [done|].
  destruct (dims_get_Some w h old x y Hold) as [o Ho];
    [unfold interior in Hxy; lia..|].
  assert (~ swept w h x y x y) as Hself by (unfold swept; lia).
  intros i j Hi Hj. destruct (Hinv i j Hi Hj) as [Hdone Htodo].
  destruct (decide (i = x /\ j = y)) as [[-> ->]|Hne].
  - split; [|intros Hn; exfalso; apply Hn; split; [done|lia]]. intros _.
    rewrite (Hget x y _ (Htodo Hself)). f_equal. unfold kept. rewrite Ho.
    destruct (fgt o (of_int 1)) eqn:Hgt.
    + rewrite (contribution_still x y x y o _ Hxy Ho Hgt), decide_True by done.
      destruct (Hvalid x y o Hxy Ho Hgt) as [_ Hfin].
      by destruct (fgt_one_positive o Hgt Hfin) as (m & e & ->).
    + by eapply contribution_below.
  - split.
    + intros Hsw. assert (swept w h x y i j) as Hsw' by (unfold swept, interior in *; lia).
      rewrite (Hget i j _ (Hdone Hsw')). f_equal.
      destruct (fgt o (of_int 1)) eqn:Hgt; [|by eapply contribution_below].
      rewrite (contribution_still i j x y o _ Hxy Ho Hgt).
      rewrite !decide_False; [done| |done]. unfold swept in Hsw'. lia.
    + intros Hsw. assert (~ swept w h x y i j) as Hsw' by (unfold swept, interior in *; lia).
      rewrite (Hget i j _ (Htodo Hsw')). f_equal.
      destruct (fgt o (of_int 1)) eqn:Hgt; [|by eapply contribution_below].
      rewrite (contribution_still i j x y o _ Hxy Ho Hgt).
      rewrite decide_False by done. by destruct (decide _).
Qed.

Lemma advect_row_still (x : Z) (g : grid) :
  1 <= x <= w - 2 ->
  still_inv w h old x 1 g ->
  exists g',
    for_range 1 (h - 1) (fun y => CompoundCloudSystem.advectCell s 1 old x y) g
      = Some g' /\
    still_inv w h old (x + 1) 1 g'.
Proof.
  intros Hx Hinv.
  destruct (decide (1 <= h - 1)) as [Hh1|Hh1].
  - destruct (for_range_inv (still_inv w h old x) 1 (h - 1)
      (fun y => CompoundCloudSystem.advectCell s 1 old x y) g Hh1 Hinv)
      as (g' & Hrun & Hg' & Hcells).
    { intros y g1 Hy. apply advectCell_still. split; lia. }
    exists g'. split; [done|]. split; [done|].
    intros i j Hi Hj. destruct (Hcells i j Hi Hj) as [Hdone Htodo]. split.
    + intros [[Hii Hjj] Hord]. apply Hdone. split; [done|]. lia.
    + intros Hns. apply Htodo. intros [[Hii Hjj] Hord]. apply Hns.
      split; [done|]. lia.
  - rewrite for_range_empty by lia. exists g. split; [done|].
    destruct Hinv as [Hg Hcells]. split; [done|].
    intros i j Hi Hj. destruct (Hcells i j Hi Hj) as [Hdone Htodo]. split.
    + intros [[Hii Hjj] Hord]. lia.
    + intros Hns. apply Htodo. intros [[Hii Hjj] Hord]. lia.
Qed.

Lemma advect_sweep_still (g0 : grid) :
  dims w h g0 ->
  (forall i j, 0 <= i < w -> 0 <= j < h -> grid_get g0 i j = Some (of_int 0)) ->
  exists g',
    for_range 1 (w - 1) (fun x =>
      for_range 1 (h - 1) (fun y => CompoundCloudSystem.advectCell s 1 old x y))
      g0 = Some g' /\
    dims w h g' /\
    forall i j, 0 <= i < w -> 0 <= j < h ->
      grid_get g' i j
        = Some (if decide (interior w h i j) then kept old i j else of_int 0).
Proof.
  intros Hg0 Hzero.
  assert (still_inv w h old 1 1 g0) as H0.
  { split; [done|]. intros i j Hi Hj. split; [|by intros _; apply Hzero].
    intros [[Hii Hjj] Hord]. lia. }
  destruct (decide (1 <= w - 1)) as [Hw1|Hw1].
  - destruct (for_range_inv (fun x => still_inv w h old x 1) 1 (w - 1)
      (fun x => for_range 1 (h - 1)
         (fun y => CompoundCloudSystem.advectCell s 1 old x y)) g0 Hw1 H0)
      as (g' & Hrun & Hg' & Hcells).
    { intros x g1 Hx. apply advect_row_still. lia. }
    exists g'. split; [done|]. split; [done|].
    intros i j Hi Hj. destruct (Hcells i j Hi Hj) as [Hdone Htodo].
    destruct (decide (interior w h i j)) as [Hint|Hint].
    + apply Hdone. split; [done|]. unfold interior in Hint. lia.
    + apply Htodo. by intros [Hint' _].
  - rewrite for_range_empty by lia. exists g0. split; [done|]. split; [done|].
    intros i j Hi Hj. rewrite decide_False by (unfold interior; lia). by apply Hzero.
Qed.

End Still.

(** X15.  In a still fluid advection moves nothing and loses nothing above
    the threshold.  On a window of at most [2^23] by [2^23] cells whose
    velocity grids are all zero (as the constructor leaves them), if every
    interior cell of [oldDens] that exceeds 1 holds a finite binary32
    number, then [advect] is defined and the new density of every interior
    cell whose old density exceeds 1 is exactly that old density, bit for
    bit: the weights are [1 * 1] for the cell itself and [1 * 0], [0 * 1],
    [0 * 0] for its three neighbours, and no rounding occurs.  Every other
    cell, the border included, becomes 0. *)
Theorem advect_still (s : system) (oldDens density : grid) (dt : Z) :
  let w := CompoundCloudSystem.width s in
  let h := CompoundCloudSystem.height s in
  w <= 2 ^ 23 -> h <= 2 ^ 23 ->
  dims w h oldDens -> dims w h density ->
  CompoundCloudSystem.xVelocity s = zeros s ->
  CompoundCloudSystem.yVelocity s = zeros s ->
  (forall x y o,
     interior w h x y -> grid_get oldDens x y = Some o ->
     fgt o (of_int 1) = true ->
     valid_binary prec32 emax32 o = true /\ is_finite o = true) ->
  exists density',
    CompoundCloudSystem.advect s oldDens density dt = Some density' /\
    dims w h density' /\
    (forall x y o,
       interior w h x y -> grid_get oldDens x y = Some o ->
       fgt o (of_int 1) = true ->
       grid_get density' x y = Some o) /\
    (forall x y o,
       0 <= x < w -> 0 <= y < h -> grid_get oldDens x y = Some o ->
       ~ interior w h x y \/ fgt o (of_int 1) = false ->
       grid_get density' x y = Some (of_int 0)).
Proof.
  intros w h Hw Hh Ho Hd Hxv Hyv Hvalid. unfold CompoundCloudSystem.advect.
  destruct (zeroFill_spec s density Hd) as (g0 & -> & Hg0 & Hzero). simpl.
  destruct (advect_sweep_still s oldDens Hw Hh Ho Hxv Hyv Hvalid g0 Hg0 Hzero)
    as (g' & -> & Hg' & Hcells).
  exists g'. split; [done|]. split; [done|]. split.
  - intros x y o Hint Hget Hgt.
    rewrite Hcells by (unfold interior in Hint; fold w h; lia).
    rewrite decide_True by done. unfold kept. by rewrite Hget, Hgt.
  - intros x y o Hx Hy Hget Hcase. rewrite Hcells by done.
    destruct (decide (interior _ _ x y)) as [Hint|Hint]; [|done].
    destruct Hcase as [Hn|Hle]; [done|]. unfold kept. by rewrite Hget, Hle.
Qed.

Lemma advect_still_witness :
  exists density',
    CompoundCloudSystem.advect system6 impulse6 zero6 1 = Some density' /\
    dims 6 6 density' /\
    (forall x y o,
       interior 6 6 x y -> grid_get impulse6 x y = Some o ->
       fgt o (of_int 1) = true ->
       grid_get density' x y = Some o) /\
    (forall x y o,
       0 <= x < 6 -> 0 <= y < 6 -> grid_get impulse6 x y = Some o ->
       ~ interior 6 6 x y \/ fgt o (of_int 1) = false ->
       grid_get density' x y = Some (of_int 0)).
Proof.
  apply (advect_still system6 impulse6 zero6 1).
  - vm_compute. discriminate.
  - vm_compute. discriminate.
  - split; [reflexivity|]. repeat constructor.
  - split; [reflexivity|]. repeat constructor.
  - reflexivity.
  - reflexivity.
  - intros x y o [Hx Hy] Hget _. simpl in Hx, Hy.
    assert (x = 1 \/ x = 2 \/ x = 3 \/ x = 4) as Hx' by lia.
    assert (y = 1 \/ y = 2 \/ y = 3 \/ y = 4) as Hy' by lia.
    destruct Hx' as [->|[->|[->| ->]]]; destruct Hy' as [->|[->|[->| ->]]];
      vm_compute in Hget; injection Hget as <-; split; reflexivity.
Defined.


(** ** From the velocity field generator to the ticks *)

Lemma div_core_nonneg (m1 m2 : positive) (e1 e2 : Z) :
  0 <= fst (fst (SFdiv_core_binary prec32 emax32 (Z.pos m1) e1 (Z.pos m2) e2)).
Proof.
  unfold SFdiv_core_binary.
  set (sh := e1 - e2 - _).
  set (m' := match sh with 0 => Z.pos m1 | Z.pos _ => Z.shiftl (Z.pos m1) sh
             | Z.neg _ => 0 end).
  assert (0 <= m') as Hm'.
  { unfold m'. destruct sh; [lia| |lia]. apply Z.shiftl_nonneg. lia. }
  pose proof (Z.div_pos m' (Z.pos m2) Hm' ltac:(lia)) as Hq.
  unfold Z.div in Hq. by destruct (Z.div_eucl m' (Z.pos m2)).
Qed.

Lemma fdiv_two_not_nan (x : float) :
  is_nan x = false -> is_nan (fdiv x (of_int 2)) = false.
Proof.
  change (of_int 2) with (S754_finite false 8388608 (-22)).
  destruct x as [sx|sx| |sx mx ex]; try done. intros _. unfold fdiv, SFdiv.
  pose proof (div_core_nonneg mx 8388608 ex (-22)) as Hq.
  destruct (SFdiv_core_binary _ _ _ _ _ _) as [[mz ez] lz].
  by apply binary_round_aux_not_nan.
Qed.

Lemma curl_not_nan (n0 n1 : float) :
  is_finite n0 = true -> is_finite n1 = true ->
  is_nan (fdiv (fsub n1 n0) (of_int 2)) = false.
Proof.
  intros H0 H1. apply fdiv_two_not_nan. apply SFsub_not_nan; [done|].
  by destruct n0.
Qed.

(** X16.  The generated velocity field meets the precondition of the
    ticks.  If the noise function only returns finite numbers, then on a
    window of at most [2^23] by [2^23] cells whose shift bands fit and whose
    velocity grids have its dimensions, [CreateVelocityField] is defined and
    leaves a system on which every tick is defined: both velocity grids
    keep the window's dimensions and hold no NaN (a difference of finite
    numbers halved may overflow to an infinity, which the clamp of [advect]
    handles, but is never a NaN). *)
Theorem CreateVelocityField_runnable (noise : float -> float -> float -> float)
    (s : system) :
  let w := CompoundCloudSystem.width s in
  let h := CompoundCloudSystem.height s in
  (forall a b c, is_finite (noise a b c) = true) ->
  w <= 2 ^ 23 -> h <= 2 ^ 23 -> bands_fit s ->
  dims w h (CompoundCloudSystem.xVelocity s) ->
  dims w h (CompoundCloudSystem.yVelocity s) ->
  exists s',
    CompoundCloudSystem.CreateVelocityField noise s = Some s' /\ runnable s'.
Proof.
  intros w h Hnoise Hw Hh Hbands Hx Hy.
  destruct (velocity_scan noise s (CompoundCloudSystem.xVelocity s,
                                   CompoundCloudSystem.yVelocity s) Hx Hy)
    as (v & Hrun & Hvx & Hvy & Hcells).
  unfold CompoundCloudSystem.CreateVelocityField. rewrite Hrun. simpl.
  eexists. split; [done|].
  assert (forall i j, is_Some (grid_get (fst v) i j) \/ is_Some (grid_get (snd v) i j) ->
            visited w h w 0 i j) as Hvis.
  { intros i j [Hs|Hs]; apply (dims_get w h) in Hs; try done;
      unfold visited; lia. }
  unfold runnable.
  split; [exact Hw|]. split; [exact Hh|]. split; [exact Hbands|].
  split; [exact Hvx|]. split; [exact Hvy|]. simpl. split.
  - intros i j x Hget.
    destruct (Hcells i j) as [Hcx _]; [apply Hvis; left; by rewrite Hget|].
    rewrite Hcx in Hget. injection Hget as <-.
    unfold curl_x, noiseAt. apply curl_not_nan; apply Hnoise.
  - intros i j x Hget.
    destruct (Hcells i j) as [_ Hcy]; [apply Hvis; right; by rewrite Hget|].
    rewrite Hcy in Hget. injection Hget as <-.
    unfold curl_y, noiseAt. apply curl_not_nan; apply Hnoise.
Qed.

Lemma CreateVelocityField_runnable_witness :
  exists s',
    CompoundCloudSystem.CreateVelocityField noise_flat CompoundCloudSystem.init
      = Some s' /\ runnable s'.
Proof.
  apply (CreateVelocityField_runnable noise_flat CompoundCloudSystem.init).
  - reflexivity.
  - vm_compute. discriminate.
  - vm_compute. discriminate.
  - apply (square_bands 120). lia.
  - apply grid_make_dims; lia.
  - apply grid_make_dims; lia.
Defined.


(** ** The window moves and comes back *)

Lemma shiftCloud_up (s : system) (c : cloud) (d : grid) :
  CompoundCloudComponent.offsetX c = CompoundCloudSystem.offsetX s ->
  CompoundCloudComponent.offsetY c < CompoundCloudSystem.offsetY s ->
  CompoundCloudSystem.shiftUp s (CompoundCloudComponent.density c) = Some d ->
  CompoundCloudSystem.shiftCloud s c = Some (shifted s c d).
Proof.
  intros Hx Hy Hd. unfold CompoundCloudSystem.shiftCloud.
  rewrite decide_True by lia.
  rewrite (decide_True (P := _ = _ /\ _ < _)) by lia.
  by rewrite Hd.
Qed.

Lemma shiftCloud_down (s : system) (c : cloud) (d : grid) :
  CompoundCloudComponent.offsetX c = CompoundCloudSystem.offsetX s ->
  CompoundCloudComponent.offsetY c > CompoundCloudSystem.offsetY s ->
  CompoundCloudSystem.shiftDown s (CompoundCloudComponent.density c) = Some d ->
  CompoundCloudSystem.shiftCloud s c = Some (shifted s c d).
Proof.
  intros Hx Hy Hd. unfold CompoundCloudSystem.shiftCloud.
  rewrite decide_True by lia.
  rewrite (decide_False (P := _ = _ /\ _ < _)) by lia.
  rewrite (decide_False (P := _ < _ /\ _ = _)) by lia.
  rewrite (decide_False (P := _ > _ /\ _ = _)) by lia.
  rewrite (decide_True (P := _ = _ /\ _ > _)) by lia.
  by rewrite Hd.
Qed.

Lemma shiftCloud_right (s : system) (c : cloud) (d : grid) :
  CompoundCloudComponent.offsetX c < CompoundCloudSystem.offsetX s ->
  CompoundCloudComponent.offsetY c = CompoundCloudSystem.offsetY s ->
  CompoundCloudSystem.shiftRight s (CompoundCloudComponent.density c) = Some d ->
  CompoundCloudSystem.shiftCloud s c = Some (shifted s c d).
Proof.
  intros Hx Hy Hd. unfold CompoundCloudSystem.shiftCloud.
  rewrite decide_True by lia.
  rewrite (decide_False (P := _ = _ /\ _ < _)) by lia.
  rewrite (decide_True (P := _ < _ /\ _ = _)) by lia.
  by rewrite Hd.
Qed.

Lemma shiftCloud_left (s : system) (c : cloud) (d : grid) :
  CompoundCloudComponent.offsetX c > CompoundCloudSystem.offsetX s ->
  CompoundCloudComponent.offsetY c = CompoundCloudSystem.offsetY s ->
  CompoundCloudSystem.shiftLeft s (CompoundCloudComponent.density c) = Some d ->
  CompoundCloudSystem.shiftCloud s c = Some (shifted s c d).
Proof.
  intros Hx Hy Hd. unfold CompoundCloudSystem.shiftCloud.
  rewrite decide_True by lia.
  rewrite (decide_False (P := _ = _ /\ _ < _)) by lia.
  rewrite (decide_False (P := _ < _ /\ _ = _)) by lia.
  rewrite (decide_True (P := _ > _ /\ _ = _)) by lia.
  by rewrite Hd.
Qed.

(** X17.  What a round trip of the window costs.  Let a cloud be in sync
    with the window, the window move by any positive amount along one axis
    and the cloud be shifted, and then the window return to where it was
    and the cloud be shifted again.
    - Along y (defined on every [width] by [height] grid): the rows
      [y < height/3], which had left the window, are zero; every other
      cell holds exactly what it held before the trip.
    - Along x (when the bands of the horizontal shifts fit): the columns
      [x < width/3] are zero, and the two other bands, at [x + height/3]
      and [x + height*2/3], hold exactly what they held before the trip.
    In both cases the cloud is in sync with the window again. *)
Theorem shift_round_trip (s : system) (c : cloud) (k : Z) :
  let w := CompoundCloudSystem.width s in
  let h := CompoundCloudSystem.height s in
  let m := w ÷ 3 in
  let k1 := h ÷ 3 in
  let k2 := h * 2 ÷ 3 in
  let d0 := CompoundCloudComponent.density c in
  dims w h d0 -> in_sync s c -> 0 < k ->
  (exists c1 c2,
     CompoundCloudSystem.shiftCloud
       (CompoundCloudSystem.set_offsetY s (CompoundCloudSystem.offsetY s + k)) c
       = Some c1 /\
     CompoundCloudSystem.shiftCloud s c1 = Some c2 /\
     in_sync s c2 /\
     forall x y, 0 <= x < w ->
       grid_get (CompoundCloudComponent.density c2) x y =
         if decide (0 <= y < k1) then Some (of_int 0) else grid_get d0 x y) /\
  (bands_fit s ->
   exists c1 c2,
     CompoundCloudSystem.shiftCloud
       (CompoundCloudSystem.set_offsetX s (CompoundCloudSystem.offsetX s + k)) c
       = Some c1 /\
     CompoundCloudSystem.shiftCloud s c1 = Some c2 /\
     in_sync s c2 /\
     forall x y, 0 <= x < m -> 0 <= y < h ->
       grid_get (CompoundCloudComponent.density c2) x y = Some (of_int 0) /\
       grid_get (CompoundCloudComponent.density c2) (x + k1) y
         = grid_get d0 (x + k1) y /\
       grid_get (CompoundCloudComponent.density c2) (x + k2) y
         = grid_get d0 (x + k2) y).
Proof.
  intros w h m k1 k2 d0 Hd [Hcx Hcy] Hk. split.
  - set (s' := CompoundCloudSystem.set_offsetY s (CompoundCloudSystem.offsetY s + k)).
    destruct (shiftUp_spec s' d0 Hd) as (d1 & Hup & Hd1 & Hup1 & Hup2).
    destruct (shiftDown_spec s d1 Hd1) as (d2 & Hdown & Hd2 & Hdown1 & Hdown2).
    exists (shifted s' c d1), (shifted s (shifted s' c d1) d2).
    split; [apply shiftCloud_up; simpl; [done|lia|done]|].
    split; [apply shiftCloud_down; simpl; [done|lia|done]|].
    split; [done|]. simpl.
    change (CompoundCloudSystem.height s') with h in Hup1, Hup2.
    change (CompoundCloudSystem.width s') with w in Hup1.
    fold w h k1 k2 in Hup1, Hup2, Hdown1, Hdown2.
    intros x y Hx.
    destruct (decide (0 <= y < k1)) as [Hy|Hy].
    { by destruct (Hdown1 x y Hx Hy) as (_ & _ & ->). }
    destruct (decide (y < 0)) as [Hneg|Hnn].
    { unfold grid_get. by rewrite !decide_False by lia. }
    destruct (decide (y < k1 + k1)) as [Hb1|Hb1].
    { assert (0 <= y - k1 < k1) as Hy' by lia.
      destruct (Hdown1 x (y - k1) Hx Hy') as (_ & H1 & _).
      destruct (Hup1 x (y - k1) Hx Hy') as (H2 & _ & _).
      replace (y - k1 + k1) with y in * by lia. by rewrite H1, H2. }
    destruct (decide (y < k2)) as [Hgap|Hgap].
    { rewrite Hdown2, Hup2 by lia. done. }
    destruct (decide (y < k2 + k1)) as [Hb2|Hb2].
    { assert (0 <= y - k2 < k1) as Hy' by lia.
      destruct (Hdown1 x (y - k2) Hx Hy') as (H1 & _ & _).
      destruct (Hup1 x (y - k2) Hx Hy') as (_ & H2 & _).
      replace (y - k2 + k2) with y in * by lia. by rewrite H1, H2. }
    rewrite Hdown2, Hup2 by lia. done.
  - intros (Hm & Hk12 & Hkw).
    set (s' := CompoundCloudSystem.set_offsetX s (CompoundCloudSystem.offsetX s + k)).
    destruct (shiftRight_spec s' d0 Hd Hm Hk12 Hkw) as (d1 & Hright & Hd1 & Hr).
    destruct (shiftLeft_spec s d1 Hd1 Hm Hk12 Hkw) as (d2 & Hleft & Hd2 & Hl).
    exists (shifted s' c d1), (shifted s (shifted s' c d1) d2).
    split; [apply shiftCloud_right; simpl; [lia|done|done]|].
    split; [apply shiftCloud_left; simpl; [lia|done|done]|].
    split; [done|]. simpl.
    change (CompoundCloudSystem.height s') with h in Hr.
    change (CompoundCloudSystem.width s') with w in Hr.
    fold w h m k1 k2 in Hr, Hl.
    intros x y Hx Hy.
    destruct (Hl x y Hx Hy) as (Hl1 & Hl2 & Hl3).
    destruct (Hr x y Hx Hy) as (Hr1 & Hr2 & Hr3).
    split; [done|]. split; congruence.
Qed.

Lemma shift_round_trip_witness :
  exists c1 c2,
    CompoundCloudSystem.shiftCloud
      (CompoundCloudSystem.set_offsetY system6 (CompoundCloudSystem.offsetY system6 + 2))
      cloud6 = Some c1 /\
    CompoundCloudSystem.shiftCloud system6 c1 = Some c2 /\
    in_sync system6 c2 /\
    forall x y, 0 <= x < 6 ->
      grid_get (CompoundCloudComponent.density c2) x y =
        if decide (0 <= y < 6 ÷ 3) then Some (of_int 0)
        else grid_get (CompoundCloudComponent.density cloud6) x y.
Proof.
  apply (shift_round_trip system6 cloud6 2).
  - split; [reflexivity|]. repeat constructor.
  - split; reflexivity.
  - lia.
Defined.


(** ** A flat potential *)

Lemma curl_flat (v : float) :
  is_finite v = true -> fdiv (fsub v v) (of_int 2) = of_int 0.
Proof.
  destruct v as [[]|[]| |sv mv ev]; try done. intros _.
  by rewrite fsub_diag.
Qed.

(** X19.  A flat potential makes a still fluid: if the noise function
    returns one and the same finite value everywhere, the generated
    velocity field is zero in every cell, exactly (the differences are
    [+0], so is their half). *)
Theorem CreateVelocityField_flat (noise : float -> float -> float -> float)
    (v0 : float) (s : system) :
  let w := CompoundCloudSystem.width s in
  let h := CompoundCloudSystem.height s in
  (forall a b c, noise a b c = v0) -> is_finite v0 = true ->
  dims w h (CompoundCloudSystem.xVelocity s) ->
  dims w h (CompoundCloudSystem.yVelocity s) ->
  CompoundCloudSystem.CreateVelocityField noise s
    = Some (CompoundCloudSystem.set_velocity s (zeros s) (zeros s)).
Proof.
  intros w h Hnoise Hfin Hx Hy.
  destruct (velocity_scan noise s (CompoundCloudSystem.xVelocity s,
                                   CompoundCloudSystem.yVelocity s) Hx Hy)
    as (v & Hrun & Hvx & Hvy & Hcells).
  unfold CompoundCloudSystem.CreateVelocityField. rewrite Hrun. simpl.
  assert (forall g, dims w h g ->
            (forall i j, 0 <= i < w -> 0 <= j < h ->
               grid_get g i j = Some (of_int 0)) ->
            g = zeros s) as Hzero.
  { intros g Hg Hall. destruct (decide (0 < w)) as [Hw|Hw].
    - assert (0 <= h) as Hh by (apply (dims_nonneg w h g Hg); lia).
      apply (grid_ext w h); [done|apply grid_make_dims; lia|].
      intros i j Hi Hj. rewrite Hall by done. symmetry. by apply zeros_get.
    - destruct Hg as [Hlen _]. destruct g; [|simpl in Hlen; lia].
      unfold zeros, grid_make. fold w. by replace (Z.to_nat w) with 0%nat by lia. }
  rewrite (Hzero (fst v)), (Hzero (snd v)); try done.
  - intros i j Hi Hj. destruct (Hcells i j) as [_ ->]; [unfold visited; lia|].
    unfold curl_y, noiseAt. rewrite !Hnoise. f_equal. by apply curl_flat.
  - intros i j Hi Hj. destruct (Hcells i j) as [-> _]; [unfold visited; lia|].
    unfold curl_x, noiseAt. rewrite !Hnoise. f_equal. by apply curl_flat.
Qed.

Lemma CreateVelocityField_flat_witness :
  CompoundCloudSystem.CreateVelocityField noise_flat CompoundCloudSystem.init
    = Some (CompoundCloudSystem.set_velocity CompoundCloudSystem.init
              (zeros CompoundCloudSystem.init) (zeros CompoundCloudSystem.init)).
Proof.
  apply (CreateVelocityField_flat noise_flat f0_5 CompoundCloudSystem.init).
  - reflexivity.
  - reflexivity.
  - apply grid_make_dims; lia.
  - apply grid_make_dims; lia.
Defined.

(** ** Catching up with a distant observer *)

Lemma fle_finite_le (a b : spec_float) :
  is_finite a = true -> is_finite b = true ->
  (F2Q a <= F2Q b)%Q -> fle a b = true.
Proof.
  intros Ha Hb H. unfold fle. rewrite Fcompare_finite by done.
  destruct (F2Q a ?= F2Q b)%Q eqn:Hc; [done|done|].
  apply Qgt_alt in Hc. lra.
Qed.

Lemma fle_of_int_mono (a b : Z) (p : float) :
  a <= b -> - 2 ^ 24 < a -> b < 2 ^ 24 ->
  fle (of_int b) p = true -> fle (of_int a) p = true.
Proof.
  intros Hab Ha Hb Hle.
  destruct (of_int_value a) as [Hfa Hva]; [lia|].
  destruct (of_int_value b) as [Hfb Hvb]; [lia|].
  destruct (is_finite p) eqn:Hfp.
  - apply fle_finite_le; [done|done|].
    pose proof (fle_finite_true _ _ Hfb Hfp Hle) as Hq.
    rewrite Hva. rewrite Hvb in Hq. eapply Qle_trans; [|exact Hq].
    rewrite <- Zle_Qle. lia.
  - unfold fle, Fcompare in *.
    destruct p as [sp|[]| |sp mp ep]; try done.
    + by destruct (of_int b).
    + by destruct (of_int a).
    + by destruct (of_int b).
Qed.

(** X20.  The window catches up with a distant observer one increment per
    update.  With a positive increment [width/3*gridSize] and offsets that
    a [float] represents exactly, if the observer is at least [n]
    increments beyond [offsetX], then after [n] successive offset updates
    [offsetX] has grown by exactly [n] increments. *)
Theorem rebaseOffsets_catch_up (s : system) (px py : float) (n : nat) :
  let ox := CompoundCloudSystem.offsetX s in
  0 < incX s ->
  - 2 ^ 24 < ox -> ox + Z.of_nat n * incX s < 2 ^ 24 ->
  fle (of_int (ox + Z.of_nat n * incX s)) px = true ->
  CompoundCloudSystem.offsetX (rebaseOffsets_n n px py s)
    = ox + Z.of_nat n * incX s.
Proof.
  unfold rebaseOffsets_n. revert s.
  induction n as [|n IH]; intros s Hinc Hlo Hhi Hle;
    set (ox := CompoundCloudSystem.offsetX s) in *.
  - simpl. lia.
  - rewrite Nat.iter_succ_r.
    set (s1 := CompoundCloudSystem.rebaseOffsets s px py).
    destruct (rebaseOffsets_frame s px py) as (_ & Hw & _ & Hg & _). fold s1 in Hw, Hg.
    assert (incX s1 = incX s) as Hinc1 by (unfold incX; by rewrite Hw, Hg).
    assert (0 <= Z.of_nat n * incX s) as Hn by nia.
    assert (CompoundCloudSystem.offsetX s1 = ox + incX s) as Hox1.
    { unfold s1. rewrite (proj1 (rebaseOffsets_axes s px py)).
      apply axis_step_far; [apply (half_lt_inc _ Hinc)|done|lia|].
      apply (fle_of_int_mono _ (ox + Z.of_nat (S n) * incX s)); [nia|lia|lia|done]. }
    rewrite IH; rewrite ?Hinc1, ?Hox1; try lia.
    replace (ox + incX s + Z.of_nat n * incX s) with (ox + Z.of_nat (S n) * incX s)
      by lia.
    done.
Qed.

Lemma rebaseOffsets_catch_up_witness :
  CompoundCloudSystem.offsetX
    (rebaseOffsets_n 3 (of_int 1000) (of_int 0) CompoundCloudSystem.init)
  = 0 + Z.of_nat 3 * incX CompoundCloudSystem.init.
Proof.
  apply (rebaseOffsets_catch_up CompoundCloudSystem.init (of_int 1000) (of_int 0) 3).
  - vm_compute. reflexivity.
  - vm_compute. reflexivity.
  - vm_compute. reflexivity.
  - vm_compute. reflexivity.
Defined.


(** ** The texture upload needs densities that fit an [int] *)




(** The other way round: a NaN density makes the upload undefined. *)
Remark copyDensity_nan :
  CompoundCloudSystem.copyDensity system1 0 [[S754_nan]] [0; 0; 0; 0] = None.
Proof. reflexivity. Qed.

(** ** The border of the diffusion buffer is never written *)

Lemma diffuse_Some_border (s : system) (rate : float) (old density g' : grid)
    (dt : Z) :
  CompoundCloudSystem.diffuse s rate old density dt = Some g' ->
  forall x y,
    ~ interior (CompoundCloudSystem.width s) (CompoundCloudSystem.height s) x y ->
    grid_get g' x y = grid_get old x y.
Proof.
  unfold CompoundCloudSystem.diffuse. intros Hrun x y Hxy. revert Hrun.
  apply (for_range_preserves (fun g => grid_get g x y = grid_get old x y)); [|done].
  intros i g1 g2 Hi Hg1.
  apply (for_range_preserves (fun g => grid_get g x y = grid_get old x y)); [|done].
  clear g1 g2 Hg1. intros j g1 g2 Hj Hg1 Hcell.
  unfold CompoundCloudSystem.diffuseCell in Hcell.
  apply bind_Some in Hcell as (d & _ & Hcell).
  apply bind_Some in Hcell as (l & _ & Hcell).
  apply bind_Some in Hcell as (r & _ & Hcell).
  apply bind_Some in Hcell as (b & _ & Hcell).
  apply bind_Some in Hcell as (u & _ & Hcell).
  rewrite (grid_get_set _ _ _ _ _ x y Hcell), decide_False; [done|].
  intros [-> ->]. apply Hxy. unfold interior. lia.
Qed.

Lemma simulate_Some_border (s : system) (renderTime : Z) (c c' : cloud) :
  CompoundCloudSystem.simulate s renderTime c = Some c' -> border_kept s c c'.
Proof.
  unfold CompoundCloudSystem.simulate. intros H.
  apply bind_Some in H as (old & Hdiff & H).
  apply bind_Some in H as (dens & _ & H). injection H as <-. simpl.
  intros x y Hxy. simpl. by eapply diffuse_Some_border.
Qed.

(** X22.  The border of the diffusion buffer is a fixed boundary.  On a
    well-formed state a tick is defined and, for every cloud, leaves the
    cells of [oldDens] in the first and last column and row exactly as they
    were: [diffuse] only writes interior cells, [advect] only writes
    [density], and the window shifts move [density] but never [oldDens].
    A component starts with an all-zero [oldDens], so its border stays zero
    through every tick. *)
Theorem Run_keeps_oldDens_border (TICKSPEED : Z) (px py : float) (tick : Z)
    (s : system) (clouds : list cloud) :
  runnable s -> Forall (well_formed s) clouds ->
  exists s' clouds',
    CompoundCloudSystem.Run TICKSPEED px py tick (s, clouds) = Some (s', clouds') /\
    Forall2 (border_kept s) clouds clouds'.
Proof.
  intros Hs Hclouds.
  destruct (Run_defined TICKSPEED px py tick s clouds Hs Hclouds)
    as (clouds' & Hrun & _).
  eexists _, clouds'. split; [exact Hrun|].
  unfold CompoundCloudSystem.Run in Hrun. simpl in Hrun.
  apply bind_Some in Hrun as (clouds1 & Hmap & Heq). injection Heq as <-.
  apply mapM_Some in Hmap. eapply Forall2_impl; [exact Hmap|].
  intros c c' Hc. simpl in Hc.
  apply bind_Some in Hc as (c1 & Hshift & Hsim).
  apply shiftCloud_Some in Hshift as (_ & _ & _ & _ & Hold).
  apply simulate_Some_border in Hsim.
  destruct (rebaseOffsets_frame s px py) as (_ & Hw & Hh & _).
  intros x y Hxy. rewrite <- Hold. apply Hsim. by rewrite Hw, Hh.
Qed.

Lemma Run_keeps_oldDens_border_witness :
  exists s' clouds',
    CompoundCloudSystem.Run 50 (of_int 1000) (of_int 0) 1
      (CompoundCloudSystem.init,
       [CompoundCloudSystem.initCloud CompoundCloudSystem.init])
      = Some (s', clouds') /\
    Forall2 (border_kept CompoundCloudSystem.init)
      [CompoundCloudSystem.initCloud CompoundCloudSystem.init] clouds'.
Proof.
  apply (Run_keeps_oldDens_border 50 (of_int 1000) (of_int 0) 1
           CompoundCloudSystem.init
           [CompoundCloudSystem.initCloud CompoundCloudSystem.init]).
  - split; [vm_compute; discriminate|]. split; [vm_compute; discriminate|].
    split; [apply (square_bands 120); lia|].
    split; [apply grid_make_dims; lia|]. split; [apply grid_make_dims; lia|].
    split; apply grid_make_no_nan; reflexivity.
  - constructor; [|constructor]. split; apply grid_make_dims; simpl; lia.
Defined.
